(** * RMS.Routines.Image: image correction routines

    A shallow embedding of [RMS/Routines/Image.py] and the properties of its
    deinterlacing, blending, flat-field, level and gamma routines.

    Arrays are two-dimensional numpy arrays: a storage type, a column count
    and the list of rows.  Integer samples are [Z] with the wrap-around of the
    storage type written out.  A float64 sample is NaN, an infinity, or a
    rational; every arithmetic operation rounds its exact result to binary64
    (53 significant bits, nearest, ties to even, gradual underflow, overflow
    to infinity).  Python exceptions are the [Raise] branch of [result]. *)

From Stdlib Require Import ZArith QArith Qround Qminmax Qpower Sorted Lia Lqa.
From Stdlib Require Floats Uint63.
From stdpp Require Import base tactics numbers option list.

Local Open Scope Z_scope.

(** ** Exceptions *)

Inductive exn :=
  IndexError | ValueError | TypeError | ZeroDivisionError | OverflowError.

Inductive result (A : Type) : Type :=
| Ok (a : A)
| Raise (e : exn).
Arguments Ok {A} a.
Arguments Raise {A} e.

#[global] Instance result_bind : MBind result := fun A B k m =>
  match m with
  | Ok a => k a
  | Raise e => Raise e
  end.

(** ** Integer storage types

    The storage types the routines meet on 8- and 16-bit frames.  The set is
    closed under the promotions that [blendLighten] triggers
    ([int16] with [uint16] gives [int32]). *)

Inductive Dtype := uint8 | int8 | uint16 | int16 | int32.

#[global] Instance Dtype_eq_dec : EqDecision Dtype.
Proof. solve_decision. Defined.

Definition bits (dt : Dtype) : Z :=
  match dt with
  | uint8 | int8 => 8
  | uint16 | int16 => 16
  | int32 => 32
  end.

Definition signed (dt : Dtype) : bool :=
  match dt with
  | uint8 | uint16 => false
  | int8 | int16 | int32 => true
  end.

(** [np.iinfo(dt).min] and [np.iinfo(dt).max]. *)
Definition iinfo_min (dt : Dtype) : Z :=
  if signed dt then - 2 ^ (bits dt - 1) else 0.

Definition iinfo_max (dt : Dtype) : Z :=
  if signed dt then 2 ^ (bits dt - 1) - 1 else 2 ^ bits dt - 1.

Definition in_range (dt : Dtype) (v : Z) : Prop :=
  iinfo_min dt <= v <= iinfo_max dt.

(** Integer-to-integer conversion keeps the low bits (two's complement). *)
Definition wrap (dt : Dtype) (v : Z) : Z :=
  if signed dt
  then (v + 2 ^ (bits dt - 1)) mod 2 ^ bits dt - 2 ^ (bits dt - 1)
  else v mod 2 ^ bits dt.

(** [np.result_type] of two array operands. *)
Definition promote (a b : Dtype) : Dtype :=
  match a, b with
  | uint8, uint8 => uint8
  | int8, int8 => int8
  | uint8, int8 | int8, uint8 => int16
  | uint8, uint16 | uint16, uint8 | uint16, uint16 => uint16
  | uint8, int16 | int16, uint8 | int8, int16 | int16, int8 | int16, int16 => int16
  | _, _ => int32
  end.

(** ** Integer arrays *)

Record ndarray := mkArr {
  dtype : Dtype;
  ncols : nat;
  rows : list (list Z)
}.

Definition nrows (a : ndarray) : nat := length (rows a).

Definition shape (a : ndarray) : nat * nat := (nrows a, ncols a).

(** The array invariant of numpy: rectangular, samples within the type. *)
Definition wf (a : ndarray) : Prop :=
  Forall (fun r => length r = ncols a /\ Forall (in_range (dtype a)) r) (rows a).

(** Sample at row [r], column [c]. *)
Definition px (a : ndarray) (r c : nat) : option Z :=
  row ← rows a !! r; row !! c.

(** [a.astype(dt)] between integer types. *)
Definition astype (dt : Dtype) (a : ndarray) : ndarray :=
  mkArr dt (ncols a) (map (map (wrap dt)) (rows a)).

(** [np.copy]: a fresh array with the same contents; later writes go to the
    copy, never to the argument. *)
Definition np_copy (a : ndarray) : ndarray := a.

(** *** Basic slicing along the rows *)

(** Python's [slice(start, stop, step).indices(n)] for a positive step. *)
Definition clamp_index (n : nat) (i : Z) : nat :=
  Z.to_nat (if i <? 0 then Z.max (i + Z.of_nat n) 0 else Z.min i (Z.of_nat n)).

Definition arange (lo step count : nat) : list nat :=
  (fun k => lo + k * step)%nat <$> seq 0 count.

Definition slice_indices (start stop : option Z) (step n : nat) : list nat :=
  let lo := from_option (clamp_index n) 0%nat start in
  let hi := from_option (clamp_index n) n stop in
  arange lo step ((hi - lo + (step - 1)) / step)%nat.

(** [a[start:stop:step, :]] *)
Definition getitem (start stop : option Z) (step : nat) (a : ndarray) : ndarray :=
  mkArr (dtype a) (ncols a)
        ((fun i => rows a !!! i) <$> slice_indices start stop step (nrows a)).

(** Broadcasting of a value to [r] rows of [c] columns. *)
Definition bdim (m n : nat) : option nat :=
  if decide (m = n) then Some m
  else if decide (m = 1%nat) then Some n
  else if decide (n = 1%nat) then Some m
  else None.

Definition broadcast_shapes (s t : nat * nat) : option (nat * nat) :=
  r ← bdim s.1 t.1; c ← bdim s.2 t.2; Some (r, c).

Definition stretch {A} (n : nat) (l : list A) : list A :=
  if decide (length l = n) then l
  else match l with
       | [x] => replicate n x
       | _ => l
       end.

Definition broadcast_to (sh : nat * nat) (a : ndarray) : list (list Z) :=
  stretch sh.1 (stretch sh.2 <$> rows a).

Fixpoint put_rows (idxs : list nat) (vals : list (list Z)) (l : list (list Z))
  : list (list Z) :=
  match idxs, vals with
  | i :: idxs', v :: vals' => put_rows idxs' vals' (<[i := v]> l)
  | _, _ => l
  end.

(** [a[start:stop:step, :] = v].  The right-hand side is a value: numpy
    copies it first when it overlaps the destination. *)
Definition setitem (start stop : option Z) (step : nat) (v a : ndarray)
  : result ndarray :=
  let idxs := slice_indices start stop step (nrows a) in
  let dst := (length idxs, ncols a) in
  if decide (broadcast_shapes (shape v) dst = Some dst)
  then Ok (mkArr (dtype a) (ncols a)
                 (put_rows idxs (map (map (wrap (dtype a))) (broadcast_to dst v))
                           (rows a)))
  else Raise ValueError.

(** [a[-1, :] = s] for a scalar [s]. *)
Definition setitem_last_row (s : Z) (a : ndarray) : result ndarray :=
  match nrows a with
  | O => Raise IndexError
  | S k => Ok (mkArr (dtype a) (ncols a)
                     (<[k := replicate (ncols a) (wrap (dtype a) s)]> (rows a)))
  end.

(** Elementwise binary operation with numpy's promotion and broadcasting. *)
Definition np_binop (f : Z -> Z -> Z) (a b : ndarray) : result ndarray :=
  match broadcast_shapes (shape a) (shape b) with
  | None => Raise ValueError
  | Some sh =>
      let dt := promote (dtype a) (dtype b) in
      Ok (mkArr dt sh.2
                (zip_with (zip_with (fun x y => wrap dt (f (wrap dt x) (wrap dt y))))
                          (broadcast_to sh a) (broadcast_to sh b)))
  end.

(** [a[a > 0] = s] *)
Definition clear_positive (s : Z) (a : ndarray) : ndarray :=
  mkArr (dtype a) (ncols a)
        (map (map (fun v => if 0 <? v then wrap (dtype a) s else v)) (rows a)).

(** ** Deinterlacing *)

Definition deinterlaceOdd (img : ndarray) : result ndarray :=
  let deinterlaced_image := np_copy img in
  d1 ← setitem (Some 1) None 2
          (getitem None (Some (-1)) 2 deinterlaced_image) deinterlaced_image;
  d2 ← setitem None (Some (-1)) 1 (getitem (Some 1) None 1 d1) d1;
  setitem_last_row 0 d2.

Definition deinterlaceEven (img : ndarray) : result ndarray :=
  let deinterlaced_image := np_copy img in
  setitem None (Some (-1)) 2
    (getitem (Some 1) None 2 deinterlaced_image) deinterlaced_image.

Definition blendLighten (arr1 arr2 : ndarray) : result ndarray :=
  let arr1 := astype int16 arr1 in
  temp ← np_binop Z.sub arr1 arr2;
  let temp := clear_positive 0 temp in
  new_arr ← np_binop Z.sub arr1 temp;
  Ok (astype uint8 new_arr).

Definition deinterlaceBlend (img : ndarray) : result ndarray :=
  img_odd_d ← deinterlaceOdd img;
  img_even ← deinterlaceEven img;
  blendLighten img_odd_d img_even.


(** The two steps of [deinterlaceOdd] in the words of the specification:
    every odd row takes the row before it, then the frame moves up by one
    row and the last row is filled with zeros. *)
Definition dup_preceding_even (l : list (list Z)) : list (list Z) :=
  imap (fun r row => if Nat.odd r then l !!! (r - 1)%nat else row) l.

Definition shift_up (zero : list Z) (l : list (list Z)) : list (list Z) :=
  imap (fun r _ => if (S r <? length l)%nat then l !!! S r else zero) l.

Definition deinterlaceOdd_spec (img : ndarray) : ndarray :=
  mkArr (dtype img) (ncols img)
        (shift_up (replicate (ncols img) 0) (dup_preceding_even (rows img))).

Definition row_ok (dt : Dtype) (n : nat) (r : list Z) : Prop :=
  length r = n /\ Forall (in_range dt) r.

(** ** Rounding to binary64 *)

Local Open Scope Q_scope.

Definition pow2 (e : Z) : Q := 2 ^ e.

(** The exponent [e] with [2^e <= q < 2^(e+1)], for a positive [q]. *)
Definition Qlog2 (q : Q) : Z :=
  let e0 := (Z.log2 (Qnum q) - Z.log2 (Zpos (Qden q)))%Z in
  if Qle_bool (pow2 e0) q then e0 else (e0 - 1)%Z.

(** The nearest integer, ties to the even one. *)
Definition rne (m : Q) : Z :=
  let k := Qfloor m in
  match Qcompare (m - inject_Z k) (1 # 2) with
  | Lt => k
  | Gt => (k + 1)%Z
  | Eq => if Z.even k then k else (k + 1)%Z
  end.

(** The exponent of the last significant bit: 53 bits, none below 2^-1074. *)
Definition ulp_exp (q : Q) : Z := Z.max (Qlog2 q - 52) (-1074).

Definition round_mag (q : Q) : Q :=
  inject_Z (rne (q / pow2 (ulp_exp q))) * pow2 (ulp_exp q).

Definition round64 (q : Q) : Q :=
  match Qcompare q 0 with
  | Eq => 0
  | Gt => round_mag q
  | Lt => - round_mag (- q)
  end.

(** The rationals binary64 holds, the largest exponent aside. *)
Definition representable (q : Q) : Prop :=
  exists m k, q == inject_Z m * pow2 k /\ (Z.abs m < 2 ^ 53)%Z /\ (-1074 <= k)%Z.

(** Rounded magnitudes from [huge] on overflow. *)
Definition huge : Q := inject_Z (2 ^ 1024).

(** ** float64 samples

    Zero has no sign here: a zero divisor behaves as [+0.0]. *)

Inductive float64 := Fin (q : Q) | PInf | NInf | NaN.

Definition fround (q : Q) : float64 :=
  let r := Qred (round64 q) in
  if Qle_bool huge r then PInf
  else if Qle_bool r (- huge) then NInf
  else Fin r.

Definition Qltb (x y : Q) : bool := negb (Qle_bool y x).

Definition inf_of_sign (positive : bool) : float64 :=
  if positive then PInf else NInf.

Definition fneg (a : float64) : float64 :=
  match a with
  | Fin x => Fin (- x)
  | PInf => NInf
  | NInf => PInf
  | NaN => NaN
  end.

Definition fadd (a b : float64) : float64 :=
  match a, b with
  | NaN, _ | _, NaN => NaN
  | Fin x, Fin y => fround (x + y)
  | PInf, NInf | NInf, PInf => NaN
  | PInf, _ | _, PInf => PInf
  | NInf, _ | _, NInf => NInf
  end.

Definition fsub (a b : float64) : float64 := fadd a (fneg b).

Definition fmul (a b : float64) : float64 :=
  match a, b with
  | NaN, _ | _, NaN => NaN
  | Fin x, Fin y => fround (x * y)
  | Fin x, PInf | PInf, Fin x =>
      if Qeq_bool x 0 then NaN else inf_of_sign (Qltb 0 x)
  | Fin x, NInf | NInf, Fin x =>
      if Qeq_bool x 0 then NaN else inf_of_sign (Qltb x 0)
  | PInf, PInf | NInf, NInf => PInf
  | PInf, NInf | NInf, PInf => NInf
  end.

(** numpy division: a zero divisor gives an infinity or NaN, no exception. *)
Definition fdiv (a b : float64) : float64 :=
  match a, b with
  | NaN, _ | _, NaN => NaN
  | Fin x, Fin y =>
      if Qeq_bool y 0
      then (if Qeq_bool x 0 then NaN else inf_of_sign (Qltb 0 x))
      else fround (x / y)
  | Fin _, (PInf | NInf) => Fin 0
  | PInf, Fin y => inf_of_sign (Qle_bool 0 y)
  | NInf, Fin y => inf_of_sign (Qltb y 0)
  | _, _ => NaN
  end.

(** [a < b]; false as soon as one side is NaN. *)
Definition fltb (a b : float64) : bool :=
  match a, b with
  | NaN, _ | _, NaN => false
  | Fin x, Fin y => Qltb x y
  | NInf, (Fin _ | PInf) => true
  | Fin _, PInf => true
  | _, _ => false
  end.

(** Equality of values (the representation of a rational is not unique). *)
Definition feq (a b : float64) : Prop :=
  match a, b with
  | Fin x, Fin y => x == y
  | PInf, PInf | NInf, NInf | NaN, NaN => True
  | _, _ => False
  end.

(** [np.maximum] and [np.minimum]: NaN wins. *)
Definition fmax (a b : float64) : float64 :=
  match a, b with
  | NaN, _ | _, NaN => NaN
  | _, _ => if fltb a b then b else a
  end.

Definition fmin (a b : float64) : float64 :=
  match a, b with
  | NaN, _ | _, NaN => NaN
  | _, _ => if fltb b a then b else a
  end.

(** [np.clip(x, lo, hi)], that is [minimum(maximum(x, lo), hi)]. *)
Definition fclip (lo hi x : float64) : float64 := fmin (fmax x lo) hi.

Definition of_int (z : Z) : float64 := Fin (inject_Z z).

(** Rounding toward zero, as the C conversion does. *)
Definition Qtrunc (q : Q) : Z := Z.quot (Qnum q) (Zpos (Qden q)).

(** *** Python numbers

    A number enters an operation as a float; an integer too large for a
    float raises [OverflowError].  Integers beyond 2^53 lose their low bits
    here, where Python keeps them until the first float operation. *)
Definition pyfloat (q : Q) : result float64 :=
  match fround q with
  | Fin r => Ok (Fin r)
  | _ => Raise OverflowError
  end.

Definition is_zero (x : float64) : bool :=
  match x with
  | Fin q => Qeq_bool q 0
  | _ => false
  end.

(** Python's [a / b] on floats. *)
Definition pydiv (a b : float64) : result float64 :=
  if is_zero b then Raise ZeroDivisionError else Ok (fdiv a b).

(** An operand that may be Python's [None]. *)
Definition number (v : option Q) : result float64 :=
  match v with
  | Some q => pyfloat q
  | None => Raise TypeError
  end.

Definition is_integer (y : Q) : bool := Qeq_bool (inject_Z (Qfloor y)) y.

(** *** Float arrays *)

Record farray := mkFarr {
  f_ncols : nat;
  f_rows : list (list float64)
}.

Definition fshape (a : farray) : nat * nat := (length (f_rows a), f_ncols a).

Definition fwf (a : farray) : Prop :=
  Forall (fun r => length r = f_ncols a) (f_rows a).

Definition fpx (a : farray) (r c : nat) : option float64 :=
  row ← f_rows a !! r; row !! c.

(** [a.astype(np.float64)] of an integer array: exact, the integer types
    here have at most 32 bits. *)
Definition to_float (a : ndarray) : farray :=
  mkFarr (ncols a) (map (map of_int) (rows a)).

Definition fmap2 (f : float64 -> float64) (a : farray) : farray :=
  mkFarr (f_ncols a) (map (map f) (f_rows a)).

(** [np.median] of all samples: the middle of the sorted samples, or the
    mean of the two middle ones; NaN when a sample is NaN or there is none. *)
Definition fleb (a b : float64) : bool :=
  match a, b with
  | _, NaN => true
  | NaN, _ => false
  | NInf, _ => true
  | _, NInf => false
  | _, PInf => true
  | PInf, _ => false
  | Fin x, Fin y => Qle_bool x y
  end.

Fixpoint insert_sorted (x : float64) (l : list float64) : list float64 :=
  match l with
  | [] => [x]
  | y :: l' => if fleb x y then x :: l else y :: insert_sorted x l'
  end.

Definition sort_samples (l : list float64) : list float64 :=
  foldr insert_sorted [] l.

Definition fle (a b : float64) : Prop := fleb a b = true.

Definition is_nan (x : float64) : bool :=
  match x with
  | NaN => true
  | _ => false
  end.

Definition np_median (a : farray) : float64 :=
  let s := sort_samples (concat (f_rows a)) in
  let n := length s in
  if (n =? 0)%nat || existsb is_nan s then NaN
  else if Nat.even n
       then fdiv (fadd (nth (n / 2 - 1) s NaN) (nth (n / 2) s NaN)) (Fin 2)
       else nth (n / 2) s NaN.

(** ** Flat fields *)

Record FlatStruct := mkFlat {
  flat_img : farray;
  flat_avg : float64
}.

(** [loadFlat] from the decoded file: reading and decoding the file is the
    caller's side, [file_img] is what [scipy.misc.imread] returned. *)
Definition loadFlat (file_img : ndarray) : FlatStruct :=
  let flat_img := to_float file_img in
  let flat_avg := np_median flat_img in
  let flat_img :=
    fmap2 (fun v => if fltb v (fdiv flat_avg (Fin 2)) then flat_avg else v)
          flat_img in
  mkFlat flat_img flat_avg.

Section Platform.

(** What the platform decides: the integer a conversion produces for NaN
    or an infinity (an invalid conversion in C), and the values of [pow]
    of the C library for a positive base other than 1 and a finite exponent
    other than 0 and 1. *)
Variable invalid_cast : Dtype -> Z.
Variable libm_pow : Q -> Q -> Q.

(** [x.astype(dt)] of a float: the fraction is dropped; a value outside
    the type keeps its low bits. *)
Definition to_int (dt : Dtype) (x : float64) : Z :=
  match x with
  | Fin q => wrap dt (Qtrunc q)
  | _ => invalid_cast dt
  end.

Definition farray_astype (dt : Dtype) (a : farray) : ndarray :=
  mkArr dt (f_ncols a) (map (map (to_int dt)) (f_rows a)).

(** [pow(x, y)] for a positive [x] and a finite [y]. *)
Definition pow_pos (x y : Q) : float64 :=
  if Qeq_bool y 0 then Fin 1
  else if Qeq_bool y 1 then Fin x
  else if Qeq_bool x 1 then Fin 1
  else fround (libm_pow x y).

(** [np.power(x, y)] with the special cases of C's [pow]. *)
Definition fpow (x y : float64) : float64 :=
  match x, y with
  | _, Fin e =>
      if Qeq_bool e 0 then Fin 1
      else match x with
           | NaN => NaN
           | Fin q =>
               if Qltb 0 q then pow_pos q e
               else if Qeq_bool q 0 then (if Qltb 0 e then Fin 0 else PInf)
               else if is_integer e
                    then (if Z.even (Qfloor e)
                          then pow_pos (- q) e
                          else fneg (pow_pos (- q) e))
                    else NaN
           | PInf => if Qltb 0 e then PInf else Fin 0
           | NInf =>
               if Qltb 0 e
               then (if is_integer e && Z.odd (Qfloor e) then NInf else PInf)
               else Fin 0
           end
  | Fin q, (PInf | NInf) =>
      if Qeq_bool q 1 || Qeq_bool q (-1) then Fin 1
      else if Qltb (-1) q && Qltb q 1
           then (if is_nan (fneg y) then NaN
                 else match y with PInf => Fin 0 | _ => PInf end)
           else match y with PInf => PInf | _ => Fin 0 end
  | (PInf | NInf), PInf => PInf
  | (PInf | NInf), NInf => Fin 0
  | Fin q, NaN => if Qeq_bool q 1 then Fin 1 else NaN
  | _, _ => NaN
  end.

(** Python's [x ** y] on floats, for the positive [x] it is used on: an
    overflow raises. *)
Definition pypow (x y : float64) : result float64 :=
  match x, y, fpow x y with
  | Fin _, Fin _, (PInf | NInf) => Raise OverflowError
  | _, _, r => Ok r
  end.

(** *** [gammaCorrection] on one sample

    The function that [np.vectorize] wraps, at one position: the arguments
    are the numbers found there.  The element type of the array the wrapper
    builds from the results is not part of this model. *)

Definition gammaCorrection (intensity gamma bp wp : Q) : result float64 :=
  let intensity := if Qltb intensity 0 then 0 else intensity in
  i ← pyfloat intensity;
  b ← pyfloat bp;
  w ← pyfloat wp;
  x ← pydiv (fsub i b) (fsub w b);
  if fltb (Fin 0) x
  then g ← pyfloat gamma;
       e ← pydiv (Fin 1) g;
       p ← pypow x e;
       Ok (fadd b (fmul (fsub w b) p))
  else Ok (Fin bp).

(** *** [applyBrightnessAndContrast] *)

Definition applyBrightnessAndContrast (img : ndarray) (brightness contrast : Q)
  : result ndarray :=
  contrast ← pyfloat contrast;
  f ← pydiv (fmul (Fin 259) (fadd contrast (Fin 255)))
            (fmul (Fin 255) (fsub (Fin 259) contrast));
  let img_type := dtype img in
  let img := to_float img in
  brightness ← pyfloat brightness;
  let img := fmap2 (fun v => fadd v brightness) img in
  let img := fmap2 (fun v => fadd (fmul f (fsub v (Fin 128))) (Fin 128)) img in
  let img := fmap2 (fclip (Fin 0) (Fin 255)) img in
  Ok (farray_astype img_type img).

(** *** [adjustLevels] *)

Definition adjustLevels (img_array : ndarray) (minv gamma maxv : option Q)
           (nbits : Z) : result ndarray :=
  top ← pyfloat (2 ^ nbits);
  let max_lvl := fsub top (Fin 1) in
  match minv, gamma, maxv with
  | None, None, None => Ok img_array
  | _, _, _ =>
      minv ← (m ← number minv; pydiv m max_lvl);
      maxv ← (m ← number maxv; pydiv m max_lvl);
      let interval := fsub maxv minv in
      invgamma ← (g ← number gamma; pydiv (Fin 1) g);
      let img := to_float img_array in
      let img := fmap2 (fun v => fdiv v max_lvl) img in
      let img := fmap2 (fun v => fdiv (fsub v minv) interval) img in
      let img := fmap2 (fun v => fpow v invgamma) img in
      let img := fmap2 (fun v => fmul v max_lvl) img in
      let img := fmap2 (fclip (Fin 0) max_lvl) img in
      Ok (farray_astype uint8 img)
  end.

(** *** [applyFlat]

    The flat structure is threaded through: the second component is the
    structure as the call leaves it. *)
Definition applyFlat (img : ndarray) (flat_struct : FlatStruct)
  : result ndarray * FlatStruct :=
  if decide (shape img <> fshape (flat_img flat_struct))
  then (Ok img, flat_struct)
  else
    let input_type := dtype img in
    let prod := fmap2 (fmul (flat_avg flat_struct)) (to_float img) in
    let quot :=
      mkFarr (f_ncols prod)
             (zip_with (zip_with fdiv) (f_rows prod)
                       (f_rows (flat_img flat_struct))) in
    let clipped :=
      fmap2 (fclip (of_int (iinfo_min input_type))
                   (of_int (iinfo_max input_type))) quot in
    (Ok (farray_astype input_type clipped), flat_struct).

End Platform.

(** ** Sample data *)

Definition img4 : ndarray :=
  mkArr uint8 2 [[1; 2]; [30; 4]; [5; 60]; [7; 8]]%Z.

Definition img3 : ndarray := mkArr uint8 2 [[1; 2]; [30; 4]; [5; 60]]%Z.

Definition arr_a : ndarray := mkArr uint8 2 [[1; 200]; [30; 4]]%Z.
Definition arr_b : ndarray := mkArr uint8 2 [[100; 2]; [30; 255]]%Z.

(** Conversions of NaN on x86-64 and ARM give 0 for the 8- and 16-bit
    types. *)
Definition x86_cast (dt : Dtype) : Z := 0%Z.

(** A stand-in for the C library's [pow]; the runs below only use the
    exponents 0 and 1, where it is not consulted. *)
Definition no_pow (x y : Q) : Q := x.

Definition flat_ref : ndarray :=
  mkArr uint8 4 [[100; 100; 100; 100]; [100; 10; 100; 100];
                 [100; 100; 100; 100]; [100; 100; 100; 100]]%Z.

Definition frame50 : ndarray :=
  mkArr uint8 4 [[50; 50; 50; 50]; [50; 50; 50; 50];
                 [50; 50; 50; 50]; [50; 50; 50; 50]]%Z.

Definition dark_ref : ndarray := mkArr uint8 2 [[0; 0]]%Z.
Definition frame12 : ndarray := mkArr uint8 2 [[1; 2]]%Z.

(** The float64 value 221.6924445813688 and a flat field of it. *)
Definition float_221 : Q := 7800109459433647 # 35184372088832.
Definition flat_221 : FlatStruct :=
  mkFlat (mkFarr 1 [[Fin float_221]]) (Fin float_221).
Definition frame113 : ndarray := mkArr uint8 1 [[113]]%Z.

(** A float in the finite range. *)
Definition finite_float (q : Q) : Prop :=
  representable q /\ - huge < q /\ q < huge.

(** A non-negative float of at most 32 bits before the point. *)
Definition sample_like (x : float64) : Prop :=
  exists q, x = Fin q /\ 0 <= q /\ q <= inject_Z (2 ^ 32) /\ round64 q == q.

(** The float a number in the finite range converts to. *)
Definition as_float (q : Q) : float64 := Fin (Qred (round64 q)).

Definition deep_frame : ndarray := mkArr uint16 2 [[1000; 65535]; [255; 256]]%Z.

Definition clamp0 (i : Q) : Q := if Qltb i 0 then 0 else i.

Definition gamma_identity_at (libm_pow : Q -> Q -> Q) (z : Z) : bool :=
  match gammaCorrection libm_pow (inject_Z z) 1 0 255 with
  | Ok (Fin q) => Qeq_bool q (inject_Z z)
  | _ => false
  end.

(** ** The kernel's binary64 as a reference

    The value of a hardware float as a rational, and the test that an
    exact result [q] rounds, by [round64], to the float the hardware
    returned. *)

Definition Q_of_spec (x : SpecFloat.spec_float) : option Q :=
  match x with
  | SpecFloat.S754_zero _ => Some 0
  | SpecFloat.S754_finite s m e =>
      Some ((if s then -1 else 1) * inject_Z (Zpos m) * pow2 e)
  | _ => None
  end.

Definition Q_of_prim (x : PrimFloat.float) : option Q :=
  Q_of_spec (FloatOps.Prim2SF x).

Definition prim_of_Z (z : Z) : PrimFloat.float :=
  if (z <? 0)%Z
  then PrimFloat.opp (PrimFloat.of_uint63 (Uint63.of_Z (- z)))
  else PrimFloat.of_uint63 (Uint63.of_Z z).

Definition rounds_to (q : Q) (x : PrimFloat.float) : bool :=
  match Q_of_prim x with
  | Some r => Qeq_bool (round64 q) r
  | None => false
  end.

Definition operand_pairs : list (Z * Z) :=
  a ← Z.of_nat <$> seq 0 256;
  b ← [3; 7; 10; 255; 259; 65535]%Z;
  [(a, b)].

Definition agree_div (p : Z * Z) : bool :=
  rounds_to (inject_Z p.1 / inject_Z p.2)
            (PrimFloat.div (prim_of_Z p.1) (prim_of_Z p.2)).

Definition agree_mul (p : Z * Z) : bool :=
  rounds_to (round64 (inject_Z p.1 / inject_Z p.2) * inject_Z p.2)
            (PrimFloat.mul (PrimFloat.div (prim_of_Z p.1) (prim_of_Z p.2))
                           (prim_of_Z p.2)).

Definition agree_add (p : Z * Z) : bool :=
  rounds_to (round64 (inject_Z p.1 / inject_Z p.2)
             + round64 (inject_Z p.2 / 7))
            (PrimFloat.add (PrimFloat.div (prim_of_Z p.1) (prim_of_Z p.2))
                           (PrimFloat.div (prim_of_Z p.2) (prim_of_Z 7))).

Definition agree_sub (p : Z * Z) : bool :=
  rounds_to (round64 (inject_Z p.1 / inject_Z p.2)
             - round64 (inject_Z p.2 / 7))
            (PrimFloat.sub (PrimFloat.div (prim_of_Z p.1) (prim_of_Z p.2))
                           (PrimFloat.div (prim_of_Z p.2) (prim_of_Z 7))).

(** ** Samples of a reference image and their median *)

(** A non-negative integer sample as a float. *)
Definition int_sample (x : float64) : Prop :=
  exists v, x = of_int v /\ (0 <= v <= 2 ^ 32)%Z.

(** A non-negative multiple of one half. *)
Definition half_int (x : float64) : Prop :=
  exists q k, x = Fin q /\ q == inject_Z k / 2 /\ (0 <= k <= 2 ^ 33)%Z.

Local Open Scope Z_scope.

(** ** Sample runs of the deinterlacer *)

Example ex_odd : deinterlaceOdd img4 = Ok (mkArr uint8 2 [[1; 2]; [5; 60]; [5; 60]; [0; 0]]).
Proof. reflexivity. Qed.

Example ex_even : deinterlaceEven img4 = Ok (mkArr uint8 2 [[30; 4]; [30; 4]; [7; 8]; [7; 8]]).
Proof. reflexivity. Qed.

Example ex_blend : deinterlaceBlend img4 = Ok (mkArr uint8 2 [[30; 4]; [30; 60]; [7; 60]; [7; 8]]).
Proof. reflexivity. Qed.

(** ** Storage types and wrap-around *)

Lemma wrap_in_range dt v : in_range dt v -> wrap dt v = v.
Proof.
  unfold in_range, wrap, iinfo_min, iinfo_max.
  destruct dt; simpl; intros H.
  all: try (rewrite Z.mod_small; lia).
Qed.

Lemma wrap_range dt v : in_range dt (wrap dt v).
Proof.
  unfold in_range, wrap, iinfo_min, iinfo_max.
  destruct dt; simpl.
  all: match goal with
       | |- context [?a mod ?m] => pose proof (Z.mod_pos_bound a m ltac:(lia))
       end; lia.
Qed.

(** ** Arithmetic progressions of row indices *)

Lemma length_arange lo step count : length (arange lo step count) = count.
Proof. unfold arange. by rewrite length_fmap, length_seq. Qed.

Lemma lookup_arange lo step count k :
  (k < count)%nat -> arange lo step count !! k = Some (lo + k * step)%nat.
Proof.
  intros Hk. unfold arange.
  rewrite list_lookup_fmap, lookup_seq_lt by done. done.
Qed.

Lemma elem_of_arange lo step count r :
  r ∈ arange lo step count <-> exists k, (k < count)%nat /\ r = (lo + k * step)%nat.
Proof.
  unfold arange. rewrite list_elem_of_fmap. split.
  - intros (k & -> & Hk). apply elem_of_seq in Hk. exists k. split; [lia | done].
  - intros (k & Hk & ->). exists k. split; [done |]. apply elem_of_seq. lia.
Qed.

Lemma NoDup_arange lo step count : (0 < step)%nat -> NoDup (arange lo step count).
Proof.
  intros Hs. unfold arange. apply NoDup_fmap_2; [| apply NoDup_seq].
  intros x y Hxy. nia.
Qed.

Lemma slice_odd_rows n : slice_indices (Some 1) None 2 n = arange 1 2 (n / 2).
Proof.
  unfold slice_indices, clamp_index. simpl.
  destruct n as [|n]; [done |].
  replace (Z.to_nat (Z.min 1 (Z.of_nat (S n)))) with 1%nat by lia.
  f_equal. replace (S n - 1 + 1)%nat with (S n) by lia. done.
Qed.

Lemma slice_even_rows n : slice_indices None (Some (-1)) 2 n = arange 0 2 (n / 2).
Proof.
  unfold slice_indices, clamp_index. simpl.
  destruct n as [|n]; [done |].
  replace (Z.to_nat (Z.max (-1 + Z.of_nat (S n)) 0)) with n by lia.
  f_equal. replace (n - 0 + 1)%nat with (S n) by lia. done.
Qed.

Lemma slice_but_last n : slice_indices None (Some (-1)) 1 n = arange 0 1 (n - 1).
Proof.
  unfold slice_indices, clamp_index. cbn [from_option].
  change (-1 <? 0) with true. cbv iota.
  replace (Z.to_nat (Z.max (-1 + Z.of_nat n) 0)) with (n - 1)%nat by lia.
  f_equal. rewrite Nat.div_1_r. lia.
Qed.

Lemma slice_but_first n : slice_indices (Some 1) None 1 n = arange 1 1 (n - 1).
Proof.
  unfold slice_indices, clamp_index. cbn [from_option].
  change (1 <? 0) with false. cbv iota.
  destruct n as [|n]; [done |].
  replace (Z.to_nat (Z.min 1 (Z.of_nat (S n)))) with 1%nat by lia.
  f_equal. rewrite Nat.div_1_r. lia.
Qed.

(** ** Row assignment *)

Lemma length_put_rows idxs vals l : length (put_rows idxs vals l) = length l.
Proof.
  revert vals l. induction idxs as [|i idxs IH]; intros [|v vals] l; simpl; try done.
  by rewrite IH, length_insert.
Qed.

Lemma lookup_put_rows_notin idxs vals l r :
  r ∉ idxs -> put_rows idxs vals l !! r = l !! r.
Proof.
  revert vals l. induction idxs as [|i idxs IH]; intros [|v vals] l Hr; simpl; try done.
  apply not_elem_of_cons in Hr as [Hne Hr].
  rewrite IH by done. by rewrite list_lookup_insert_ne.
Qed.

Lemma lookup_put_rows_in idxs vals l k r v :
  NoDup idxs -> idxs !! k = Some r -> vals !! k = Some v -> (r < length l)%nat ->
  put_rows idxs vals l !! r = Some v.
Proof.
  revert vals l k. induction idxs as [|i idxs IH]; intros vals l k Hnd Hi Hv Hr.
  - done.
  - apply NoDup_cons in Hnd as [Hni Hnd'].
    destruct vals as [|v0 vals]; [by destruct k |].
    destruct k as [|k]; simpl in *.
    + simplify_eq. rewrite lookup_put_rows_notin by done.
      by rewrite list_lookup_insert_eq.
    + eapply IH; eauto. by rewrite length_insert.
Qed.

(** ** Well-formed arrays under slicing and assignment *)

Lemma wf_row_ok a : wf a <-> Forall (row_ok (dtype a) (ncols a)) (rows a).
Proof. done. Qed.

Lemma stretch_same {A} n (l : list A) : length l = n -> stretch n l = l.
Proof. intros H. unfold stretch. by rewrite decide_True. Qed.

Lemma row_ok_length dt n (l : list (list Z)) :
  Forall (row_ok dt n) l -> Forall (fun r => length r = n) l.
Proof. intros H. eapply Forall_impl; [exact H |]. by intros r [? _]. Qed.

Lemma broadcast_to_same n (l : list (list Z)) a :
  rows a = l -> Forall (fun r => length r = n) l ->
  broadcast_to (length l, n) a = l.
Proof.
  intros Ha Hl. unfold broadcast_to. simpl. rewrite Ha.
  assert (stretch n <$> l = l) as ->.
  { clear Ha. induction Hl as [|r l Hr _ IH]; [done |].
    rewrite fmap_cons, stretch_same by done. by rewrite IH. }
  by apply stretch_same.
Qed.

Lemma wrap_rows_id dt n (l : list (list Z)) :
  Forall (row_ok dt n) l -> map (map (wrap dt)) l = l.
Proof.
  induction 1 as [|r l [_ Hr] _ IH]; simpl; [done |].
  rewrite IH. f_equal.
  induction Hr as [|x r Hx _ IHr]; simpl; [done |].
  by rewrite wrap_in_range, IHr.
Qed.

Lemma bdim_same n : bdim n n = Some n.
Proof. unfold bdim. by rewrite decide_True. Qed.

Lemma broadcast_shapes_same s : broadcast_shapes s s = Some s.
Proof. destruct s as [r c]. unfold broadcast_shapes. simpl. by rewrite !bdim_same. Qed.

Lemma getitem_row_ok start stop step a lo cnt :
  wf a ->
  slice_indices start stop step (nrows a) = arange lo step cnt ->
  (forall k, (k < cnt)%nat -> (lo + k * step < nrows a)%nat) ->
  Forall (row_ok (dtype a) (ncols a)) (rows (getitem start stop step a))
  /\ length (rows (getitem start stop step a)) = cnt
  /\ forall k, (k < cnt)%nat ->
       rows (getitem start stop step a) !! k = rows a !! (lo + k * step)%nat.
Proof.
  intros Hwf Hsl Hin. unfold getitem. simpl. rewrite Hsl. split; [| split].
  - apply Forall_fmap, Forall_forall. intros i Hi.
    apply elem_of_arange in Hi as (k & Hk & ->). simpl.
    eapply Forall_lookup_1; [exact Hwf |].
    apply list_lookup_lookup_total_lt. by apply Hin.
  - by rewrite length_fmap, length_arange.
  - intros k Hk. rewrite list_lookup_fmap, lookup_arange by done. simpl.
    symmetry. apply list_lookup_lookup_total_lt. by apply Hin.
Qed.

Lemma setitem_arange start stop step v a lo cnt :
  wf a ->
  slice_indices start stop step (nrows a) = arange lo step cnt ->
  (0 < step)%nat ->
  (forall k, (k < cnt)%nat -> (lo + k * step < nrows a)%nat) ->
  ncols v = ncols a ->
  length (rows v) = cnt ->
  Forall (row_ok (dtype a) (ncols a)) (rows v) ->
  exists a',
    setitem start stop step v a = Ok a'
    /\ wf a' /\ dtype a' = dtype a /\ ncols a' = ncols a /\ nrows a' = nrows a
    /\ (forall k, (k < cnt)%nat -> rows a' !! (lo + k * step)%nat = rows v !! k)
    /\ (forall r, r ∉ arange lo step cnt -> rows a' !! r = rows a !! r).
Proof.
  intros Hwf Hsl Hstep Hin Hc Hlen Hv. subst cnt.
  unfold setitem. rewrite Hsl, length_arange.
  assert (shape v = (length (rows v), ncols a)) as ->
    by (unfold shape, nrows; congruence).
  rewrite decide_True by apply broadcast_shapes_same.
  rewrite (broadcast_to_same (ncols a) (rows v) v)
    by eauto using row_ok_length.
  rewrite (wrap_rows_id (dtype a) (ncols a)) by done.
  eexists. split; [done |]. simpl.
  assert (forall k, (k < length (rows v))%nat ->
            put_rows (arange lo step (length (rows v))) (rows v) (rows a)
              !! (lo + k * step)%nat
            = rows v !! k) as Hput.
  { intros k Hk.
    destruct (lookup_lt_is_Some_2 (rows v) k Hk) as [row Hrow].
    rewrite Hrow. eapply lookup_put_rows_in; eauto using NoDup_arange, lookup_arange. }
  split; [| repeat split; try done].
  - apply Forall_lookup. simpl. intros r row Hr.
    destruct (decide (r ∈ arange lo step (length (rows v)))) as [Hel | Hel].
    + apply elem_of_arange in Hel as (k & Hk & ->).
      rewrite Hput in Hr by done. exact (Forall_lookup_1 _ _ _ _ Hv Hr).
    + rewrite lookup_put_rows_notin in Hr by done.
      exact (Forall_lookup_1 _ _ _ _ Hwf Hr).
  - unfold nrows. simpl. apply length_put_rows.
  - intros r Hr. by apply lookup_put_rows_notin.
Qed.

(** ** [deinterlaceEven] *)

Lemma half_bound n k : (k < n / 2)%nat -> (1 + k * 2 < n)%nat.
Proof.
  intros Hk. pose proof (Nat.Div0.mul_div_le n 2). lia.
Qed.

Lemma half_bound_inv n k : (1 + k * 2 < n)%nat -> (k < n / 2)%nat.
Proof.
  intros Hk. apply Nat.div_le_lower_bound; lia.
Qed.

Lemma even_half r : Nat.even r = true -> exists k, r = (0 + k * 2)%nat.
Proof.
  intros H. apply Nat.even_spec in H as [k ->]. exists k. lia.
Qed.

Lemma odd_half r : Nat.even r = false -> exists k, r = (1 + k * 2)%nat.
Proof.
  intros H. rewrite <- Nat.negb_odd in H. apply negb_false_iff in H.
  apply Nat.odd_spec in H as [k ->]. exists k. lia.
Qed.

Lemma even_double k : Nat.even (0 + k * 2) = true.
Proof. apply Nat.even_spec. exists k. lia. Qed.

Lemma odd_double k : Nat.even (1 + k * 2) = false.
Proof.
  rewrite <- Nat.negb_odd. apply negb_false_iff, Nat.odd_spec. exists k. lia.
Qed.

Lemma deinterlaceEven_rows img :
  wf img ->
  exists out,
    deinterlaceEven img = Ok out
    /\ wf out /\ dtype out = dtype img /\ ncols out = ncols img
    /\ nrows out = nrows img
    /\ forall r, (r < nrows img)%nat ->
         rows out !! r =
           if Nat.even r && (S r <? nrows img)%nat
           then rows img !! S r else rows img !! r.
Proof.
  intros Hwf. unfold deinterlaceEven, np_copy.
  destruct (getitem_row_ok (Some 1) None 2 img 1 (nrows img / 2) Hwf)
    as (Hv & Hlen & Hget); [apply slice_odd_rows | apply half_bound |].
  destruct (setitem_arange None (Some (-1)) 2
              (getitem (Some 1) None 2 img) img 0 (nrows img / 2))
    as (out & Hout & Hwf' & Hdt & Hnc & Hnr & Hin & Hnotin);
    try done; [apply slice_even_rows | lia | |].
  { intros k Hk. apply half_bound in Hk. lia. }
  exists out. repeat split; try done.
  intros r Hr.
  destruct (Nat.even r) eqn:Hev; simpl.
  - destruct (Nat.ltb_spec (S r) (nrows img)) as [Hlt | Hge].
    + apply even_half in Hev as [k ->].
      assert (k < nrows img / 2)%nat as Hk by (apply half_bound_inv; lia).
      rewrite Hin, Hget by done. done.
    + apply Hnotin. intros (k & Hk & ->)%elem_of_arange.
      apply half_bound in Hk. lia.
  - apply Hnotin. intros (k & Hk & ->)%elem_of_arange.
    by rewrite even_double in Hev.
Qed.

(** ** [deinterlaceOdd] *)

Lemma deinterlaceOdd_rows img :
  wf img -> (0 < nrows img)%nat ->
  exists out,
    deinterlaceOdd img = Ok out
    /\ wf out /\ dtype out = dtype img /\ ncols out = ncols img
    /\ nrows out = nrows img
    /\ forall r, (r < nrows img)%nat ->
         rows out !! r =
           if (S r <? nrows img)%nat
           then (if Nat.even r then rows img !! r else rows img !! S r)
           else Some (replicate (ncols img) 0).
Proof.
  intros Hwf Hpos. unfold deinterlaceOdd, np_copy.
  (* odd rows take the preceding even row *)
  destruct (getitem_row_ok None (Some (-1)) 2 img 0 (nrows img / 2) Hwf)
    as (Hv1 & Hlen1 & Hget1); [apply slice_even_rows | |].
  { intros k Hk. apply half_bound in Hk. lia. }
  destruct (setitem_arange (Some 1) None 2
              (getitem None (Some (-1)) 2 img) img 1 (nrows img / 2))
    as (d1 & Hd1 & Hwf1 & Hdt1 & Hnc1 & Hnr1 & Hin1 & Hnotin1);
    try done; [apply slice_odd_rows | lia | apply half_bound |].
  rewrite Hd1. simpl.
  (* the frame moves one row up *)
  destruct (getitem_row_ok (Some 1) None 1 d1 1 (nrows d1 - 1) Hwf1)
    as (Hv2 & Hlen2 & Hget2); [apply slice_but_first | lia |].
  destruct (setitem_arange None (Some (-1)) 1
              (getitem (Some 1) None 1 d1) d1 0 (nrows d1 - 1))
    as (d2 & Hd2 & Hwf2 & Hdt2 & Hnc2 & Hnr2 & Hin2 & Hnotin2);
    try done; [apply slice_but_last | lia | lia |].
  rewrite Hd2. simpl.
  (* the last row is cleared *)
  unfold setitem_last_row.
  destruct (nrows d2) as [|m] eqn:Hm; [lia |].
  eexists. split; [done |].
  assert (wrap (dtype d2) 0 = 0) as Hz by (by destruct (dtype d2)).
  rewrite Hz. simpl.
  assert (nrows img = S m) as Hn by congruence.
  split; [| repeat split; try congruence].
  - apply Forall_lookup. simpl. intros r row Hr.
    destruct (decide (r = m)) as [-> | Hne].
    + rewrite list_lookup_insert_eq in Hr by (unfold nrows in Hm; lia).
      simplify_eq. split; [by rewrite length_replicate |].
      apply Forall_replicate. by destruct (dtype d2).
    + rewrite list_lookup_insert_ne in Hr by done.
      exact (Forall_lookup_1 _ _ _ _ Hwf2 Hr).
  - unfold nrows in *. simpl. rewrite length_insert. congruence.
  - intros r Hr. rewrite Hn.
    destruct (Nat.ltb_spec (S r) (S m)) as [Hlt | Hge].
    + rewrite list_lookup_insert_ne by lia.
      replace r with (0 + r * 1)%nat at 1 by lia.
      rewrite Hin2, Hget2 by lia.
      destruct (Nat.even r) eqn:Hev.
      * apply even_half in Hev as [k ->].
        replace (1 + (0 + k * 2) * 1)%nat with (1 + k * 2)%nat by lia.
        assert (k < nrows img / 2)%nat as Hk by (apply half_bound_inv; lia).
        rewrite Hin1, Hget1 by done. done.
      * rewrite Hnotin1.
        { f_equal. lia. }
        intros (k & Hk & Heq)%elem_of_arange.
        assert (r = (0 + k * 2)%nat) as -> by lia.
        by rewrite even_double in Hev.
    + assert (r = m) as -> by lia.
      rewrite list_lookup_insert_eq by (unfold nrows in Hm; lia).
      by rewrite Hnc2, Hnc1.
Qed.

(** ** [blendLighten] *)

Lemma lighten_px x y :
  in_range uint8 x -> in_range uint8 y ->
  wrap int16 (wrap int16 x - wrap int16 y) = x - y
  /\ wrap uint8
       (wrap int16
          (wrap int16 x
           - wrap int16 (if 0 <? wrap int16 (wrap int16 x - wrap int16 y)
                         then wrap int16 0
                         else wrap int16 (wrap int16 x - wrap int16 y))))
     = Z.max x y.
Proof.
  unfold in_range, iinfo_min, iinfo_max. simpl. intros Hx Hy.
  assert (forall v, -32768 <= v <= 32767 -> wrap int16 v = v) as H16.
  { intros v Hv. apply wrap_in_range. unfold in_range, iinfo_min, iinfo_max.
    simpl. lia. }
  assert (forall v, 0 <= v <= 255 -> wrap uint8 v = v) as H8.
  { intros v Hv. apply wrap_in_range. unfold in_range, iinfo_min, iinfo_max.
    simpl. lia. }
  rewrite (H16 x), (H16 y), (H16 (x - y)), (H16 0) by lia.
  split; [done |].
  destruct (Z.ltb_spec 0 (x - y)).
  - rewrite (H16 0), (H16 (x - 0)), H8 by lia. lia.
  - rewrite (H16 (x - y)), (H16 (x - (x - y))), H8 by lia. lia.
Qed.

Lemma length_zip_rows {A B C} (f : A -> B -> C) n (l : list (list A)) (k : list (list B)) :
  Forall (fun r => length r = n) l -> Forall (fun r => length r = n) k ->
  Forall (fun r => length r = n) (zip_with (zip_with f) l k).
Proof.
  intros Hl Hk. apply Forall_lookup. intros i r Hr.
  apply lookup_zip_with_Some in Hr as (x & y & -> & Hx & Hy).
  rewrite length_zip_with.
  rewrite (Forall_lookup_1 _ _ _ _ Hl Hx), (Forall_lookup_1 _ _ _ _ Hk Hy). lia.
Qed.

Lemma np_binop_same_shape f a b :
  Forall (fun r => length r = ncols a) (rows a) ->
  Forall (fun r => length r = ncols a) (rows b) ->
  shape a = shape b ->
  np_binop f a b =
    Ok (mkArr (promote (dtype a) (dtype b)) (ncols a)
          (zip_with (zip_with (fun x y =>
             wrap (promote (dtype a) (dtype b))
                  (f (wrap (promote (dtype a) (dtype b)) x)
                     (wrap (promote (dtype a) (dtype b)) y))))
             (rows a) (rows b))).
Proof.
  intros Ha Hb Hs. unfold np_binop. rewrite <- Hs, broadcast_shapes_same.
  unfold shape, nrows in *. simpl. injection Hs as Hr Hc.
  rewrite (broadcast_to_same (ncols a) (rows a) a) by done.
  rewrite Hr.
  rewrite (broadcast_to_same (ncols a) (rows b) b) by done.
  done.
Qed.

Lemma row_ok_uint8_int16 n (l : list (list Z)) :
  Forall (row_ok uint8 n) l -> Forall (row_ok int16 n) l.
Proof.
  intros H. eapply Forall_impl; [exact H |].
  intros r [Hlen Hr]. split; [done |].
  eapply Forall_impl; [exact Hr |].
  unfold in_range, iinfo_min, iinfo_max. simpl. lia.
Qed.

Lemma px_row_ok dt n (l : list (list Z)) r c x :
  Forall (row_ok dt n) l -> l !! r ≫= (.!! c) = Some x -> in_range dt x.
Proof.
  intros Hl Hx. destruct (l !! r) as [row|] eqn:Hrow; [| done]. simpl in Hx.
  destruct (Forall_lookup_1 _ _ _ _ Hl Hrow) as [_ Hr].
  exact (Forall_lookup_1 _ _ _ _ Hr Hx).
Qed.

Lemma blendLighten_uint8 a b :
  wf a -> wf b -> dtype a = uint8 -> dtype b = uint8 -> shape a = shape b ->
  exists temp out,
    np_binop Z.sub (astype int16 a) b = Ok temp
    /\ dtype temp = int16
    /\ (forall r c, px temp r c = x ← px a r c; y ← px b r c; Some (x - y))
    /\ blendLighten a b = Ok out
    /\ dtype out = uint8 /\ shape out = shape a
    /\ (forall r c, px out r c = x ← px a r c; y ← px b r c; Some (Z.max x y)).
Proof.
  destruct a as [dta n ra], b as [dtb nb rb]. unfold wf, shape, nrows. simpl.
  intros Ha Hb -> -> [= Hlen <-].
  assert (astype int16 (mkArr uint8 n ra) = mkArr int16 n ra) as Hcast.
  { unfold astype. simpl. f_equal.
    apply (wrap_rows_id int16 n), row_ok_uint8_int16, Ha. }
  pose proof (row_ok_length _ _ _ Ha) as Hla.
  pose proof (row_ok_length _ _ _ Hb) as Hlb.
  unfold blendLighten. rewrite Hcast.
  rewrite (np_binop_same_shape Z.sub (mkArr int16 n ra) (mkArr uint8 n rb))
    by (try done; unfold shape, nrows; simpl; congruence).
  simpl. unfold clear_positive. simpl.
  rewrite np_binop_same_shape; simpl.
  2: done.
  2: { apply Forall_fmap, Forall_lookup. intros i r Hr. simpl.
       rewrite length_map.
       exact (Forall_lookup_1 _ _ _ _ (length_zip_rows _ n ra rb Hla Hlb) Hr). }
  2: { unfold shape, nrows. simpl. rewrite length_map, length_zip_with.
       f_equal. lia. }
  do 2 eexists. split; [done |]. split; [done |]. split; [| split; [done |]].
  - intros r c. unfold px. simpl. rewrite lookup_zip_with.
    destruct (ra !! r) as [xa|] eqn:Hxa; simpl; [| done].
    destruct (rb !! r) as [xb|] eqn:Hxb; simpl;
      [| by destruct (xa !! c)].
    rewrite lookup_zip_with.
    destruct (xa !! c) as [x|] eqn:Hx; simpl; [| done].
    destruct (xb !! c) as [y|] eqn:Hy; simpl; [| done].
    f_equal. apply lighten_px.
    + apply (px_row_ok uint8 n ra r c). { done. } by rewrite Hxa.
    + apply (px_row_ok uint8 n rb r c). { done. } by rewrite Hxb.
  - simpl. split; [done |]. split.
    { rewrite length_map, length_zip_with, length_map, length_zip_with.
      f_equal. lia. }
    intros r c. unfold px. simpl.
    rewrite list_lookup_fmap, lookup_zip_with, list_lookup_fmap, lookup_zip_with.
    destruct (ra !! r) as [xa|] eqn:Hxa; simpl; [| done].
    destruct (rb !! r) as [xb|] eqn:Hxb; simpl;
      [| by destruct (xa !! c)].
    rewrite list_lookup_fmap, lookup_zip_with, list_lookup_fmap, lookup_zip_with.
    destruct (xa !! c) as [x|] eqn:Hx; simpl; [| done].
    destruct (xb !! c) as [y|] eqn:Hy; simpl; [| done].
    f_equal. apply lighten_px.
    + apply (px_row_ok uint8 n ra r c). { done. } by rewrite Hxa.
    + apply (px_row_ok uint8 n rb r c). { done. } by rewrite Hxb.
Qed.

(** ** Properties of the deinterlacer *)

(** C3. [deinterlaceEven] on a well-formed image returns a new image of the
    same type and shape in which every even row that has a following row
    holds the input's following (odd) row and every other row (the odd rows,
    and the last row when it is even) is the input's row; no row is
    shifted. *)
Theorem deinterlaceEven_spec img :
  wf img ->
  exists out,
    deinterlaceEven img = Ok out
    /\ dtype out = dtype img /\ shape out = shape img
    /\ (forall r, Nat.even r = true -> (S r < nrows img)%nat ->
          rows out !! r = rows img !! S r)
    /\ (forall r, Nat.even r = false -> rows out !! r = rows img !! r)
    /\ (forall r, S r = nrows img -> rows out !! r = rows img !! r).
Proof.
  intros Hwf.
  destruct (deinterlaceEven_rows img Hwf)
    as (out & Hout & _ & Hdt & Hnc & Hnr & Hrows).
  exists out. split; [done |]. split; [done |].
  split; [unfold shape; congruence |].
  assert (forall r, (nrows img <= r)%nat -> rows out !! r = rows img !! r) as Hge.
  { intros r Hr. rewrite !lookup_ge_None_2; [done | |]; unfold nrows in *; lia. }
  repeat split.
  - intros r Hev Hlt. rewrite Hrows by lia. rewrite Hev. simpl.
    by destruct (Nat.ltb_spec (S r) (nrows img)); [| lia].
  - intros r Hev. destruct (decide (r < nrows img)%nat); [| apply Hge; lia].
    rewrite Hrows by done. by rewrite Hev.
  - intros r Hlast. rewrite Hrows by lia.
    destruct (Nat.ltb_spec (S r) (nrows img)); [lia |].
    by rewrite andb_false_r.
Qed.

Lemma img4_wf : wf img4.
Proof.
  unfold wf, img4, in_range, iinfo_min, iinfo_max. simpl.
  repeat constructor; lia.
Qed.

Lemma img3_wf : wf img3.
Proof.
  unfold wf, img3, in_range, iinfo_min, iinfo_max. simpl.
  repeat constructor; lia.
Qed.

Lemma deinterlaceEven_spec_witness :
  wf img3
  /\ exists out,
       deinterlaceEven img3 = Ok out
       /\ dtype out = dtype img3 /\ shape out = shape img3
       /\ (forall r, Nat.even r = true -> (S r < nrows img3)%nat ->
             rows out !! r = rows img3 !! S r)
       /\ (forall r, Nat.even r = false -> rows out !! r = rows img3 !! r)
       /\ (forall r, S r = nrows img3 -> rows out !! r = rows img3 !! r).
Proof. split; [exact img3_wf | exact (deinterlaceEven_spec img3 img3_wf)]. Defined.

(** C2, as it holds.  On a well-formed image with at least one row,
    [deinterlaceOdd] returns the image of the two-step description (odd rows
    take the preceding even row, then the frame moves up one row and the
    last row is zero): output row [r] is input row [r] for even [r < n-1],
    input row [r+1] for odd [r < n-1], and zeros for [r = n-1]. *)
Theorem deinterlaceOdd_nonempty img :
  wf img -> (0 < nrows img)%nat ->
  deinterlaceOdd img = Ok (deinterlaceOdd_spec img)
  /\ (forall r, (S r < nrows img)%nat ->
        rows (deinterlaceOdd_spec img) !! r =
          if Nat.even r then rows img !! r else rows img !! S r)
  /\ (forall r, S r = nrows img ->
        rows (deinterlaceOdd_spec img) !! r = Some (replicate (ncols img) 0)).
Proof.
  intros Hwf Hpos.
  destruct (deinterlaceOdd_rows img Hwf Hpos)
    as (out & Hout & _ & Hdt & Hnc & Hnr & Hrows).
  assert (out = deinterlaceOdd_spec img) as ->.
  { destruct out as [dt nc rs]. unfold deinterlaceOdd_spec. simpl in *.
    subst dt nc. f_equal. unfold nrows in *. simpl in *.
    apply list_eq. intros r. unfold shift_up, dup_preceding_even.
    rewrite list_lookup_imap, length_imap, list_lookup_imap.
    destruct (decide (r < length (rows img))%nat) as [Hr | Hr].
    - rewrite Hrows by done.
      destruct (lookup_lt_is_Some_2 (rows img) r Hr) as [row Hrow].
      rewrite Hrow. simpl.
      destruct (Nat.ltb_spec (S r) (length (rows img))) as [Hlt | Hge]; [| done].
      destruct (lookup_lt_is_Some_2 (rows img) (S r) Hlt) as [row' Hrow'].
      erewrite list_lookup_total_correct
        by (rewrite list_lookup_imap, Hrow'; done).
      rewrite Nat.odd_succ. replace (S r - 1)%nat with r by lia.
      rewrite (list_lookup_total_correct _ _ _ Hrow), Hrow'.
      by destruct (Nat.even r).
    - rewrite !lookup_ge_None_2 by lia. done. }
  split; [done |]. split.
  - intros r Hr. rewrite Hrows by lia.
    by destruct (Nat.ltb_spec (S r) (nrows img)); [| lia].
  - intros r Hr. rewrite Hrows by lia.
    by destruct (Nat.ltb_spec (S r) (nrows img)); [lia |].
Qed.

Lemma deinterlaceOdd_nonempty_witness :
  wf img3 /\ (0 < nrows img3)%nat
  /\ deinterlaceOdd img3 = Ok (deinterlaceOdd_spec img3)
  /\ (forall r, (S r < nrows img3)%nat ->
        rows (deinterlaceOdd_spec img3) !! r =
          if Nat.even r then rows img3 !! r else rows img3 !! S r)
  /\ (forall r, S r = nrows img3 ->
        rows (deinterlaceOdd_spec img3) !! r = Some (replicate (ncols img3) 0)).
Proof.
  split; [exact img3_wf |]. split; [unfold nrows; simpl; lia |].
  apply (deinterlaceOdd_nonempty img3); [exact img3_wf | unfold nrows; simpl; lia].
Defined.

Lemma deinterlaceOdd_empty img :
  nrows img = 0%nat -> deinterlaceOdd img = Raise IndexError.
Proof.
  destruct img as [dt nc [|row rs]]; [intros _ | done].
  unfold deinterlaceOdd, np_copy, setitem, getitem, shape, nrows. simpl.
  rewrite decide_True by apply broadcast_shapes_same. simpl.
  unfold setitem, getitem, shape, nrows. simpl.
  rewrite decide_True by apply broadcast_shapes_same. done.
Qed.

(** C2, as stated, fails on an image without rows: the zero fill of the last
    row raises [IndexError] instead of returning an image. *)
Lemma deinterlaceOdd_no_rows :
  deinterlaceOdd (mkArr uint8 2 []) = Raise IndexError.
Proof. reflexivity. Qed.

Lemma px_defined a r c :
  wf a -> (r < nrows a)%nat -> (c < ncols a)%nat -> exists v, px a r c = Some v.
Proof.
  intros Hl Hr Hc. unfold px.
  destruct (lookup_lt_is_Some_2 (rows a) r Hr) as [row Hrow]. rewrite Hrow. simpl.
  destruct (Forall_lookup_1 _ _ _ _ Hl Hrow) as [Hlen _].
  apply lookup_lt_is_Some_2. lia.
Qed.

(** C1. On a well-formed 8-bit unsigned image, at every position of the
    frame, the sample of [deinterlaceBlend] is the maximum of the samples of
    [deinterlaceOdd] and [deinterlaceEven] there; the blend is defined
    whenever the image has a row. *)
Theorem deinterlaceBlend_max img :
  wf img -> dtype img = uint8 ->
  ((0 < nrows img)%nat -> exists out, deinterlaceBlend img = Ok out)
  /\ forall out, deinterlaceBlend img = Ok out ->
       exists odd even,
         deinterlaceOdd img = Ok odd /\ deinterlaceEven img = Ok even
         /\ dtype out = uint8 /\ shape out = shape img
         /\ forall r c, (r < nrows img)%nat -> (c < ncols img)%nat ->
              exists a b,
                px odd r c = Some a /\ px even r c = Some b
                /\ px out r c = Some (Z.max a b).
Proof.
  intros Hwf Hdt.
  destruct (decide (0 < nrows img)%nat) as [Hpos | Hzero].
  2: { split; [done |]. intros out Hout. unfold deinterlaceBlend in Hout.
       rewrite deinterlaceOdd_empty in Hout by lia. done. }
  destruct (deinterlaceOdd_rows img Hwf Hpos)
    as (odd & Hodd & Hwfo & Hdto & Hnco & Hnro & _).
  destruct (deinterlaceEven_rows img Hwf)
    as (even & Heven & Hwfe & Hdte & Hnce & Hnre & _).
  destruct (blendLighten_uint8 odd even)
    as (temp & out & _ & _ & _ & Hout & Hdtout & Hshape & Hpx);
    try congruence.
  { unfold shape. congruence. }
  assert (deinterlaceBlend img = Ok out) as Hblend.
  { unfold deinterlaceBlend. rewrite Hodd. simpl. rewrite Heven. done. }
  split; [by exists out |].
  intros out' Hout'. rewrite Hblend in Hout'. injection Hout' as <-.
  exists odd, even. repeat split; try done.
  { rewrite Hshape. unfold shape. congruence. }
  intros r c Hr Hc.
  destruct (px_defined odd r c) as [a Ha]; [done | lia | lia |].
  destruct (px_defined even r c) as [b Hb]; [done | lia | lia |].
  exists a, b. rewrite Hpx, Ha, Hb. done.
Qed.

Lemma deinterlaceBlend_max_witness :
  wf img4 /\ dtype img4 = uint8
  /\ ((0 < nrows img4)%nat -> exists out, deinterlaceBlend img4 = Ok out)
  /\ forall out, deinterlaceBlend img4 = Ok out ->
       exists odd even,
         deinterlaceOdd img4 = Ok odd /\ deinterlaceEven img4 = Ok even
         /\ dtype out = uint8 /\ shape out = shape img4
         /\ forall r c, (r < nrows img4)%nat -> (c < ncols img4)%nat ->
              exists a b,
                px odd r c = Some a /\ px even r c = Some b
                /\ px out r c = Some (Z.max a b).
Proof.
  split; [exact img4_wf |]. split; [reflexivity |].
  exact (deinterlaceBlend_max img4 img4_wf eq_refl).
Defined.

(** ** Properties of the lighten blend *)

(** C8, as it holds.  For two well-formed 8-bit unsigned arrays of one
    shape, the 16-bit signed difference is the exact difference at every
    position (no wrap-around), and the result is an 8-bit unsigned array of
    that shape holding the greater sample at every position. *)
Theorem blendLighten_uint8_exact a b :
  wf a -> wf b -> dtype a = uint8 -> dtype b = uint8 -> shape a = shape b ->
  exists temp out,
    np_binop Z.sub (astype int16 a) b = Ok temp
    /\ dtype temp = int16
    /\ (forall r c, px temp r c = x ← px a r c; y ← px b r c; Some (x - y))
    /\ blendLighten a b = Ok out
    /\ dtype out = dtype a /\ shape out = shape a
    /\ (forall r c, px out r c = x ← px a r c; y ← px b r c; Some (Z.max x y)).
Proof.
  intros Ha Hb Hda Hdb Hs.
  destruct (blendLighten_uint8 a b Ha Hb Hda Hdb Hs)
    as (temp & out & H1 & H2 & H3 & H4 & H5 & H6 & H7).
  exists temp, out. repeat split; try done. congruence.
Qed.

Lemma blendLighten_uint8_exact_witness :
  wf arr_a /\ wf arr_b /\ dtype arr_a = uint8 /\ dtype arr_b = uint8
  /\ shape arr_a = shape arr_b
  /\ exists temp out,
       np_binop Z.sub (astype int16 arr_a) arr_b = Ok temp
       /\ dtype temp = int16
       /\ (forall r c,
             px temp r c = x ← px arr_a r c; y ← px arr_b r c; Some (x - y))
       /\ blendLighten arr_a arr_b = Ok out
       /\ dtype out = dtype arr_a /\ shape out = shape arr_a
       /\ (forall r c,
             px out r c = x ← px arr_a r c; y ← px arr_b r c; Some (Z.max x y)).
Proof.
  assert (wf arr_a) as Ha.
  { unfold wf, in_range, iinfo_min, iinfo_max. simpl. repeat constructor; lia. }
  assert (wf arr_b) as Hb.
  { unfold wf, in_range, iinfo_min, iinfo_max. simpl. repeat constructor; lia. }
  repeat (split; [done |]).
  exact (blendLighten_uint8_exact arr_a arr_b Ha Hb eq_refl eq_refl eq_refl).
Defined.

(** C8, as stated, fails on 16-bit unsigned arrays: the result is stored as
    [uint8], not in the inputs' type, and 300 against 2 gives 44. *)
Lemma blendLighten_uint16_truncates :
  blendLighten (mkArr uint16 1 [[300]]) (mkArr uint16 1 [[2]])
  = Ok (mkArr uint8 1 [[44]]).
Proof. reflexivity. Qed.


Local Open Scope Q_scope.

(** ** Rounding to binary64 *)

Lemma pow2_pos e : 0 < pow2 e.
Proof. apply Qpower_0_lt. reflexivity. Qed.

Lemma pow2_nz e : ~ pow2 e == 0.
Proof. pose proof (pow2_pos e). lra. Qed.

Lemma pow2_add a b : pow2 (a + b) == pow2 a * pow2 b.
Proof. apply Qpower_plus. discriminate. Qed.

Lemma pow2_sub a b : pow2 (a - b) == pow2 a / pow2 b.
Proof. apply Qpower_minus. discriminate. Qed.

Lemma pow2_le a b : (a <= b)%Z -> pow2 a <= pow2 b.
Proof. intros H. apply Qpower_le_compat_l; [done | discriminate]. Qed.

Lemma pow2_lt a b : (a < b)%Z -> pow2 a < pow2 b.
Proof. intros H. apply Qpower_lt_compat_l; [done | reflexivity]. Qed.

Lemma pow2_Z n : (0 <= n)%Z -> pow2 n == inject_Z (2 ^ n).
Proof. intros H. unfold pow2. by rewrite Zpower_Qpower. Qed.

Lemma pow2_succ a : pow2 (a + 1) == 2 * pow2 a.
Proof. rewrite pow2_add. unfold pow2 at 2. simpl. ring. Qed.

(** *** The nearest integer *)
Lemma rne_int z : rne (inject_Z z) = z.
Proof.
  unfold rne. rewrite Qfloor_Z.
  assert (inject_Z z - inject_Z z == 0) as H by ring.
  destruct (Qcompare_spec (inject_Z z - inject_Z z) (1#2)) as [H1|H1|H1]; try lra.
  done.
Qed.

Lemma rne_range m : (Qfloor m <= rne m <= Qfloor m + 1)%Z.
Proof.
  unfold rne. destruct (Qcompare _ _); [destruct (Z.even _) | |]; lia.
Qed.

Lemma rne_mono m1 m2 : m1 <= m2 -> (rne m1 <= rne m2)%Z.
Proof.
  intros H. pose proof (Qfloor_resp_le _ _ H) as Hk.
  destruct (Z.eq_dec (Qfloor m1) (Qfloor m2)) as [Heq | Hne].
  - unfold rne. rewrite Heq.
    destruct (Qcompare_spec (m1 - inject_Z (Qfloor m2)) (1#2)) as [H1|H1|H1];
    destruct (Qcompare_spec (m2 - inject_Z (Qfloor m2)) (1#2)) as [H2|H2|H2];
    try destruct (Z.even _); try lia; lra.
  - pose proof (rne_range m1). pose proof (rne_range m2). lia.
Qed.

Lemma rne_ge z m : inject_Z z <= m -> (z <= rne m)%Z.
Proof. intros H. rewrite <- (rne_int z). by apply rne_mono. Qed.

Lemma rne_le z m : m <= inject_Z z -> (rne m <= z)%Z.
Proof. intros H. rewrite <- (rne_int z). by apply rne_mono. Qed.

Lemma Qlog2_spec q : 0 < q -> pow2 (Qlog2 q) <= q /\ q < pow2 (Qlog2 q + 1).
Proof.
  intros Hq. destruct q as [n d]. unfold Qlog2. cbn [Qnum Qden].
  assert (0 < n)%Z as Hn by (unfold Qlt in Hq; simpl in Hq; lia).
  set (a := Z.log2 n). set (b := Z.log2 (Z.pos d)).
  assert (0 <= a)%Z as Ha0 by apply Z.log2_nonneg.
  assert (0 <= b)%Z as Hb0 by apply Z.log2_nonneg.
  destruct (Z.log2_spec n Hn) as [Ha1' Ha2']. fold a in Ha1', Ha2'.
  destruct (Z.log2_spec (Z.pos d) ltac:(lia)) as [Hb1' Hb2']. fold b in Hb1', Hb2'.
  rewrite <- Z.add_1_r in Ha2', Hb2'.
  assert (pow2 a <= inject_Z n) as Ha1.
  { rewrite pow2_Z by lia. by rewrite <- Zle_Qle. }
  assert (pow2 b <= inject_Z (Z.pos d)) as Hb1.
  { rewrite pow2_Z by lia. by rewrite <- Zle_Qle. }
  assert (inject_Z n < pow2 (a + 1)) as Ha2.
  { rewrite pow2_Z by lia. by rewrite <- Zlt_Qlt. }
  assert (inject_Z (Z.pos d) < pow2 (b + 1)) as Hb2.
  { rewrite pow2_Z by lia. rewrite Zlt_Qlt in Hb2'. exact Hb2'. }
  assert (n # d == inject_Z n / inject_Z (Z.pos d)) as Hnd by apply Qmake_Qdiv.
  pose proof (pow2_pos a). pose proof (pow2_pos b).
  pose proof (pow2_pos (a + 1)). pose proof (pow2_pos (b + 1)).
  assert (0 < inject_Z (Z.pos d)) as Hd by (unfold Qlt; simpl; lia).
  assert (n # d < pow2 (a - b + 1)) as Hup.
  { replace (a - b + 1)%Z with ((a + 1) - b)%Z by lia.
    rewrite pow2_sub, Hnd.
    apply Qlt_shift_div_l; [done |].
    unfold Qdiv. rewrite <- Qmult_assoc, (Qmult_comm (/ _)), Qmult_assoc.
    apply Qlt_shift_div_r; [done |]. nra. }
  assert (pow2 (a - b - 1) <= n # d) as Hlow.
  { replace (a - b - 1)%Z with (a - (b + 1))%Z by lia.
    rewrite pow2_sub, Hnd.
    apply Qle_shift_div_r; [done |].
    unfold Qdiv. rewrite <- Qmult_assoc, (Qmult_comm (/ _)), Qmult_assoc.
    apply Qle_shift_div_l; [done |]. nra. }
  change (Z.log2 n - Z.log2 (Z.pos d))%Z with (a - b)%Z.
  destruct (Qle_bool (pow2 (a - b)) (n # d)) eqn:Hle.
  - apply Qle_bool_iff in Hle. split; [exact Hle | exact Hup].
  - assert (n # d < pow2 (a - b)) as Hlt.
    { apply Qnot_le_lt. intros H'. apply Qle_bool_iff in H'. congruence. }
    split; [exact Hlow |]. by replace (a - b - 1 + 1)%Z with (a - b)%Z by lia.
Qed.

Lemma Qlog2_unique q e : pow2 e <= q -> q < pow2 (e + 1) -> Qlog2 q = e.
Proof.
  intros H1 H2.
  assert (0 < q) as Hq by (pose proof (pow2_pos e); lra).
  destruct (Qlog2_spec q Hq) as [H3 H4].
  assert (Qlog2 q < e + 1)%Z.
  { apply (Qpower_lt_compat_l_inv 2); [| reflexivity]. fold (pow2 (Qlog2 q)) (pow2 (e + 1)). lra. }
  assert (e < Qlog2 q + 1)%Z.
  { apply (Qpower_lt_compat_l_inv 2); [| reflexivity]. fold (pow2 e) (pow2 (Qlog2 q + 1)). lra. }
  lia.
Qed.

Lemma Qlog2_mono p q : 0 < p -> p <= q -> (Qlog2 p <= Qlog2 q)%Z.
Proof.
  intros Hp Hpq.
  destruct (Qlog2_spec p Hp) as [H1 H2].
  destruct (Qlog2_spec q ltac:(lra)) as [H3 H4].
  assert (Qlog2 p < Qlog2 q + 1)%Z; [| lia].
  apply (Qpower_lt_compat_l_inv 2); [| reflexivity].
  fold (pow2 (Qlog2 p)) (pow2 (Qlog2 q + 1)). lra.
Qed.


Lemma inject_Z_le a b : (a <= b)%Z -> inject_Z a <= inject_Z b.
Proof. by rewrite <- Zle_Qle. Qed.

Lemma scaled_le p q t : p <= q -> p / pow2 t <= q / pow2 t.
Proof.
  intros H. pose proof (pow2_pos t).
  unfold Qdiv. apply Qmult_le_compat_r; [done |].
  apply Qinv_le_0_compat. lra.
Qed.

Lemma div_pow2 a b : pow2 a / pow2 b == pow2 (a - b).
Proof. by rewrite pow2_sub. Qed.

Lemma round_mag_nonneg q : 0 < q -> 0 <= round_mag q.
Proof.
  intros Hq. unfold round_mag. pose proof (pow2_pos (ulp_exp q)).
  assert (0 <= rne (q / pow2 (ulp_exp q)))%Z as Hr.
  { apply (rne_ge 0). change (inject_Z 0) with 0.
    apply Qle_shift_div_l; [done |]. lra. }
  apply inject_Z_le in Hr. change (inject_Z 0) with 0 in Hr. nra.
Qed.

Lemma round_mag_exact q m k :
  q == inject_Z m * pow2 k -> (0 < m < 2 ^ 53)%Z -> (-1074 <= k)%Z ->
  round_mag q == q.
Proof.
  intros Hq Hm Hk. pose proof (pow2_pos k) as Hpk.
  assert (0 < inject_Z m) as Hm0 by (unfold Qlt; simpl; lia).
  assert (0 < q) as Hq0 by (rewrite Hq; nra).
  destruct (Qlog2_spec q Hq0) as [H1 H2].
  assert (inject_Z m < pow2 53) as Hm53.
  { rewrite pow2_Z by lia. rewrite <- Zlt_Qlt. lia. }
  assert (Qlog2 q < 53 + k)%Z as He.
  { apply (Qpower_lt_compat_l_inv 2); [| reflexivity].
    fold (pow2 (Qlog2 q)) (pow2 (53 + k)). rewrite pow2_add. nra. }
  unfold round_mag.
  set (t := ulp_exp q).
  assert (t <= k)%Z as Ht by (unfold t, ulp_exp; lia).
  assert (q / pow2 t == inject_Z (m * 2 ^ (k - t))) as Hint.
  { rewrite inject_Z_mult, <- pow2_Z by lia. rewrite Hq, pow2_sub.
    field. apply pow2_nz. }
  assert (rne (q / pow2 t) = (m * 2 ^ (k - t))%Z) as ->.
  { rewrite <- (rne_int (m * 2 ^ (k - t))).
    apply Z.le_antisymm; apply rne_mono; rewrite Hint; lra. }
  rewrite inject_Z_mult, <- pow2_Z by lia. rewrite Hq, pow2_sub.
  field. apply pow2_nz.
Qed.

Lemma round_mag_mono p q : 0 < p -> p <= q -> round_mag p <= round_mag q.
Proof.
  intros Hp Hpq.
  assert (0 < q) as Hq by lra.
  pose proof (Qlog2_mono p q Hp Hpq) as He.
  destruct (Qlog2_spec p Hp) as [Hp1 Hp2].
  destruct (Qlog2_spec q Hq) as [Hq1 Hq2].
  unfold round_mag.
  set (tp := ulp_exp p). set (tq := ulp_exp q).
  assert (tp <= tq)%Z as Ht by (unfold tp, tq, ulp_exp; lia).
  pose proof (pow2_pos tp) as Hptp. pose proof (pow2_pos tq) as Hptq.
  destruct (Z.eq_dec tp tq) as [Heq | Hne].
  - rewrite Heq.
    assert (rne (p / pow2 tq) <= rne (q / pow2 tq))%Z as Hr
      by (apply rne_mono, scaled_le; done).
    apply inject_Z_le in Hr. nra.
  - assert (tq = Qlog2 q - 52)%Z as Htq by (unfold tp, tq, ulp_exp in *; lia).
    assert (Qlog2 p < Qlog2 q)%Z as Hlt by (unfold tp, tq, ulp_exp in *; lia).
    set (u := Z.max (Qlog2 p + 1 - tp) 0).
    assert (inject_Z (rne (p / pow2 tp)) * pow2 tp <= pow2 (u + tp)) as Hup.
    { assert (rne (p / pow2 tp) <= 2 ^ u)%Z as Hr.
      { apply rne_le. rewrite <- pow2_Z by (unfold u; lia).
        apply Qle_shift_div_r; [done |]. rewrite <- pow2_add.
        assert (pow2 (Qlog2 p + 1) <= pow2 (u + tp))
          by (apply pow2_le; unfold u; lia).
        lra. }
      apply inject_Z_le in Hr. rewrite <- pow2_Z in Hr by (unfold u; lia).
      rewrite pow2_add. nra. }
    assert (pow2 (Qlog2 q) <= inject_Z (rne (q / pow2 tq)) * pow2 tq) as Hlow.
    { assert (2 ^ 52 <= rne (q / pow2 tq))%Z as Hr.
      { apply rne_ge. rewrite <- pow2_Z by lia.
        apply Qle_shift_div_l; [done |]. rewrite <- pow2_add.
        replace (52 + tq)%Z with (Qlog2 q) by lia. done. }
      apply inject_Z_le in Hr. rewrite <- pow2_Z in Hr by lia.
      replace (Qlog2 q) with (52 + tq)%Z at 1 by lia.
      rewrite pow2_add. nra. }
    assert (pow2 (u + tp) <= pow2 (Qlog2 q))
      by (apply pow2_le; unfold u; lia).
    lra.
Qed.

Lemma round64_pos q : 0 < q -> round64 q = round_mag q.
Proof. intros H. unfold round64. destruct (Qcompare_spec q 0); [lra | lra | done]. Qed.

Lemma round64_neg q : q < 0 -> round64 q = - round_mag (- q).
Proof. intros H. unfold round64. destruct (Qcompare_spec q 0); [lra | done | lra]. Qed.

Lemma round64_zero q : q == 0 -> round64 q = 0.
Proof. intros H. unfold round64. destruct (Qcompare_spec q 0); [done | lra | lra]. Qed.

Lemma round64_exact q : representable q -> round64 q == q.
Proof.
  intros (m & k & Hq & Hm & Hk). pose proof (pow2_pos k) as Hpk.
  destruct (Z.lt_trichotomy m 0) as [Hneg | [Hz | Hpos]].
  - assert (inject_Z m < 0) as Hm0 by (unfold Qlt; simpl; lia).
    assert (q < 0) as Hq0 by (rewrite Hq; nra).
    rewrite round64_neg by done.
    rewrite (round_mag_exact (- q) (- m) k); [ring | | lia | done].
    rewrite Hq, inject_Z_opp. ring.
  - subst m. rewrite round64_zero; [| rewrite Hq; ring]. rewrite Hq. ring.
  - assert (0 < inject_Z m) as Hm0 by (unfold Qlt; simpl; lia).
    assert (0 < q) as Hq0 by (rewrite Hq; nra).
    rewrite round64_pos by done.
    apply (round_mag_exact q m k); [done | lia | done].
Qed.

Lemma rne_scaled_bound q :
  0 < q -> (0 <= rne (q / pow2 (ulp_exp q)) <= 2 ^ 53)%Z.
Proof.
  intros Hq. pose proof (pow2_pos (ulp_exp q)) as Hp.
  destruct (Qlog2_spec q Hq) as [H1 H2]. split.
  - apply (rne_ge 0). change (inject_Z 0) with 0.
    apply Qle_shift_div_l; [done |]. lra.
  - apply rne_le. rewrite <- pow2_Z by lia.
    apply Qle_shift_div_r; [done |]. rewrite <- pow2_add.
    assert (pow2 (Qlog2 q + 1) <= pow2 (53 + ulp_exp q))
      by (apply pow2_le; unfold ulp_exp; lia).
    lra.
Qed.

Lemma round_mag_representable q : 0 < q -> representable (round_mag q).
Proof.
  intros Hq. unfold round_mag.
  destruct (rne_scaled_bound q Hq) as [H0 H53].
  set (r := rne (q / pow2 (ulp_exp q))) in *.
  assert (-1074 <= ulp_exp q)%Z as Ht by (unfold ulp_exp; lia).
  destruct (Z.eq_dec r (2 ^ 53)%Z) as [Heq | Hne].
  - exists (2 ^ 52)%Z, (ulp_exp q + 1)%Z. split; [| split; [| lia]].
    + rewrite Heq, pow2_succ.
      change (inject_Z (2 ^ 53)) with (2 * inject_Z (2 ^ 52)). ring.
    + rewrite Z.abs_eq by lia. apply Z.pow_lt_mono_r; lia.
  - exists r, (ulp_exp q). split; [done |]. split; [| done].
    rewrite Z.abs_eq by lia. lia.
Qed.

Lemma representable_opp q : representable q -> representable (- q).
Proof.
  intros (m & k & Hq & Hm & Hk). exists (- m)%Z, k. split; [| split; [| done]].
  - rewrite Hq, inject_Z_opp. ring.
  - by rewrite Z.abs_opp.
Qed.

Lemma representable_0 : representable 0.
Proof. exists 0%Z, 0%Z. split; [reflexivity |]. split; [reflexivity | lia]. Qed.

Lemma round64_representable q : representable (round64 q).
Proof.
  destruct (Qlt_le_dec 0 q) as [Hpos | Hle].
  - rewrite round64_pos by done. by apply round_mag_representable.
  - destruct (Qlt_le_dec q 0) as [Hneg | Hge].
    + rewrite round64_neg by done.
      apply representable_opp, round_mag_representable. lra.
    + rewrite round64_zero by lra. apply representable_0.
Qed.

Lemma round64_idem q : round64 (round64 q) == round64 q.
Proof. apply round64_exact, round64_representable. Qed.

Lemma round64_mono p q : p <= q -> round64 p <= round64 q.
Proof.
  intros Hpq.
  destruct (Qlt_le_dec 0 p) as [Hp | Hp].
  - rewrite !round64_pos by lra. by apply round_mag_mono.
  - destruct (Qlt_le_dec 0 q) as [Hq | Hq].
    + rewrite (round64_pos q) by done.
      pose proof (round_mag_nonneg q Hq).
      destruct (Qlt_le_dec p 0) as [Hp' | Hp'].
      * rewrite round64_neg by done.
        pose proof (round_mag_nonneg (- p) ltac:(lra)). lra.
      * rewrite round64_zero by lra. done.
    + destruct (Qlt_le_dec q 0) as [Hq' | Hq'].
      * rewrite !round64_neg by lra.
        pose proof (round_mag_mono (- q) (- p) ltac:(lra) ltac:(lra)). lra.
      * rewrite (round64_zero q) by lra.
        destruct (Qlt_le_dec p 0) as [Hp' | Hp'].
        -- rewrite round64_neg by done.
           pose proof (round_mag_nonneg (- p) ltac:(lra)). lra.
        -- rewrite round64_zero by lra. lra.
Qed.

#[global] Instance round64_proper : Proper (Qeq ==> Qeq) round64.
Proof.
  intros p q Hpq. apply Qle_antisym; apply round64_mono; lra.
Qed.

Lemma representable_int z : (Z.abs z <= 2 ^ 53)%Z -> representable (inject_Z z).
Proof.
  intros Hz. destruct (Z.eq_dec (Z.abs z) (2 ^ 53)%Z) as [Heq | Hne].
  - exists (z / 2)%Z, 1%Z. split; [| split; [| lia]].
    + assert (z = 2 * (z / 2))%Z as Hz2.
      { apply Z.div_exact; [lia |].
        destruct (Z.abs_eq_or_opp z) as [H | H]; rewrite H in Heq.
        - by rewrite Heq.
        - assert (z = - 2 ^ 53)%Z as -> by lia. done. }
      rewrite Hz2 at 1. rewrite inject_Z_mult. unfold pow2. simpl. ring.
    + destruct (Z.abs_eq_or_opp z) as [H | H]; rewrite H in Heq.
      * rewrite Heq. done.
      * assert (z = - 2 ^ 53)%Z as -> by lia. done.
  - exists z, 0%Z. split; [| split; [lia | lia]].
    unfold pow2. simpl. ring.
Qed.

Lemma round64_int z : (Z.abs z <= 2 ^ 53)%Z -> round64 (inject_Z z) == inject_Z z.
Proof. intros H. by apply round64_exact, representable_int. Qed.

(** ** Rational arithmetic *)

Lemma Qltb_lt x y : Qltb x y = true <-> x < y.
Proof.
  unfold Qltb. rewrite negb_true_iff, <- not_true_iff_false, Qle_bool_iff.
  split; [apply Qnot_le_lt | apply Qlt_not_le].
Qed.

Lemma Qltb_ge x y : Qltb x y = false <-> y <= x.
Proof.
  unfold Qltb. rewrite negb_false_iff. apply Qle_bool_iff.
Qed.

Lemma Qeq_bool_false x y : ~ x == y -> Qeq_bool x y = false.
Proof.
  intros H. apply not_true_iff_false. intros Heq. by apply Qeq_bool_iff in Heq.
Qed.

Lemma Qle_bool_false x y : y < x -> Qle_bool x y = false.
Proof.
  intros H. apply not_true_iff_false. intros Hle.
  apply Qle_bool_iff in Hle. lra.
Qed.

Lemma Qtrunc_eq_int q z : q == inject_Z z -> Qtrunc q = z.
Proof.
  unfold Qtrunc, Qeq. destruct q as [n d]. simpl. intros H.
  rewrite Z.mul_1_r in H. rewrite H. apply Z.quot_mul. done.
Qed.

Lemma Qtrunc_bounds q (hi : Z) :
  0 <= q -> q <= inject_Z hi -> (0 <= Qtrunc q <= hi)%Z.
Proof.
  unfold Qtrunc, Qle. destruct q as [n d]. simpl.
  rewrite !Z.mul_1_r. intros Hn Hhi.
  rewrite Z.quot_div_nonneg by lia. split.
  - apply Z.div_pos; lia.
  - apply Z.div_le_upper_bound; lia.
Qed.

(** ** Rounded operations *)

Lemma huge_big : inject_Z (2 ^ 53) < huge.
Proof. unfold huge. rewrite <- Zlt_Qlt. done. Qed.

Lemma int53_bound z : (Z.abs z <= 2 ^ 53)%Z ->
  - inject_Z (2 ^ 53) <= inject_Z z /\ inject_Z z <= inject_Z (2 ^ 53).
Proof.
  intros H. rewrite <- inject_Z_opp, <- !Zle_Qle. lia.
Qed.

(** A result between two integers of at most 53 bits stays finite and
    between them. *)
Lemma fround_between lo hi q :
  (Z.abs lo <= 2 ^ 53)%Z -> (Z.abs hi <= 2 ^ 53)%Z ->
  inject_Z lo <= q -> q <= inject_Z hi ->
  exists r, fround q = Fin r /\ r == round64 q
            /\ inject_Z lo <= r /\ r <= inject_Z hi.
Proof.
  intros Hlo Hhi Hq1 Hq2.
  pose proof (round64_mono _ _ Hq1) as H1. rewrite round64_int in H1 by done.
  pose proof (round64_mono _ _ Hq2) as H2. rewrite round64_int in H2 by done.
  pose proof (Qred_correct (round64 q)) as Hred.
  pose proof huge_big.
  destruct (int53_bound lo Hlo) as [? ?]. destruct (int53_bound hi Hhi) as [? ?].
  unfold fround. cbv zeta.
  rewrite Qle_bool_false by (rewrite Hred; lra).
  rewrite Qle_bool_false by (rewrite Hred; lra).
  eexists. split; [done |]. rewrite Hred. done.
Qed.

Lemma fround_Fin q r : fround q = Fin r -> r == round64 q.
Proof.
  unfold fround. cbv zeta. destruct (Qle_bool _ _); [done |].
  destruct (Qle_bool _ _); [done |]. intros [= <-]. apply Qred_correct.
Qed.

Lemma fround_not_nan q : is_nan (fround q) = false.
Proof.
  unfold fround. cbv zeta. by repeat destruct (Qle_bool _ _).
Qed.

(** A result at or below zero is a finite number at or below zero, or
    minus infinity. *)
Lemma fround_nonpos q :
  q <= 0 -> fround q = NInf \/ exists r, fround q = Fin r /\ r <= 0.
Proof.
  intros Hq. pose proof (round64_mono _ _ Hq) as H.
  rewrite (round64_zero 0) in H by reflexivity.
  pose proof (Qred_correct (round64 q)) as Hred.
  assert (0 < huge) as Hh by reflexivity.
  unfold fround. cbv zeta.
  rewrite Qle_bool_false by (rewrite Hred; lra).
  destruct (Qle_bool _ _); [by left |]. right.
  eexists. split; [done |]. rewrite Hred. done.
Qed.

Lemma fround_nonneg q :
  0 <= q -> fround q = PInf \/ exists r, fround q = Fin r /\ 0 <= r.
Proof.
  intros Hq. pose proof (round64_mono _ _ Hq) as H.
  rewrite (round64_zero 0) in H by reflexivity.
  pose proof (Qred_correct (round64 q)) as Hred.
  assert (0 < huge) as Hh by reflexivity.
  unfold fround. cbv zeta.
  destruct (Qle_bool huge _); [by left |]. right.
  rewrite Qle_bool_false by (rewrite Hred; lra).
  eexists. split; [done |]. rewrite Hred. done.
Qed.

(** A float in the finite range is kept by a conversion. *)
Lemma fround_exact q :
  finite_float q -> exists r, fround q = Fin r /\ r == q.
Proof.
  intros (Hrep & Hlo & Hhi).
  pose proof (round64_exact q Hrep) as Hex.
  pose proof (Qred_correct (round64 q)) as Hred.
  unfold fround. cbv zeta.
  rewrite Qle_bool_false by (rewrite Hred; lra).
  rewrite Qle_bool_false by (rewrite Hred; lra).
  eexists. split; [done |]. rewrite Hred. done.
Qed.

Lemma finite_float_int z : (Z.abs z <= 2 ^ 53)%Z -> finite_float (inject_Z z).
Proof.
  intros H. split; [by apply representable_int |].
  pose proof huge_big. destruct (int53_bound z H). lra.
Qed.

(** Two different floats are at least 2^-1074 apart. *)
Lemma representable_grid q :
  representable q -> exists M, q == inject_Z M * pow2 (-1074).
Proof.
  intros (m & k & Hq & _ & Hk).
  exists (m * 2 ^ (k + 1074))%Z.
  rewrite inject_Z_mult, <- pow2_Z, Hq by lia.
  rewrite <- Qmult_assoc, <- pow2_add.
  by replace (k + 1074 + -1074)%Z with k by lia.
Qed.

Lemma representable_gap p q :
  representable p -> representable q -> p < q -> pow2 (-1074) <= q - p.
Proof.
  intros [M Hp]%representable_grid [N Hq]%representable_grid Hlt.
  pose proof (pow2_pos (-1074)) as Hpos.
  assert (M < N)%Z as HMN.
  { rewrite Zlt_Qlt. rewrite Hp, Hq in Hlt. 
    apply Qnot_le_lt. intros Hle. nra. }
  assert (inject_Z M + 1 <= inject_Z N) as HMN'.
  { change 1 with (inject_Z 1). rewrite <- inject_Z_plus, <- Zle_Qle. lia. }
  rewrite Hp, Hq. nra.
Qed.

Lemma round64_pow2_small : round64 (pow2 (-1074)) == pow2 (-1074).
Proof.
  apply round64_exact. exists 1%Z, (-1074)%Z.
  split; [ring |]. split; [done | lia].
Qed.

Lemma fround_positive_gap q :
  pow2 (-1074) <= q -> fround q = PInf \/ exists r, fround q = Fin r /\ 0 < r.
Proof.
  intros Hq. pose proof (round64_mono _ _ Hq) as H.
  rewrite round64_pow2_small in H.
  pose proof (pow2_pos (-1074)) as Hpos.
  pose proof (Qred_correct (round64 q)) as Hred.
  assert (0 < huge) as Hh by reflexivity.
  unfold fround. cbv zeta.
  destruct (Qle_bool huge _); [by left |]. right.
  rewrite Qle_bool_false by (rewrite Hred; lra).
  eexists. split; [done |]. rewrite Hred. lra.
Qed.

(** ** Lookups in float arrays *)

Lemma fpx_fmap2 f a r c : fpx (fmap2 f a) r c = f <$> fpx a r c.
Proof.
  unfold fpx, fmap2. simpl. rewrite list_lookup_fmap.
  destruct (f_rows a !! r) as [row|]; simpl; [| done].
  apply list_lookup_fmap.
Qed.

Lemma fpx_to_float a r c : fpx (to_float a) r c = of_int <$> px a r c.
Proof.
  unfold fpx, px, to_float. simpl. rewrite list_lookup_fmap.
  destruct (rows a !! r) as [row|]; simpl; [| done].
  apply list_lookup_fmap.
Qed.

(** ** The median of non-negative samples *)

Lemma insert_sorted_Forall (P : float64 -> Prop) x l :
  P x -> Forall P l -> Forall P (insert_sorted x l).
Proof.
  intros Hx Hl. induction Hl as [|y l Hy Hl IH]; simpl.
  - by constructor.
  - destruct (fleb x y); repeat constructor; done.
Qed.

Lemma sort_samples_Forall (P : float64 -> Prop) l :
  Forall P l -> Forall P (sort_samples l).
Proof.
  induction 1 as [|x l Hx Hl IH]; simpl; [constructor |].
  by apply insert_sorted_Forall.
Qed.

Lemma mean_sample_like x y :
  sample_like x -> sample_like y -> sample_like (fdiv (fadd x y) (Fin 2)).
Proof.
  intros (a & -> & Ha0 & Ha1 & _) (b & -> & Hb0 & Hb1 & _).
  unfold fadd.
  destruct (fround_between 0 (2 ^ 33) (a + b)) as (s & -> & _ & Hs0 & Hs1);
    [done | done | change (inject_Z 0) with 0; lra | | ].
  { change (inject_Z (2 ^ 33)) with (2 * inject_Z (2 ^ 32)). lra. }
  unfold fdiv. change (Qeq_bool 2 0) with false. cbv iota.
  change (inject_Z 0) with 0 in Hs0.
  change (inject_Z (2 ^ 33)) with (2 * inject_Z (2 ^ 32)) in Hs1.
  destruct (fround_between 0 (2 ^ 32) (s / 2)) as (m & -> & Hm & Hm0 & Hm1);
    [done | done | | |].
  { change (inject_Z 0) with 0. apply Qle_shift_div_l; [reflexivity | lra]. }
  { apply Qle_shift_div_r; [reflexivity | lra]. }
  exists m. split; [done |]. change (inject_Z 0) with 0 in Hm0.
  split; [done |]. split; [done |].
  rewrite Hm. apply round64_idem.
Qed.

Lemma np_median_sample_like a :
  Forall (Forall sample_like) (f_rows a) ->
  np_median a = NaN \/ sample_like (np_median a).
Proof.
  intros Ha. unfold np_median.
  set (s := sort_samples (concat (f_rows a))).
  assert (Forall sample_like s) as Hs.
  { apply sort_samples_Forall, Forall_concat, Ha. }
  assert (forall k, (k < length s)%nat -> sample_like (nth k s NaN)) as Hnth.
  { intros k Hk. destruct (lookup_lt_is_Some_2 s k Hk) as [x Hx].
    rewrite (nth_lookup_Some _ _ _ _ Hx). exact (Forall_lookup_1 _ _ _ _ Hs Hx). }
  destruct (Nat.eqb_spec (length s) 0) as [Hz | Hnz]; cbn [orb]; [by left |].
  destruct (existsb is_nan s); [by left |]. right.
  assert (length s / 2 < length s)%nat as Hhalf by (apply Nat.div_lt; lia).
  destruct (Nat.even (length s)) eqn:Hev.
  - apply mean_sample_like; apply Hnth; lia.
  - apply Hnth; lia.
Qed.

Lemma to_float_sample_like img :
  wf img -> Forall (Forall (Z.le 0)) (rows img) ->
  Forall (Forall sample_like) (f_rows (to_float img)).
Proof.
  intros Hwf Hpos. unfold to_float. simpl.
  apply Forall_fmap, Forall_lookup. intros r row Hrow. simpl.
  apply Forall_fmap, Forall_lookup. intros c v Hv. simpl.
  pose proof (Forall_lookup_1 _ _ _ _ Hpos Hrow) as Hp.
  pose proof (Forall_lookup_1 _ _ _ _ Hp Hv) as Hv0.
  destruct (Forall_lookup_1 _ _ _ _ Hwf Hrow) as [_ Hr].
  pose proof (Forall_lookup_1 _ _ _ _ Hr Hv) as [_ Hmax].
  assert (v <= 2 ^ 32)%Z as Hv1.
  { unfold iinfo_max in Hmax. destruct (dtype img); simpl in Hmax; lia. }
  exists (inject_Z v). split; [done |].
  change 0 with (inject_Z 0). rewrite <- !Zle_Qle.
  split; [done |]. split; [done |]. apply round64_int. lia.
Qed.

(** [flat_avg] is not below [flat_avg / 2]. *)
Lemma flat_avg_not_below_half x :
  sample_like x -> fltb x (fdiv x (Fin 2)) = false.
Proof.
  intros (m & -> & Hm0 & Hm1 & Hm).
  unfold fdiv. change (Qeq_bool 2 0) with false. cbv iota.
  destruct (fround_between 0 (2 ^ 32) (m / 2)) as (h & -> & Hh & _ & _);
    [done | done | | |].
  { change (inject_Z 0) with 0. apply Qle_shift_div_l; [reflexivity | lra]. }
  { apply Qle_shift_div_r; [reflexivity | lra]. }
  unfold fltb. apply Qltb_ge. rewrite Hh.
  apply (Qle_trans _ (round64 m)); [| rewrite Hm; lra].
  apply round64_mono. apply Qle_shift_div_r; [reflexivity | lra].
Qed.

(** ** Sorting for the median *)

Lemma fleb_total a b : fleb a b = false -> fleb b a = true.
Proof.
  destruct a as [x| | |], b as [y| | |]; simpl; try done.
  intros H. apply Qle_bool_iff.
  assert (~ x <= y) as Hn by (intros Hle; apply Qle_bool_iff in Hle; congruence).
  lra.
Qed.

Lemma insert_sorted_perm x l : insert_sorted x l ≡ₚ x :: l.
Proof.
  induction l as [|y l IH]; simpl; [done |].
  destruct (fleb x y); [done |].
  rewrite IH. apply Permutation_swap.
Qed.

Lemma sort_samples_perm l : sort_samples l ≡ₚ l.
Proof.
  induction l as [|x l IH]; simpl; [done |].
  by rewrite insert_sorted_perm, IH.
Qed.

Lemma insert_sorted_sorted x l :
  Sorted fle l -> Sorted fle (insert_sorted x l).
Proof.
  induction 1 as [|y l Hl IH Hhd]; simpl.
  - by repeat constructor.
  - destruct (fleb x y) eqn:Hxy.
    + constructor; [by constructor |]. by constructor.
    + constructor; [done |].
      destruct l as [|z l]; simpl in *.
      * constructor. by apply fleb_total.
      * destruct (fleb x z).
        -- constructor. by apply fleb_total.
        -- constructor. by inversion Hhd.
Qed.

(** The samples the median indexes are the array's samples in ascending
    order, NaN last. *)
Lemma sort_samples_sorted l : Sorted fle (sort_samples l).
Proof.
  induction l as [|x l IH]; simpl; [constructor |].
  by apply insert_sorted_sorted.
Qed.

Lemma length_sort_samples l : length (sort_samples l) = length l.
Proof. apply Permutation_length, sort_samples_perm. Qed.

(** ** Flat fields *)

(** C4. On a well-formed reference image of non-negative samples,
    [loadFlat] stores the median of the image as [flat_avg], replaces exactly
    the samples strictly below [flat_avg/2] by [flat_avg], and the stored
    [flat_img] has no sample below [flat_avg/2]; [applyFlat] hands the
    structure back as it received it. *)
Theorem loadFlat_invariant img :
  wf img -> Forall (Forall (Z.le 0)) (rows img) ->
  flat_avg (loadFlat img) = np_median (to_float img)
  /\ fshape (flat_img (loadFlat img)) = shape img
  /\ (forall r c,
        fpx (flat_img (loadFlat img)) r c =
          (fun v => if fltb (of_int v) (fdiv (flat_avg (loadFlat img)) (Fin 2))
                    then flat_avg (loadFlat img)
                    else of_int v) <$> px img r c)
  /\ (forall r c e,
        fpx (flat_img (loadFlat img)) r c = Some e ->
        fltb e (fdiv (flat_avg (loadFlat img)) (Fin 2)) = false)
  /\ (forall invalid_cast target,
        snd (applyFlat invalid_cast target (loadFlat img)) = loadFlat img).
Proof.
  intros Hwf Hpos.
  assert (forall r c,
            fpx (flat_img (loadFlat img)) r c =
              (fun v => if fltb (of_int v) (fdiv (flat_avg (loadFlat img)) (Fin 2))
                        then flat_avg (loadFlat img)
                        else of_int v) <$> px img r c) as Hpx.
  { intros r c. unfold loadFlat. simpl.
    rewrite fpx_fmap2, fpx_to_float. by destruct (px img r c). }
  split; [done |]. split.
  { unfold loadFlat, fshape, shape, nrows. simpl. by rewrite !length_map. }
  split; [exact Hpx |]. split.
  - intros r c e. rewrite Hpx.
    destruct (px img r c) as [v|]; [| done].
    intros He. apply (inj Some) in He. subst e.
    change (flat_avg (loadFlat img)) with (np_median (to_float img)).
    destruct (fltb (of_int v) (fdiv (np_median (to_float img)) (Fin 2)))
      eqn:Hlt; [| done].
    destruct (np_median_sample_like (to_float img)
                (to_float_sample_like img Hwf Hpos)) as [Hnan | Hm].
    + by rewrite Hnan in Hlt.
    + by apply flat_avg_not_below_half.
  - intros invalid_cast target. unfold applyFlat.
    by destruct (decide _).
Qed.

Lemma flat_ref_wf : wf flat_ref.
Proof.
  unfold wf, in_range, iinfo_min, iinfo_max. simpl. repeat constructor; lia.
Qed.

Lemma loadFlat_invariant_witness :
  wf flat_ref /\ Forall (Forall (Z.le 0)) (rows flat_ref)
  /\ flat_avg (loadFlat flat_ref) = np_median (to_float flat_ref)
  /\ fshape (flat_img (loadFlat flat_ref)) = shape flat_ref
  /\ (forall r c,
        fpx (flat_img (loadFlat flat_ref)) r c =
          (fun v => if fltb (of_int v)
                            (fdiv (flat_avg (loadFlat flat_ref)) (Fin 2))
                    then flat_avg (loadFlat flat_ref)
                    else of_int v) <$> px flat_ref r c)
  /\ (forall r c e,
        fpx (flat_img (loadFlat flat_ref)) r c = Some e ->
        fltb e (fdiv (flat_avg (loadFlat flat_ref)) (Fin 2)) = false)
  /\ (forall invalid_cast target,
        snd (applyFlat invalid_cast target (loadFlat flat_ref))
        = loadFlat flat_ref).
Proof.
  assert (Forall (Forall (Z.le 0)) (rows flat_ref)) as H.
  { simpl. repeat constructor; lia. }
  split; [exact flat_ref_wf |].
  split; [exact H | exact (loadFlat_invariant flat_ref flat_ref_wf H)].
Defined.

(** C6. When the shape of the target differs from the shape of the flat
    image, [applyFlat] returns the target itself, raises nothing, and leaves
    the flat structure as it was. *)
Theorem applyFlat_shape_mismatch invalid_cast img flat_struct :
  shape img <> fshape (flat_img flat_struct) ->
  applyFlat invalid_cast img flat_struct = (Ok img, flat_struct).
Proof.
  intros Hs. unfold applyFlat. by rewrite decide_True.
Qed.

Lemma applyFlat_shape_mismatch_witness :
  shape img3 <> fshape (flat_img (loadFlat flat_ref))
  /\ applyFlat x86_cast img3 (loadFlat flat_ref) = (Ok img3, loadFlat flat_ref).
Proof.
  assert (shape img3 <> fshape (flat_img (loadFlat flat_ref))) as H.
  { vm_compute. discriminate. }
  split; [exact H | exact (applyFlat_shape_mismatch x86_cast img3 _ H)].
Defined.

Lemma in_range_inject dt x :
  in_range dt x ->
  inject_Z (iinfo_min dt) <= inject_Z x /\ inject_Z x <= inject_Z (iinfo_max dt).
Proof. intros [H1 H2]. by rewrite <- !Zle_Qle. Qed.

Lemma in_range_53 dt x : in_range dt x -> (Z.abs x <= 2 ^ 53)%Z.
Proof.
  unfold in_range, iinfo_min, iinfo_max. destruct dt; simpl; lia.
Qed.

(** A finite value within the range of the type passes the clip. *)
Lemma fclip_in_range dt q x :
  q == inject_Z x -> in_range dt x ->
  fclip (of_int (iinfo_min dt)) (of_int (iinfo_max dt)) (Fin q) = Fin q.
Proof.
  intros Hq Hx. destruct (in_range_inject dt x Hx) as [Hlo Hhi].
  unfold fclip, fmax, of_int, fltb.
  rewrite (proj2 (Qltb_ge q (inject_Z (iinfo_min dt)))) by (rewrite Hq; done).
  unfold fmin, fltb.
  by rewrite (proj2 (Qltb_ge (inject_Z (iinfo_max dt)) q)) by (rewrite Hq; done).
Qed.

Lemma uniform_flat_px invalid_cast dt a f x p :
  ~ a == 0 -> feq f (Fin a) -> in_range dt x ->
  p == a * inject_Z x ->
  to_int invalid_cast dt
    (fclip (of_int (iinfo_min dt)) (of_int (iinfo_max dt)) (fdiv (Fin p) f)) = x.
Proof.
  intros Ha Hf Hx Hp. destruct f as [b| | |]; try done. simpl in Hf.
  unfold fdiv. rewrite Qeq_bool_false by (rewrite Hf; done).
  assert (p / b == inject_Z x) as Hpb by (rewrite Hp, Hf; field; done).
  pose proof (in_range_53 dt x Hx) as H53.
  destruct (fround_between x x (p / b)) as (r & -> & _ & Hr1 & Hr2);
    [done | done | rewrite Hpb; lra | rewrite Hpb; lra |].
  assert (r == inject_Z x) as Hr by lra.
  rewrite (fclip_in_range dt r x) by done.
  unfold to_int. rewrite (Qtrunc_eq_int r x) by done.
  by apply wrap_in_range.
Qed.

Lemma applyFlat_px invalid_cast img fs :
  shape img = fshape (flat_img fs) ->
  exists out,
    applyFlat invalid_cast img fs = (Ok out, fs)
    /\ dtype out = dtype img /\ shape out = shape img
    /\ (Forall (fun r => length r = ncols img) (rows img) ->
        fwf (flat_img fs) ->
        Forall (fun r => length r = ncols img) (rows out))
    /\ forall r c,
         px out r c =
           x ← px img r c; f ← fpx (flat_img fs) r c;
           Some (to_int invalid_cast (dtype img)
                   (fclip (of_int (iinfo_min (dtype img)))
                          (of_int (iinfo_max (dtype img)))
                          (fdiv (fmul (flat_avg fs) (of_int x)) f))).
Proof.
  intros Hs. unfold applyFlat. rewrite decide_False by (intros H; done).
  eexists. split; [done |]. split; [done |].
  unfold shape, fshape, nrows in *. injection Hs as Hr Hc.
  split.
  { simpl. rewrite !length_map, length_zip_with, !length_map. f_equal. lia. }
  split.
  { intros Himg Hflat. simpl. unfold fwf in Hflat. rewrite <- Hc in Hflat.
    apply Forall_fmap, Forall_fmap, Forall_lookup. intros i row Hrow. simpl.
    apply lookup_zip_with_Some in Hrow as (x & y & -> & Hx & Hy).
    rewrite !length_map, length_zip_with.
    apply list_lookup_fmap_Some in Hx as (x0 & -> & Hx0).
    apply list_lookup_fmap_Some in Hx0 as (x1 & -> & Hx1).
    rewrite !length_map.
    rewrite (Forall_lookup_1 _ _ _ _ Himg Hx1), (Forall_lookup_1 _ _ _ _ Hflat Hy).
    lia. }
  intros r c. unfold px, fpx. simpl.
  rewrite !list_lookup_fmap, lookup_zip_with, !list_lookup_fmap.
  destruct (rows img !! r) as [row|]; [| done]. simpl.
  destruct (f_rows (flat_img fs) !! r) as [frow|]; simpl;
    [| by destruct (row !! c)].
  rewrite !list_lookup_fmap, lookup_zip_with, !list_lookup_fmap.
  destruct (row !! c) as [x|]; [| done]. simpl.
  by destruct (frow !! c).
Qed.

Lemma rows_eq_px n (l1 l2 : list (list Z)) :
  length l1 = length l2 ->
  Forall (fun r => length r = n) l1 -> Forall (fun r => length r = n) l2 ->
  (forall r c, (row ← l1 !! r; row !! c) = (row ← l2 !! r; row !! c)) ->
  l1 = l2.
Proof.
  intros Hlen H1 H2 Hpx. apply list_eq. intros r.
  destruct (l1 !! r) as [r1|] eqn:Hr1, (l2 !! r) as [r2|] eqn:Hr2.
  - f_equal. apply list_eq. intros c. specialize (Hpx r c).
    by rewrite Hr1, Hr2 in Hpx.
  - apply lookup_lt_Some in Hr1. apply lookup_ge_None in Hr2. lia.
  - apply lookup_lt_Some in Hr2. apply lookup_ge_None in Hr1. lia.
  - done.
Qed.

(** C5, as it holds.  For a well-formed target of the shape of the flat
    image, [applyFlat] returns an image of the target's type and shape whose
    sample at every position is [flat_avg * target / flat_img], rounded at
    each step, clipped to the range of the target's type and converted to
    it; when every sample of the flat image equals [flat_avg], [flat_avg]
    is a non-zero number and every product [flat_avg * target] is computed
    without rounding error, the result is the target. *)
Theorem applyFlat_same_shape invalid_cast img fs :
  wf img -> fwf (flat_img fs) -> shape img = fshape (flat_img fs) ->
  exists out,
    applyFlat invalid_cast img fs = (Ok out, fs)
    /\ dtype out = dtype img /\ shape out = shape img
    /\ (forall r c,
          px out r c =
            x ← px img r c; f ← fpx (flat_img fs) r c;
            Some (to_int invalid_cast (dtype img)
                    (fclip (of_int (iinfo_min (dtype img)))
                           (of_int (iinfo_max (dtype img)))
                           (fdiv (fmul (flat_avg fs) (of_int x)) f))))
    /\ (forall a,
          flat_avg fs = Fin a -> ~ a == 0 ->
          (forall r c f, fpx (flat_img fs) r c = Some f -> feq f (Fin a)) ->
          (forall r c x, px img r c = Some x ->
             exists p, fmul (Fin a) (of_int x) = Fin p /\ p == a * inject_Z x) ->
          out = img).
Proof.
  intros Hwf Hfwf Hs.
  destruct (applyFlat_px invalid_cast img fs Hs)
    as (out & Hout & Hdt & Hshape & Hrect & Hpx).
  exists out. repeat (split; [done |]).
  intros a Havg Ha Huni Hexact.
  pose proof (row_ok_length _ _ _ Hwf) as Hlen.
  destruct out as [dt nc rs], img as [dti nci rsi].
  unfold shape, nrows in Hshape. simpl in *. injection Hshape as Hr Hc. subst.
  f_equal. apply (rows_eq_px nci); auto.
  intros r c. specialize (Hpx r c).
  unfold px in Hpx. simpl in Hpx.
  rewrite Hpx. clear Hpx.
  destruct (rsi !! r) as [row|] eqn:Hrow; [| done]. simpl.
  destruct (row !! c) as [x|] eqn:Hx; [| done]. simpl.
  assert (c < nci)%nat as Hcn.
  { rewrite <- (Forall_lookup_1 _ _ _ _ Hlen Hrow). by eapply lookup_lt_Some. }
  assert (exists f, fpx (flat_img fs) r c = Some f) as [f Hf].
  { unfold fpx, fshape, fwf in *. injection Hs as Hr' Hc'.
    destruct (lookup_lt_is_Some_2 (f_rows (flat_img fs)) r) as [frow Hfrow].
    { rewrite <- Hr'. by eapply lookup_lt_Some. }
    rewrite Hfrow. simpl. apply lookup_lt_is_Some_2.
    rewrite (Forall_lookup_1 _ _ _ _ Hfwf Hfrow). lia. }
  rewrite Hf. simpl. f_equal. rewrite Havg.
  destruct (Hexact r c x) as (p & Hp1 & Hp).
  { unfold px. simpl. by rewrite Hrow. }
  change (fmul (Fin a) (of_int x)) with (fround (a * inject_Z x)).
  rewrite Hp1.
  apply (uniform_flat_px _ _ a); [done | by eapply Huni | | done].
  destruct (Forall_lookup_1 _ _ _ _ Hwf Hrow) as [_ Hrange].
  exact (Forall_lookup_1 _ _ _ _ Hrange Hx).
Qed.

Lemma frame50_wf : wf frame50.
Proof.
  unfold wf, in_range, iinfo_min, iinfo_max. simpl. repeat constructor; lia.
Qed.

Lemma applyFlat_same_shape_witness :
  wf frame50 /\ fwf (flat_img (loadFlat flat_ref))
  /\ shape frame50 = fshape (flat_img (loadFlat flat_ref))
  /\ applyFlat x86_cast frame50 (loadFlat flat_ref)
     = (Ok frame50, loadFlat flat_ref).
Proof.
  assert (fwf (flat_img (loadFlat flat_ref))) as Hf.
  { unfold fwf. vm_compute. repeat constructor. }
  split; [exact frame50_wf |]. split; [exact Hf |].
  split; [vm_compute; reflexivity |].
  destruct (applyFlat_same_shape x86_cast frame50 (loadFlat flat_ref)
              frame50_wf Hf eq_refl) as (out & Hout & _ & _ & _ & Hsame).
  rewrite Hout. f_equal. f_equal.
  assert (f_rows (flat_img (loadFlat flat_ref))
          = replicate 4 (replicate 4 (Fin 100))) as Hflat
    by (vm_compute; reflexivity).
  apply (Hsame 100).
  - vm_compute. reflexivity.
  - intros H. discriminate H.
  - intros r c f. unfold fpx. rewrite Hflat. intros H.
    destruct (replicate 4 (replicate 4 (Fin 100)) !! r) as [row|] eqn:Hrow;
      [| done].
    apply lookup_replicate in Hrow as [-> _].
    change (replicate 4 (Fin 100) !! c = Some f) in H.
    apply lookup_replicate in H as [-> _]. reflexivity.
  - intros r c x. unfold px.
    change (rows frame50) with (replicate 4 (replicate 4 50%Z)). intros H.
    destruct (replicate 4 (replicate 4 50%Z) !! r) as [row|] eqn:Hrow;
      [| done].
    apply lookup_replicate in Hrow as [-> _].
    change (replicate 4 50%Z !! c = Some x) in H.
    apply lookup_replicate in H as [-> _].
    exists 5000. split; [vm_compute; reflexivity | reflexivity].
Defined.

(** C5, as stated, fails on two flat structures whose samples all equal
    [flat_avg].  On the structure [loadFlat] builds from an all-zero
    reference every quotient is 0*x/0 = NaN, and the result holds the
    platform's value for an invalid conversion at both positions, which is
    not the target.  On a flat of 221.6924445813688 (a float64) the product
    with 113 is rounded, the quotient is just below 113, and the result is
    112. *)
Lemma applyFlat_uniform_flat_changes :
  (shape frame12 = fshape (flat_img (loadFlat dark_ref))
   /\ Forall (Forall (fun f => feq f (flat_avg (loadFlat dark_ref))))
             (f_rows (flat_img (loadFlat dark_ref)))
   /\ forall invalid_cast,
        fst (applyFlat invalid_cast frame12 (loadFlat dark_ref))
        = Ok (mkArr uint8 2 [[invalid_cast uint8; invalid_cast uint8]])
        /\ fst (applyFlat invalid_cast frame12 (loadFlat dark_ref)) <> Ok frame12)
  /\ (finite_float float_221
      /\ shape frame113 = fshape (flat_img flat_221)
      /\ Forall (Forall (fun f => feq f (flat_avg flat_221)))
                (f_rows (flat_img flat_221))
      /\ forall invalid_cast,
           fst (applyFlat invalid_cast frame113 flat_221)
           = Ok (mkArr uint8 1 [[112%Z]])).
Proof.
  split.
  - split; [reflexivity |]. split.
    { vm_compute. repeat constructor. }
    intros invalid_cast.
    assert (fst (applyFlat invalid_cast frame12 (loadFlat dark_ref))
            = Ok (mkArr uint8 2 [[invalid_cast uint8; invalid_cast uint8]])) as H.
    { vm_compute. reflexivity. }
    split; [exact H |]. rewrite H. unfold frame12. intros Heq.
    injection Heq as H1 H2. congruence.
  - split.
    { split.
      - exists 7800109459433647%Z, (-45)%Z.
        split; [vm_compute; reflexivity |]. split; [reflexivity | lia].
      - split; reflexivity. }
    split; [reflexivity |]. split.
    { repeat constructor. }
    intros invalid_cast. vm_compute. reflexivity.
Qed.

(** ** The clip of [applyFlat] *)

Lemma Qtrunc_between lo hi q :
  inject_Z lo <= q -> q <= inject_Z hi -> (lo <= Qtrunc q <= hi)%Z.
Proof.
  unfold Qtrunc, Qle. destruct q as [n d]. simpl.
  rewrite !Z.mul_1_r. intros Hlo Hhi. split.
  - rewrite <- (Z.quot_mul lo (Z.pos d)) by done.
    apply Z.quot_le_mono; lia.
  - rewrite <- (Z.quot_mul hi (Z.pos d)) by done.
    apply Z.quot_le_mono; lia.
Qed.

(** Whatever [applyFlat] converts after its clip is inside the range of
    the type it converts to, unless it is NaN: the conversion drops the
    fraction and never wraps. *)
Lemma applyFlat_clip_in_range invalid_cast dt y :
  is_nan y = false ->
  exists q,
    fclip (of_int (iinfo_min dt)) (of_int (iinfo_max dt)) y = Fin q
    /\ to_int invalid_cast dt (Fin q) = Qtrunc q
    /\ in_range dt (Qtrunc q).
Proof.
  intros Hy.
  assert (inject_Z (iinfo_min dt) <= inject_Z (iinfo_max dt)) as Hmm.
  { rewrite <- Zle_Qle. unfold iinfo_min, iinfo_max. destruct dt; simpl; lia. }
  assert (exists q, fclip (of_int (iinfo_min dt)) (of_int (iinfo_max dt)) y = Fin q
                    /\ inject_Z (iinfo_min dt) <= q
                    /\ q <= inject_Z (iinfo_max dt)) as (q & Hq & Hlo & Hhi).
  { destruct y as [q| | |]; try done; unfold fclip, fmax, of_int, fltb.
    - destruct (Qltb q (inject_Z (iinfo_min dt))) eqn:H0.
      + unfold fmin, fltb.
        rewrite (proj2 (Qltb_ge _ _) Hmm). eexists. split; [done |]. lra.
      + apply Qltb_ge in H0. unfold fmin, fltb.
        destruct (Qltb (inject_Z (iinfo_max dt)) q) eqn:H1.
        * eexists. split; [done |]. lra.
        * apply Qltb_ge in H1. by exists q.
    - unfold fmin, fltb. eexists. split; [done |]. lra.
    - unfold fmin, fltb.
      rewrite (proj2 (Qltb_ge _ _) Hmm). eexists. split; [done |]. lra. }
  exists q. split; [done |].
  pose proof (Qtrunc_between _ _ q Hlo Hhi) as Ht.
  split; [| done]. unfold to_int. by apply wrap_in_range.
Qed.

(** ** Brightness and contrast *)

Lemma wrap_byte_wide dt v :
  (8 < bits dt)%Z -> (0 <= v <= 255)%Z -> wrap dt v = v.
Proof.
  intros Hb Hv. apply wrap_in_range.
  unfold in_range, iinfo_min, iinfo_max. destruct dt; simpl in *; lia.
Qed.

Lemma fadd_Fin_not_nan x q : is_nan x = false -> is_nan (fadd x (Fin q)) = false.
Proof.
  destruct x; try done. intros _. apply fround_not_nan.
Qed.

(** Whatever is not NaN is clipped to a number between 0 and 255. *)
Lemma clip_byte y :
  is_nan y = false ->
  exists q, fclip (Fin 0) (Fin 255) y = Fin q /\ 0 <= q /\ q <= 255.
Proof.
  destruct y as [q| | |]; try done; intros _.
  - unfold fclip, fmax, fltb.
    destruct (Qltb q 0) eqn:H0.
    + exists 0. split; [reflexivity | lra].
    + apply Qltb_ge in H0. unfold fmin, fltb.
      destruct (Qltb 255 q) eqn:H1.
      * exists 255. split; [done | lra].
      * apply Qltb_ge in H1. by exists q.
  - exists 255. split; [reflexivity | lra].
  - exists 0. split; [reflexivity | lra].
Qed.

Ltac literal_bounds := unfold inject_Z in *; cbn [Z.pow Z.pow_pos Pos.iter Z.mul Pos.mul Z.opp Z.add Z.sub] in *.

(** The contrast factor is a finite number for a contrast within the
    documented range. *)
Lemma contrast_factor contrast :
  -255 <= contrast -> contrast <= 255 ->
  exists c f,
    pyfloat contrast = Ok (Fin c)
    /\ pydiv (fmul (Fin 259) (fadd (Fin c) (Fin 255)))
             (fmul (Fin 255) (fsub (Fin 259) (Fin c))) = Ok (Fin f).
Proof.
  intros Hc1 Hc2.
  destruct (fround_between (-255) 255 contrast) as (c & Hc & _ & Hcl & Hch);
    [done | done | exact Hc1 | exact Hc2 |].
  exists c. unfold pyfloat. rewrite Hc.
  unfold fsub, fneg, fadd, fmul.
  destruct (fround_between 0 510 (c + 255)) as (n1 & -> & _ & Hn1l & Hn1h);
    [done | done | literal_bounds; lra | literal_bounds; lra |].
  destruct (fround_between 0 132090 (259 * n1)) as (n2 & -> & _ & Hn2l & Hn2h);
    [done | done | literal_bounds; lra | literal_bounds; lra |].
  destruct (fround_between 4 514 (259 + - c)) as (d1 & -> & _ & Hd1l & Hd1h);
    [done | done | literal_bounds; lra | literal_bounds; lra |].
  destruct (fround_between 1020 131070 (255 * d1)) as (d2 & -> & _ & Hd2l & Hd2h);
    [done | done | literal_bounds; lra | literal_bounds; lra |].
  literal_bounds.
  unfold pydiv, is_zero, fdiv.
  rewrite Qeq_bool_false by lra.
  destruct (fround_between 0 130 (n2 / d2)) as (f & -> & _);
    [done | done | | |].
  - literal_bounds. apply Qle_shift_div_l; lra.
  - literal_bounds. apply Qle_shift_div_r; lra.
  - by exists f.
Qed.

Lemma brightness_px invalid_cast dt f b v :
  (8 < bits dt)%Z -> in_range dt v -> -255 <= b -> b <= 255 ->
  (0 <= to_int invalid_cast dt
          (fclip (Fin 0) (Fin 255)
             (fadd (fmul (Fin f) (fsub (fadd (of_int v) (Fin b)) (Fin 128)))
                   (Fin 128))) <= 255)%Z.
Proof.
  intros Hbits Hv Hb1 Hb2.
  assert (-2147483648 <= v <= 2147483647)%Z as Hv'.
  { unfold in_range, iinfo_min, iinfo_max in Hv. destruct dt; simpl in Hv; lia. }
  assert (-2147483648 <= inject_Z v /\ inject_Z v <= 2147483647) as [Hv1 Hv2].
  { change (-2147483648) with (inject_Z (-2147483648)).
    change 2147483647 with (inject_Z 2147483647). rewrite <- !Zle_Qle. lia. }
  unfold fsub, fneg, of_int.
  change (fadd (Fin (inject_Z v)) (Fin b)) with (fround (inject_Z v + b)).
  destruct (fround_between (-2147483903) 2147483902 (inject_Z v + b))
    as (s & -> & _ & Hs1 & Hs2);
    [done | done | literal_bounds; lra | literal_bounds; lra |].
  change (fadd (Fin s) (Fin (Qopp 128))) with (fround (s + Qopp 128)).
  destruct (fround_between (-2147484031) 2147483774 (s + Qopp 128))
    as (t & -> & _ & _ & _);
    [done | done | literal_bounds; lra | literal_bounds; lra |].
  change (fmul (Fin f) (Fin t)) with (fround (f * t)).
  destruct (clip_byte (fadd (fround (f * t)) (Fin 128))) as (q & -> & Hq1 & Hq2).
  { apply fadd_Fin_not_nan, fround_not_nan. }
  unfold to_int.
  pose proof (Qtrunc_bounds q 255 Hq1 Hq2) as Ht.
  by rewrite wrap_byte_wide.
Qed.

(** C10. On a well-formed image whose storage type is wider than 8 bits,
    with brightness and contrast within the documented range -255..255,
    [applyBrightnessAndContrast] returns an image of the same storage type
    and shape in which every sample lies in [0, 255]. *)
Theorem applyBrightnessAndContrast_wide invalid_cast img brightness contrast :
  wf img -> (8 < bits (dtype img))%Z ->
  -255 <= brightness -> brightness <= 255 ->
  -255 <= contrast -> contrast <= 255 ->
  exists out,
    applyBrightnessAndContrast invalid_cast img brightness contrast = Ok out
    /\ dtype out = dtype img /\ shape out = shape img
    /\ Forall (Forall (fun v => (0 <= v <= 255)%Z)) (rows out).
Proof.
  intros Hwf Hbits Hb1 Hb2 Hc1 Hc2.
  destruct (contrast_factor contrast Hc1 Hc2) as (c & f & Hc & Hf).
  destruct (fround_between (-255) 255 brightness) as (b & Hb & _ & Hbl & Hbh);
    [done | done | exact Hb1 | exact Hb2 |].
  unfold applyBrightnessAndContrast. rewrite Hc. cbn [mbind result_bind].
  rewrite Hf. cbn [mbind result_bind].
  unfold pyfloat. rewrite Hb. cbn [mbind result_bind].
  eexists. split; [done |]. split; [done |]. split.
  { unfold shape, nrows, farray_astype, fmap2, to_float. cbn [rows ncols f_rows f_ncols].
    by rewrite !length_map. }
  unfold farray_astype, fmap2, to_float. cbn [rows ncols f_rows f_ncols].
  rewrite !Forall_fmap. apply Forall_lookup. intros r row Hrow.
  cbn [compose]. rewrite !Forall_fmap.
  apply Forall_lookup. intros k v Hv. cbn [compose].
  apply brightness_px; try done.
  destruct (Forall_lookup_1 _ _ _ _ Hwf Hrow) as [_ Hrange].
  exact (Forall_lookup_1 _ _ _ _ Hrange Hv).
Qed.

Lemma deep_frame_wf : wf deep_frame.
Proof.
  unfold wf, in_range, iinfo_min, iinfo_max. simpl. repeat constructor; lia.
Qed.

Lemma applyBrightnessAndContrast_wide_witness :
  wf deep_frame /\ (8 < bits (dtype deep_frame))%Z
  /\ -255 <= 0 /\ 0 <= 255
  /\ exists out,
       applyBrightnessAndContrast x86_cast deep_frame 0 0 = Ok out
       /\ dtype out = dtype deep_frame /\ shape out = shape deep_frame
       /\ Forall (Forall (fun v => (0 <= v <= 255)%Z)) (rows out).
Proof.
  assert (-255 <= 0) as H1 by discriminate.
  assert (0 <= 255) as H2 by discriminate.
  assert (8 < bits (dtype deep_frame))%Z as H3 by reflexivity.
  split; [exact deep_frame_wf |]. split; [exact H3 |].
  split; [exact H1 |]. split; [exact H2 |].
  exact (applyBrightnessAndContrast_wide x86_cast deep_frame 0 0
           deep_frame_wf H3 H1 H2 H1 H2).
Defined.

(** ** Clipping before the conversion *)

(** C7 at a 16-bit run of [adjustLevels]: with the identity levels of a
    16-bit image the sample 256 is clipped to [0, 65535], not to the range
    of the [uint8] result, and the conversion turns it into 0; likewise
    [applyBrightnessAndContrast] clips a signed 8-bit image to [0, 255] and
    the conversion turns 200 into -56. *)
Theorem clip_range_exceeds_result_type :
  forall invalid_cast libm_pow,
    adjustLevels invalid_cast libm_pow (mkArr uint16 1 [[256]]%Z)
                 (Some 0) (Some 1) (Some 65535) 16
    = Ok (mkArr uint8 1 [[0]]%Z)
    /\ applyBrightnessAndContrast invalid_cast (mkArr int8 1 [[100]]%Z) 100 0
       = Ok (mkArr int8 1 [[-56]]%Z).
Proof. intros invalid_cast libm_pow. split; vm_compute; reflexivity. Qed.

(** ** Gamma correction *)

Lemma pyfloat_finite q :
  finite_float q -> pyfloat q = Ok (as_float q) /\ Qred (round64 q) == q.
Proof.
  intros Hq. destruct (fround_exact q Hq) as (r & Hr & Hrq).
  assert (Fin r = as_float q) as Heq.
  { unfold fround in Hr. cbv zeta in Hr.
    destruct (Qle_bool _ _); [done |]. by destruct (Qle_bool _ _). }
  unfold pyfloat. rewrite Hr, Heq. split; [done |].
  unfold as_float in Heq. injection Heq as <-. done.
Qed.

Lemma finite_float_0 : finite_float 0.
Proof. apply (finite_float_int 0). done. Qed.

Lemma finite_float_clamp0 i : finite_float i -> finite_float (clamp0 i).
Proof. intros H. unfold clamp0. destruct (Qltb i 0); [apply finite_float_0 | done]. Qed.

Lemma fround_negative_gap q :
  q <= - pow2 (-1074) -> fround q = NInf \/ exists r, fround q = Fin r /\ r < 0.
Proof.
  intros Hq. pose proof (round64_mono _ _ Hq) as H.
  rewrite (round64_exact (- pow2 (-1074))) in H.
  2: { apply representable_opp. exists 1%Z, (-1074)%Z.
       split; [ring |]. split; [done | lia]. }
  pose proof (pow2_pos (-1074)) as Hpos.
  pose proof (Qred_correct (round64 q)) as Hred.
  assert (0 < huge) as Hh by reflexivity.
  unfold fround. cbv zeta.
  rewrite Qle_bool_false by (rewrite Hred; lra).
  destruct (Qle_bool _ _); [by left |]. right.
  eexists. split; [done |]. rewrite Hred. lra.
Qed.

(** The difference of two different floats is not zero. *)
Lemma fsub_nonzero a b :
  finite_float a -> finite_float b -> ~ a == b ->
  is_zero (fsub (as_float a) (as_float b)) = false.
Proof.
  intros Ha Hb Hne.
  destruct (pyfloat_finite a Ha) as [_ Hp].
  destruct (pyfloat_finite b Hb) as [_ Hq].
  destruct Ha as [Ha _], Hb as [Hb _].
  unfold as_float.
  set (p := Qred (round64 a)) in *. set (q := Qred (round64 b)) in *.
  change (fsub (Fin p) (Fin q)) with (fround (p + - q)).
  destruct (Qlt_le_dec a b) as [Hlt | Hge].
  - destruct (fround_negative_gap (p + - q)) as [-> | (r & -> & Hr)]; [| done |].
    + pose proof (representable_gap a b Ha Hb Hlt). lra.
    + unfold is_zero. apply Qeq_bool_false. lra.
  - assert (b < a) as Hlt.
    { apply Qnot_le_lt. intros H. apply Hne. lra. }
    destruct (fround_positive_gap (p + - q)) as [-> | (r & -> & Hr)]; [| done |].
    + pose proof (representable_gap b a Hb Ha Hlt). lra.
    + unfold is_zero. apply Qeq_bool_false. lra.
Qed.

Lemma pydiv_nonzero a b : is_zero b = false -> pydiv a b = Ok (fdiv a b).
Proof. intros H. unfold pydiv. by rewrite H. Qed.

Lemma gammaCorrection_unfold libm_pow i g bp wp :
  finite_float i -> finite_float g -> finite_float bp -> finite_float wp ->
  ~ wp == bp -> 0 < g ->
  gammaCorrection libm_pow i g bp wp =
    if fltb (Fin 0)
            (fdiv (fsub (as_float (clamp0 i)) (as_float bp))
                  (fsub (as_float wp) (as_float bp)))
    then p ← pypow libm_pow
               (fdiv (fsub (as_float (clamp0 i)) (as_float bp))
                     (fsub (as_float wp) (as_float bp)))
               (fdiv (Fin 1) (as_float g));
         Ok (fadd (as_float bp) (fmul (fsub (as_float wp) (as_float bp)) p))
    else Ok (Fin bp).
Proof.
  intros Hi Hg Hbp Hwp Hne Hg0.
  destruct (pyfloat_finite _ (finite_float_clamp0 i Hi)) as [Hpi Hvi].
  destruct (pyfloat_finite g Hg) as [Hpg Hvg].
  destruct (pyfloat_finite bp Hbp) as [Hpb Hvb].
  destruct (pyfloat_finite wp Hwp) as [Hpw Hvw].
  unfold gammaCorrection. fold (clamp0 i).
  rewrite Hpi, Hpb, Hpw. cbn [mbind result_bind].
  rewrite pydiv_nonzero by (by apply fsub_nonzero).
  cbn [mbind result_bind].
  destruct (fltb (Fin 0) _); [| done].
  rewrite Hpg. cbn [mbind result_bind].
  rewrite pydiv_nonzero; [done |].
  unfold as_float, is_zero. apply Qeq_bool_false. lra.
Qed.

Lemma quotient_nonpos num den :
  (num = NInf \/ exists n, num = Fin n /\ n <= 0) ->
  (den = PInf \/ exists d, den = Fin d /\ 0 < d) ->
  fltb (Fin 0) (fdiv num den) = false.
Proof.
  intros [-> | (n & -> & Hn)] [-> | (d & -> & Hd)].
  - done.
  - unfold fdiv. by rewrite (proj2 (Qltb_ge d 0)) by lra.
  - unfold fdiv, fltb. apply Qltb_ge. lra.
  - unfold fdiv. rewrite Qeq_bool_false by lra.
    destruct (fround_nonpos (n / d)) as [-> | (r & -> & Hr)]; [| done |].
    + apply Qle_shift_div_r; lra.
    + unfold fltb. by apply Qltb_ge.
Qed.

Lemma gamma_identity_all libm_pow :
  forallb (gamma_identity_at libm_pow) (map Z.of_nat (seq 0 256)) = true.
Proof. vm_compute. reflexivity. Qed.

(** C9, as it holds.  For float arguments with [wp != bp] and [g > 0],
    [gammaCorrection] clamps the intensity to at least 0, takes
    [x = (i - bp)/(wp - bp)] and returns [bp + (wp - bp) * x^(1/g)] when
    [x > 0] (an overflowing power raises) and [bp] itself otherwise.  When
    [wp > bp], every input whose clamped value is at or below [bp] (so every
    input at or below a non-negative black point) gives [bp]; with [bp = 0],
    [wp = 255] and [g = 1] every integer intensity from 0 to 255 is returned
    as it is. *)
Theorem gammaCorrection_spec libm_pow i g bp wp :
  finite_float i -> finite_float g -> finite_float bp -> finite_float wp ->
  ~ wp == bp -> 0 < g ->
  gammaCorrection libm_pow i g bp wp =
    (if fltb (Fin 0)
             (fdiv (fsub (as_float (clamp0 i)) (as_float bp))
                   (fsub (as_float wp) (as_float bp)))
     then p ← pypow libm_pow
                (fdiv (fsub (as_float (clamp0 i)) (as_float bp))
                      (fsub (as_float wp) (as_float bp)))
                (fdiv (Fin 1) (as_float g));
          Ok (fadd (as_float bp) (fmul (fsub (as_float wp) (as_float bp)) p))
     else Ok (Fin bp))
  /\ (bp < wp -> clamp0 i <= bp ->
        gammaCorrection libm_pow i g bp wp = Ok (Fin bp))
  /\ (bp < wp -> 0 <= bp -> i <= bp ->
        gammaCorrection libm_pow i g bp wp = Ok (Fin bp))
  /\ (forall z, (0 <= z <= 255)%Z ->
        exists q, gammaCorrection libm_pow (inject_Z z) 1 0 255 = Ok (Fin q)
                  /\ q == inject_Z z).
Proof.
  intros Hi Hg Hbp Hwp Hne Hg0.
  pose proof (gammaCorrection_unfold libm_pow i g bp wp Hi Hg Hbp Hwp Hne Hg0)
    as Hunf.
  assert (bp < wp -> clamp0 i <= bp ->
          gammaCorrection libm_pow i g bp wp = Ok (Fin bp)) as Hbelow.
  { intros Hlt Hle. rewrite Hunf.
    destruct (pyfloat_finite _ (finite_float_clamp0 i Hi)) as [_ Hvi].
    destruct (pyfloat_finite bp Hbp) as [_ Hvb].
    destruct (pyfloat_finite wp Hwp) as [_ Hvw].
    rewrite quotient_nonpos; [done | |].
    - unfold as_float.
      change (fsub (Fin ?p) (Fin ?q)) with (fround (p + - q)).
      apply fround_nonpos. lra.
    - unfold as_float.
      change (fsub (Fin ?p) (Fin ?q)) with (fround (p + - q)).
      apply fround_positive_gap.
      pose proof (representable_gap bp wp (proj1 Hbp) (proj1 Hwp) Hlt). lra. }
  split; [exact Hunf |]. split; [exact Hbelow |]. split.
  - intros Hlt Hb0 Hib. apply Hbelow; [done |].
    unfold clamp0. destruct (Qltb i 0); lra.
  - intros z Hz.
    pose proof (gamma_identity_all libm_pow) as Hall.
    rewrite forallb_forall in Hall.
    specialize (Hall z).
    unfold gamma_identity_at in Hall.
    destruct (gammaCorrection libm_pow (inject_Z z) 1 0 255) as [[q| | |]|e].
    + exists q. split; [done |]. apply Qeq_bool_iff, Hall.
      replace z with (Z.of_nat (Z.to_nat z)) by lia.
      apply List.in_map, List.in_seq. lia.
    + assert (false = true) as Habs; [| done].
      apply Hall. replace z with (Z.of_nat (Z.to_nat z)) by lia.
      apply List.in_map, List.in_seq. lia.
    + assert (false = true) as Habs; [| done].
      apply Hall. replace z with (Z.of_nat (Z.to_nat z)) by lia.
      apply List.in_map, List.in_seq. lia.
    + assert (false = true) as Habs; [| done].
      apply Hall. replace z with (Z.of_nat (Z.to_nat z)) by lia.
      apply List.in_map, List.in_seq. lia.
    + assert (false = true) as Habs; [| done].
      apply Hall. replace z with (Z.of_nat (Z.to_nat z)) by lia.
      apply List.in_map, List.in_seq. lia.
Qed.

Lemma gammaCorrection_spec_witness :
  finite_float 51 /\ finite_float 1 /\ finite_float 0 /\ finite_float 255
  /\ ~ 255 == 0 /\ 0 < 1
  /\ gammaCorrection no_pow 51 1 0 255 =
       (if fltb (Fin 0)
                (fdiv (fsub (as_float (clamp0 51)) (as_float 0))
                      (fsub (as_float 255) (as_float 0)))
        then p ← pypow no_pow
                   (fdiv (fsub (as_float (clamp0 51)) (as_float 0))
                         (fsub (as_float 255) (as_float 0)))
                   (fdiv (Fin 1) (as_float 1));
             Ok (fadd (as_float 0) (fmul (fsub (as_float 255) (as_float 0)) p))
        else Ok (Fin 0))
  /\ (0 < 255 -> clamp0 51 <= 0 -> gammaCorrection no_pow 51 1 0 255 = Ok (Fin 0))
  /\ (0 < 255 -> 0 <= 0 -> 51 <= 0 -> gammaCorrection no_pow 51 1 0 255 = Ok (Fin 0))
  /\ (forall z, (0 <= z <= 255)%Z ->
        exists q, gammaCorrection no_pow (inject_Z z) 1 0 255 = Ok (Fin q)
                  /\ q == inject_Z z).
Proof.
  assert (finite_float 51) as H51 by (apply (finite_float_int 51); done).
  assert (finite_float 1) as H1 by (apply (finite_float_int 1); done).
  assert (finite_float 0) as H0 by (apply (finite_float_int 0); done).
  assert (finite_float 255) as H255 by (apply (finite_float_int 255); done).
  assert (~ 255 == 0) as Hne by (intros H; discriminate H).
  assert (0 < 1) as Hg by reflexivity.
  repeat (split; [assumption |]).
  exact (gammaCorrection_spec no_pow 51 1 0 255 H51 H1 H0 H255 Hne Hg).
Defined.

Example ex_gamma_51 : gammaCorrection no_pow 51 1 0 255 = Ok (Fin 51).
Proof. vm_compute. reflexivity. Qed.

(** C9, as stated, fails for an inverted range: with black point 8 and white
    point 4 the input 0 lies below the black point, yet [x = 2 > 0] and the
    result is 0, not 8. *)
Lemma gammaCorrection_inverted_range :
  0 <= 8 /\ ~ 4 == 8 /\ 0 < 1
  /\ forall libm_pow, gammaCorrection libm_pow 0 1 8 4 = Ok (Fin 0).
Proof.
  split; [discriminate |]. split; [intros H; discriminate H |].
  split; [reflexivity |].
  intros libm_pow. vm_compute. reflexivity.
Qed.

(** ** Sample runs of the float routines *)

Example ex_loadFlat_avg : flat_avg (loadFlat flat_ref) = Fin 100.
Proof. vm_compute. reflexivity. Qed.

Example ex_loadFlat_img :
  f_rows (flat_img (loadFlat flat_ref)) = replicate 4 (replicate 4 (Fin 100)).
Proof. vm_compute. reflexivity. Qed.

Example ex_levels_identity :
  adjustLevels x86_cast no_pow (mkArr uint8 2 [[0; 255]; [17; 100]]%Z)
               (Some 0) (Some 1) (Some 255) 8
  = Ok (mkArr uint8 2 [[0; 255]; [17; 100]]%Z).
Proof. vm_compute. reflexivity. Qed.

Example ex_levels_unset :
  adjustLevels x86_cast no_pow deep_frame None None None 8 = Ok deep_frame.
Proof. vm_compute. reflexivity. Qed.

Example ex_brightness_identity :
  applyBrightnessAndContrast x86_cast (mkArr uint8 2 [[0; 255]; [17; 100]]%Z) 0 0
  = Ok (mkArr uint8 2 [[0; 255]; [17; 100]]%Z).
Proof. vm_compute. reflexivity. Qed.

Example ex_brightness_deep :
  applyBrightnessAndContrast x86_cast deep_frame 0 0
  = Ok (mkArr uint16 2 [[255; 255]; [255; 255]]%Z).
Proof. vm_compute. reflexivity. Qed.

Example ex_round_tenth : Qred (round64 (1 # 10)) = 3602879701896397 # 36028797018963968.
Proof. vm_compute. reflexivity. Qed.

(** ** Agreement of [round64] with the hardware

    On every sampled pair of operands the model's rounding of the exact
    quotient, product, sum and difference is the float the kernel's
    binary64 unit computes. *)

Example round64_agrees_div : forallb agree_div operand_pairs = true.
Proof. vm_compute. reflexivity. Qed.

Example round64_agrees_mul : forallb agree_mul operand_pairs = true.
Proof. vm_compute. reflexivity. Qed.

Example round64_agrees_add : forallb agree_add operand_pairs = true.
Proof. vm_compute. reflexivity. Qed.

Example round64_agrees_sub : forallb agree_sub operand_pairs = true.
Proof. vm_compute. reflexivity. Qed.

Local Open Scope Z_scope.

(** ** Further properties of the deinterlacer *)

Lemma array_eq_rows a b :
  dtype a = dtype b -> ncols a = ncols b -> nrows a = nrows b ->
  (forall r, (r < nrows a)%nat -> rows a !! r = rows b !! r) ->
  a = b.
Proof.
  destruct a as [da na ra], b as [db nb rb]. unfold nrows. simpl.
  intros -> -> Hlen Hrows. f_equal. apply list_eq. intros r.
  destruct (decide (r < length ra)%nat) as [Hr | Hr]; [by apply Hrows |].
  rewrite !lookup_ge_None_2; [done | lia | lia].
Qed.

(** X1. Running [deinterlaceEven] on its own result changes nothing. *)
Theorem deinterlaceEven_idempotent img :
  wf img ->
  exists out, deinterlaceEven img = Ok out /\ deinterlaceEven out = Ok out.
Proof.
  intros Hwf.
  destruct (deinterlaceEven_rows img Hwf)
    as (out & Hout & Hwfo & Hdt & Hnc & Hnr & Hrows).
  destruct (deinterlaceEven_rows out Hwfo)
    as (out2 & Hout2 & _ & Hdt2 & Hnc2 & Hnr2 & Hrows2).
  exists out. split; [done |]. rewrite Hout2. f_equal.
  apply array_eq_rows; try done.
  intros r Hr. rewrite Hnr2 in Hr. rewrite Hrows2 by done.
  destruct (Nat.even r) eqn:Hev; [| done]. simpl.
  destruct (Nat.ltb_spec (S r) (nrows out)) as [Hlt | Hge]; [| done].
  rewrite !Hrows by lia. rewrite Hev, Nat.even_succ, <- Nat.negb_even, Hev. simpl.
  by destruct (Nat.ltb_spec (S r) (nrows img)); [| lia].
Qed.

Lemma deinterlaceEven_idempotent_witness :
  wf img3
  /\ exists out, deinterlaceEven img3 = Ok out /\ deinterlaceEven out = Ok out.
Proof. split; [exact img3_wf | exact (deinterlaceEven_idempotent img3 img3_wf)]. Defined.

Lemma deinterlaceEven_empty img :
  nrows img = 0%nat -> deinterlaceEven img = Ok img.
Proof.
  destruct img as [dt nc [|row rs]]; [intros _ | done].
  unfold deinterlaceEven, np_copy, setitem, getitem, shape, nrows. simpl.
  by rewrite decide_True by apply broadcast_shapes_same.
Qed.

(** X2. On an image without rows [deinterlaceEven] returns the image, while
    [deinterlaceOdd] and with it [deinterlaceBlend] raise [IndexError]. *)
Theorem deinterlace_no_rows img :
  nrows img = 0%nat ->
  deinterlaceEven img = Ok img
  /\ deinterlaceOdd img = Raise IndexError
  /\ deinterlaceBlend img = Raise IndexError.
Proof.
  intros Hn. split; [by apply deinterlaceEven_empty |].
  split; [by apply deinterlaceOdd_empty |].
  unfold deinterlaceBlend. by rewrite deinterlaceOdd_empty.
Qed.

Lemma deinterlace_no_rows_witness :
  nrows (mkArr uint16 3 []) = 0%nat
  /\ deinterlaceEven (mkArr uint16 3 []) = Ok (mkArr uint16 3 [])
  /\ deinterlaceOdd (mkArr uint16 3 []) = Raise IndexError
  /\ deinterlaceBlend (mkArr uint16 3 []) = Raise IndexError.
Proof. split; [reflexivity | exact (deinterlace_no_rows (mkArr uint16 3 []) eq_refl)]. Defined.

(** X3. The blend of the two fields is a vertical maximum: every row but
    the last holds, sample by sample, the greater of the input's row and the
    row below it, and the last row is the input's last row. *)
Theorem deinterlaceBlend_rows img :
  wf img -> dtype img = uint8 -> (0 < nrows img)%nat ->
  exists out,
    deinterlaceBlend img = Ok out
    /\ (forall r c, (S r < nrows img)%nat ->
          px out r c = x ← px img r c; y ← px img (S r) c; Some (Z.max x y))
    /\ (forall r c, S r = nrows img -> px out r c = px img r c).
Proof.
  intros Hwf Hdt Hpos.
  destruct (deinterlaceOdd_rows img Hwf Hpos)
    as (odd & Hodd & Hwfo & Hdto & Hnco & Hnro & Hro).
  destruct (deinterlaceEven_rows img Hwf)
    as (even & Heven & Hwfe & Hdte & Hnce & Hnre & Hre).
  destruct (blendLighten_uint8 odd even)
    as (temp & out & _ & _ & _ & Hout & _ & _ & Hpx); try congruence.
  { unfold shape. congruence. }
  exists out. split.
  { unfold deinterlaceBlend. rewrite Hodd. simpl. by rewrite Heven. }
  split.
  - intros r c Hr. rewrite Hpx. unfold px.
    rewrite Hro, Hre by lia.
    destruct (Nat.ltb_spec (S r) (nrows img)) as [_ | ?]; [| lia].
    destruct (Nat.even r); simpl.
    + done.
    + destruct (rows img !! S r) as [row'|]; simpl.
      * destruct (row' !! c) as [y|]; simpl.
        -- destruct (rows img !! r) as [row|]; simpl; [| done].
           destruct (row !! c) as [x|]; simpl; [| done]. f_equal. lia.
        -- destruct (rows img !! r) as [row|]; simpl; [| done].
           by destruct (row !! c).
      * destruct (rows img !! r) as [row|]; simpl; [| done].
        by destruct (row !! c).
  - intros r c Hr. rewrite Hpx. unfold px.
    rewrite Hro, Hre by lia.
    destruct (Nat.ltb_spec (S r) (nrows img)) as [? | _]; [lia |].
    rewrite andb_false_r. simpl.
    destruct (rows img !! r) as [row|] eqn:Hrow; simpl.
    2: { by destruct (replicate (ncols img) 0 !! c). }
    destruct (Forall_lookup_1 _ _ _ _ Hwf Hrow) as [Hlen Hrange].
    destruct (row !! c) as [y|] eqn:Hy; simpl.
    + rewrite lookup_replicate_2
        by (rewrite <- Hlen; by eapply lookup_lt_Some).
      simpl. f_equal.
      pose proof (Forall_lookup_1 _ _ _ _ Hrange Hy) as [Hy0 _].
      rewrite Hdt in Hy0. unfold iinfo_min in Hy0. simpl in Hy0. lia.
    + by destruct (replicate (ncols img) 0 !! c).
Qed.

Lemma deinterlaceBlend_rows_witness :
  wf img4 /\ dtype img4 = uint8 /\ (0 < nrows img4)%nat
  /\ exists out,
       deinterlaceBlend img4 = Ok out
       /\ (forall r c, (S r < nrows img4)%nat ->
             px out r c = x ← px img4 r c; y ← px img4 (S r) c; Some (Z.max x y))
       /\ (forall r c, S r = nrows img4 -> px out r c = px img4 r c).
Proof.
  assert (0 < nrows img4)%nat as Hpos by (unfold nrows; simpl; lia).
  split; [exact img4_wf |]. split; [reflexivity |]. split; [exact Hpos |].
  exact (deinterlaceBlend_rows img4 img4_wf eq_refl Hpos).
Defined.

(** ** Further properties of the lighten blend *)

Lemma blendLighten_uint8_rows a b :
  wf a -> wf b -> dtype a = uint8 -> dtype b = uint8 -> shape a = shape b ->
  blendLighten a b
  = Ok (mkArr uint8 (ncols a) (zip_with (zip_with Z.max) (rows a) (rows b))).
Proof.
  destruct a as [dta n ra], b as [dtb nb rb]. unfold wf, shape, nrows. simpl.
  intros Ha Hb -> -> [= Hlen <-].
  assert (astype int16 (mkArr uint8 n ra) = mkArr int16 n ra) as Hcast.
  { unfold astype. simpl. f_equal.
    apply (wrap_rows_id int16 n), row_ok_uint8_int16, Ha. }
  pose proof (row_ok_length _ _ _ Ha) as Hla.
  pose proof (row_ok_length _ _ _ Hb) as Hlb.
  unfold blendLighten. rewrite Hcast.
  rewrite (np_binop_same_shape Z.sub (mkArr int16 n ra) (mkArr uint8 n rb))
    by (try done; unfold shape, nrows; simpl; congruence).
  simpl. unfold clear_positive. simpl.
  rewrite np_binop_same_shape; simpl.
  2: done.
  2: { apply Forall_fmap, Forall_lookup. intros i r Hr. simpl.
       rewrite length_map.
       exact (Forall_lookup_1 _ _ _ _ (length_zip_rows _ n ra rb Hla Hlb) Hr). }
  2: { unfold shape, nrows. simpl. rewrite length_map, length_zip_with.
       f_equal. lia. }
  unfold astype. simpl. do 2 f_equal.
  apply list_eq. intros r.
  rewrite list_lookup_fmap, !lookup_zip_with, list_lookup_fmap, lookup_zip_with.
  destruct (ra !! r) as [xa|] eqn:Hxa; simpl; [| done].
  destruct (rb !! r) as [xb|] eqn:Hxb; simpl; [| done].
  f_equal. apply list_eq. intros c.
  rewrite list_lookup_fmap, !lookup_zip_with, list_lookup_fmap, lookup_zip_with.
  destruct (xa !! c) as [x|] eqn:Hx; simpl; [| done].
  destruct (xb !! c) as [y|] eqn:Hy; simpl; [| done].
  f_equal. apply lighten_px.
  - apply (px_row_ok uint8 n ra r c). { done. } by rewrite Hxa.
  - apply (px_row_ok uint8 n rb r c). { done. } by rewrite Hxb.
Qed.

Lemma zip_rows_comm (l k : list (list Z)) :
  zip_with (zip_with Z.max) l k = zip_with (zip_with Z.max) k l.
Proof.
  apply list_eq. intros r. rewrite !lookup_zip_with.
  destruct (l !! r) as [x|], (k !! r) as [y|]; simpl; try done.
  f_equal. apply list_eq. intros c. rewrite !lookup_zip_with.
  destruct (x !! c), (y !! c); simpl; try done. f_equal. lia.
Qed.

Lemma zip_rows_diag (l : list (list Z)) : zip_with (zip_with Z.max) l l = l.
Proof.
  apply list_eq. intros r. rewrite lookup_zip_with.
  destruct (l !! r) as [x|]; simpl; [| done].
  f_equal. apply list_eq. intros c. rewrite lookup_zip_with.
  destruct (x !! c); simpl; [| done]. f_equal. lia.
Qed.

(** X4. On two 8-bit unsigned arrays of one shape the lighten blend does
    not depend on the order of its arguments. *)
Theorem blendLighten_comm a b :
  wf a -> wf b -> dtype a = uint8 -> dtype b = uint8 -> shape a = shape b ->
  blendLighten a b = blendLighten b a.
Proof.
  intros Ha Hb Hda Hdb Hs.
  rewrite (blendLighten_uint8_rows a b), (blendLighten_uint8_rows b a) by done.
  rewrite zip_rows_comm. do 2 f_equal. unfold shape in Hs. congruence.
Qed.

Lemma arr_a_wf : wf arr_a.
Proof. unfold wf, in_range, iinfo_min, iinfo_max. simpl. repeat constructor; lia. Qed.

Lemma arr_b_wf : wf arr_b.
Proof. unfold wf, in_range, iinfo_min, iinfo_max. simpl. repeat constructor; lia. Qed.

Lemma blendLighten_comm_witness :
  wf arr_a /\ wf arr_b /\ dtype arr_a = uint8 /\ dtype arr_b = uint8
  /\ shape arr_a = shape arr_b
  /\ blendLighten arr_a arr_b = blendLighten arr_b arr_a.
Proof.
  split; [exact arr_a_wf |]. split; [exact arr_b_wf |].
  do 3 (split; [reflexivity |]).
  exact (blendLighten_comm arr_a arr_b arr_a_wf arr_b_wf eq_refl eq_refl eq_refl).
Defined.

(** X5. Blending an 8-bit unsigned array with itself returns the array. *)
Theorem blendLighten_self a :
  wf a -> dtype a = uint8 -> blendLighten a a = Ok a.
Proof.
  intros Ha Hda.
  rewrite blendLighten_uint8_rows by done.
  rewrite zip_rows_diag. destruct a as [dt n l]. simpl in *. by subst dt.
Qed.

Lemma blendLighten_self_witness :
  wf arr_a /\ dtype arr_a = uint8 /\ blendLighten arr_a arr_a = Ok arr_a.
Proof.
  split; [exact arr_a_wf |]. split; [reflexivity |].
  exact (blendLighten_self arr_a arr_a_wf eq_refl).
Defined.

Lemma blend_rows_wf a b :
  wf a -> wf b -> dtype a = uint8 -> dtype b = uint8 -> shape a = shape b ->
  wf (mkArr uint8 (ncols a) (zip_with (zip_with Z.max) (rows a) (rows b))).
Proof.
  intros Ha Hb Hda Hdb Hs. unfold shape in Hs. injection Hs as Hr Hc.
  unfold wf in *. rewrite Hda in Ha. rewrite Hdb, <- Hc in Hb. simpl.
  apply Forall_lookup. intros r row Hrow.
  apply lookup_zip_with_Some in Hrow as (x & y & -> & Hx & Hy).
  destruct (Forall_lookup_1 _ _ _ _ Ha Hx) as [Hlx Hrx].
  destruct (Forall_lookup_1 _ _ _ _ Hb Hy) as [Hly Hry].
  split; [rewrite length_zip_with; lia |].
  apply Forall_lookup. intros c v Hv.
  apply lookup_zip_with_Some in Hv as (p & q & -> & Hp & Hq).
  pose proof (Forall_lookup_1 _ _ _ _ Hrx Hp) as [? ?].
  pose proof (Forall_lookup_1 _ _ _ _ Hry Hq) as [? ?].
  split; lia.
Qed.

Lemma zip_rows_assoc (l k m : list (list Z)) :
  zip_with (zip_with Z.max) (zip_with (zip_with Z.max) l k) m
  = zip_with (zip_with Z.max) l (zip_with (zip_with Z.max) k m).
Proof.
  apply list_eq. intros r. rewrite !lookup_zip_with.
  destruct (l !! r) as [x|], (k !! r) as [y|], (m !! r) as [z|]; simpl; try done.
  f_equal. apply list_eq. intros c. rewrite !lookup_zip_with.
  destruct (x !! c), (y !! c), (z !! c); simpl; try done. f_equal. lia.
Qed.

(** X6. Blending three 8-bit unsigned arrays of one shape gives the same
    array whichever two are blended first. *)
Theorem blendLighten_assoc a b c :
  wf a -> wf b -> wf c ->
  dtype a = uint8 -> dtype b = uint8 -> dtype c = uint8 ->
  shape a = shape b -> shape b = shape c ->
  (ab ← blendLighten a b; blendLighten ab c)
  = (bc ← blendLighten b c; blendLighten a bc).
Proof.
  intros Ha Hb Hc Hda Hdb Hdc Hab Hbc.
  rewrite (blendLighten_uint8_rows a b), (blendLighten_uint8_rows b c) by done.
  cbn [mbind result_bind].
  pose proof (blend_rows_wf a b Ha Hb Hda Hdb Hab) as Hwab.
  pose proof (blend_rows_wf b c Hb Hc Hdb Hdc Hbc) as Hwbc.
  assert (nrows a = nrows b /\ ncols a = ncols b) as [Hr1 Hc1]
    by (unfold shape in Hab; by injection Hab).
  assert (nrows b = nrows c /\ ncols b = ncols c) as [Hr2 Hc2]
    by (unfold shape in Hbc; by injection Hbc).
  assert (forall (l k : list (list Z)),
            length (zip_with (zip_with Z.max) l k) = (length l `min` length k)%nat)
    as Hlen by (intros; apply length_zip_with).
  rewrite !blendLighten_uint8_rows; try done.
  - simpl. by rewrite zip_rows_assoc, Hc1.
  - unfold shape, nrows in *. simpl. rewrite Hlen. f_equal; lia.
  - unfold shape, nrows in *. simpl. rewrite Hlen. f_equal; lia.
Qed.

Lemma blendLighten_assoc_witness :
  wf arr_a /\ wf arr_b /\ wf arr_a
  /\ dtype arr_a = uint8 /\ dtype arr_b = uint8 /\ dtype arr_a = uint8
  /\ shape arr_a = shape arr_b /\ shape arr_b = shape arr_a
  /\ (ab ← blendLighten arr_a arr_b; blendLighten ab arr_a)
     = (bc ← blendLighten arr_b arr_a; blendLighten arr_a bc).
Proof.
  split; [exact arr_a_wf |]. split; [exact arr_b_wf |]. split; [exact arr_a_wf |].
  do 5 (split; [reflexivity |]).
  exact (blendLighten_assoc arr_a arr_b arr_a arr_a_wf arr_b_wf arr_a_wf
           eq_refl eq_refl eq_refl eq_refl eq_refl).
Defined.

Lemma bdim_absorb m n k : bdim m n = Some k -> bdim m k = Some k.
Proof.
  unfold bdim. repeat case_decide; intros [= <-]; repeat case_decide; congruence.
Qed.

Lemma length_stretch_left {A} m n k (l : list A) :
  length l = m -> bdim m n = Some k -> length (stretch k l) = k.
Proof.
  intros Hl. unfold bdim, stretch.
  repeat case_decide; intros [= <-]; try done; try congruence.
  destruct l as [|x [|y l]]; simpl in *; try lia. by rewrite length_replicate.
Qed.

Lemma length_stretch_right {A} m n k (l : list A) :
  length l = n -> bdim m n = Some k -> length (stretch k l) = k.
Proof.
  intros Hl. unfold bdim, stretch.
  repeat case_decide; intros [= <-]; try done; try congruence.
  destruct l as [|x [|y l]]; simpl in *; try lia. by rewrite length_replicate.
Qed.

(** X7. The lighten blend raises [ValueError] exactly when the two shapes
    cannot be broadcast together; otherwise it returns an 8-bit unsigned
    array of the broadcast shape, whatever the types of its arguments. *)
Theorem blendLighten_broadcast a b :
  match broadcast_shapes (shape a) (shape b) with
  | None => blendLighten a b = Raise ValueError
  | Some sh =>
      exists out, blendLighten a b = Ok out /\ dtype out = uint8 /\ shape out = sh
  end.
Proof.
  unfold blendLighten, np_binop.
  change (shape (astype int16 a)) with (nrows (astype int16 a), ncols a).
  assert (nrows (astype int16 a) = nrows a) as ->
    by (unfold nrows, astype; simpl; apply length_map).
  fold (shape a).
  destruct (broadcast_shapes (shape a) (shape b)) as [[r c]|] eqn:Hsh; [| done].
  cbn [mbind result_bind].
  unfold broadcast_shapes in Hsh. simpl in Hsh.
  destruct (bdim (nrows a) (nrows b)) as [r'|] eqn:Hr; [| done]. simpl in Hsh.
  destruct (bdim (ncols a) (ncols b)) as [c'|] eqn:Hc; [| done].
  simpl in Hsh. injection Hsh as -> ->.
  assert (length (broadcast_to (r, c) (astype int16 a)) = r) as La.
  { unfold broadcast_to. simpl.
    apply (length_stretch_left (nrows a) (nrows b)); [| done].
    unfold nrows. by rewrite length_fmap, length_map. }
  assert (length (broadcast_to (r, c) b) = r) as Lb.
  { unfold broadcast_to. simpl.
    apply (length_stretch_right (nrows a) (nrows b)); [| done].
    unfold nrows. by rewrite length_fmap. }
  set (temp := clear_positive 0 _).
  assert (nrows temp = r) as Hnt.
  { unfold nrows, temp, clear_positive. simpl.
    rewrite length_map, length_zip_with, La, Lb. lia. }
  assert (shape temp = (r, c)) as -> by (unfold shape; by rewrite Hnt).
  unfold broadcast_shapes. simpl.
  rewrite (bdim_absorb _ _ _ Hr). simpl. rewrite (bdim_absorb _ _ _ Hc). simpl.
  eexists. split; [done |]. split; [done |].
  unfold shape, nrows, astype at 1. simpl.
  rewrite length_map, length_zip_with, La. f_equal.
  assert (length (broadcast_to (r, c) temp) = r) as ->; [| lia].
  unfold broadcast_to. simpl.
  apply (length_stretch_left r r); [| apply bdim_same].
  by rewrite length_fmap.
Qed.

Example ex_blend_shapes :
  blendLighten (mkArr uint8 2 [[1; 2]; [3; 4]; [5; 6]]) (mkArr uint8 2 [[1; 2]; [3; 4]])
  = Raise ValueError
  /\ blendLighten (mkArr uint8 2 [[1; 9]; [3; 4]; [5; 6]]) (mkArr uint8 2 [[2; 5]])
     = Ok (mkArr uint8 2 [[2; 9]; [3; 5]; [5; 6]]).
Proof. split; reflexivity. Qed.

Local Open Scope Q_scope.

(** ** Exact float steps on integers *)

Lemma fround_int_value q z :
  (Z.abs z <= 2 ^ 53)%Z -> q == inject_Z z ->
  exists r, fround q = Fin r /\ r == inject_Z z.
Proof.
  intros Hz Hq.
  destruct (fround_between z z q) as (r & Hr & _ & H1 & H2);
    [done | done | rewrite Hq; lra | rewrite Hq; lra |].
  exists r. split; [done | lra].
Qed.

Lemma fround_zero q : q == 0 -> fround q = Fin 0.
Proof. intros Hq. unfold fround. by rewrite (round64_zero q Hq). Qed.

Lemma representable_proper p q : p == q -> representable p -> representable q.
Proof.
  intros Hpq (m & k & Hp & Hm & Hk). exists m, k. split; [| done]. by rewrite <- Hpq.
Qed.

(** A float that is not zero is at least 2^-1074 away from zero. *)
Lemma float_away_from_zero d :
  representable d -> ~ d == 0 -> d <= - pow2 (-1074) \/ pow2 (-1074) <= d.
Proof.
  intros Hd Hnz. destruct (Qlt_le_dec d 0) as [Hneg | Hpos].
  - left. pose proof (representable_gap d 0 Hd representable_0 Hneg). lra.
  - right. assert (0 < d) as Hlt by (apply Qnot_le_lt; intros H; apply Hnz; lra).
    pose proof (representable_gap 0 d representable_0 Hd Hlt). lra.
Qed.

Lemma fround_representable q r : fround q = Fin r -> representable r.
Proof.
  intros Hr. apply fround_Fin in Hr.
  apply (representable_proper (round64 q)); [by symmetry |].
  apply round64_representable.
Qed.

(** ** Further properties of brightness and contrast *)

Lemma as_float_259 : as_float 259 = Fin 259.
Proof. vm_compute. reflexivity. Qed.

Lemma contrast_divisor_nonzero c :
  finite_float c -> ~ c == 259 ->
  is_zero (fmul (Fin 255) (fsub (Fin 259) (as_float c))) = false.
Proof.
  intros Hc Hne.
  assert (finite_float 259) as H259 by (apply (finite_float_int 259); done).
  pose proof (fsub_nonzero 259 c H259 Hc) as Hnz.
  rewrite as_float_259 in Hnz.
  specialize (Hnz ltac:(intros H; apply Hne; by symmetry)).
  unfold as_float in *.
  change (fsub (Fin 259) (Fin ?x)) with (fround (259 + - x)) in *.
  destruct (fround (259 + - Qred (round64 c))) as [d| | |] eqn:Hd; try done.
  unfold is_zero in Hnz.
  assert (~ d == 0) as Hd0.
  { intros H. apply Qeq_bool_iff in H. congruence. }
  change (fmul (Fin 255) (Fin d)) with (fround (255 * d)).
  destruct (float_away_from_zero d (fround_representable _ _ Hd) Hd0) as [Hn | Hp].
  - pose proof (pow2_pos (-1074)).
    destruct (fround_negative_gap (255 * d)) as [-> | (r & -> & Hr)];
      [lra | done |].
    unfold is_zero. apply Qeq_bool_false. lra.
  - pose proof (pow2_pos (-1074)).
    destruct (fround_positive_gap (255 * d)) as [-> | (r & -> & Hr)];
      [lra | done |].
    unfold is_zero. apply Qeq_bool_false. lra.
Qed.

(** X8. For float arguments, [applyBrightnessAndContrast] raises
    [ZeroDivisionError] when the contrast is 259 and otherwise returns an
    image of the input's storage type and shape. *)
Theorem applyBrightnessAndContrast_defined invalid_cast img brightness contrast :
  finite_float brightness -> finite_float contrast ->
  (contrast == 259 ->
     applyBrightnessAndContrast invalid_cast img brightness contrast
     = Raise ZeroDivisionError)
  /\ (~ contrast == 259 ->
        exists out,
          applyBrightnessAndContrast invalid_cast img brightness contrast = Ok out
          /\ dtype out = dtype img /\ shape out = shape img).
Proof.
  intros Hb Hc.
  destruct (pyfloat_finite contrast Hc) as [Hpc Hvc].
  destruct (pyfloat_finite brightness Hb) as [Hpb _].
  unfold applyBrightnessAndContrast. rewrite Hpc. cbn [mbind result_bind].
  split.
  - intros H259. unfold as_float.
    change (fsub (Fin 259) (Fin ?x)) with (fround (259 + - x)).
    rewrite (fround_zero (259 + - Qred (round64 contrast))) by (rewrite Hvc, H259; ring).
    change (fmul (Fin 255) (Fin 0)) with (Fin 0).
    unfold pydiv. change (is_zero (Fin 0)) with true. done.
  - intros Hne. rewrite pydiv_nonzero by (by apply contrast_divisor_nonzero).
    cbn [mbind result_bind]. rewrite Hpb. cbn [mbind result_bind].
    eexists. split; [done |]. split; [done |].
    unfold shape, nrows, farray_astype, fmap2, to_float.
    cbn [rows ncols f_rows f_ncols]. by rewrite !length_map.
Qed.

Lemma applyBrightnessAndContrast_defined_witness :
  finite_float 10 /\ finite_float 259
  /\ (259 == 259 ->
        applyBrightnessAndContrast x86_cast img3 10 259 = Raise ZeroDivisionError)
  /\ (~ 259 == 259 ->
        exists out,
          applyBrightnessAndContrast x86_cast img3 10 259 = Ok out
          /\ dtype out = dtype img3 /\ shape out = shape img3).
Proof.
  assert (finite_float 10) as H10 by (apply (finite_float_int 10); done).
  assert (finite_float 259) as H259 by (apply (finite_float_int 259); done).
  split; [exact H10 |]. split; [exact H259 |].
  exact (applyBrightnessAndContrast_defined x86_cast img3 10 259 H10 H259).
Defined.

Lemma rows_map_ext (h : Z -> Z) (g : Z -> Z) (P : Z -> Prop) (l : list (list Z)) :
  Forall (Forall P) l -> (forall v, P v -> h v = g v) ->
  map (map h) l = map (map g) l.
Proof.
  intros Hl Hh. induction Hl as [|row l Hrow _ IH]; simpl; [done |].
  rewrite IH. f_equal.
  induction Hrow as [|v row Hv _ IHr]; simpl; [done |].
  by rewrite Hh, IHr.
Qed.

Lemma rows_map_id (l : list (list Z)) : map (map (fun v : Z => v)) l = l.
Proof.
  induction l as [|row l IH]; simpl; [done |]. by rewrite IH, map_id.
Qed.

Lemma wf_rows_and a (P : Z -> Prop) :
  wf a -> Forall (Forall P) (rows a) ->
  Forall (Forall (fun v => in_range (dtype a) v /\ P v)) (rows a).
Proof.
  intros Hwf HP. apply Forall_lookup. intros r row Hrow.
  destruct (Forall_lookup_1 _ _ _ _ Hwf Hrow) as [_ Hrange].
  pose proof (Forall_lookup_1 _ _ _ _ HP Hrow) as Hp.
  apply Forall_lookup. intros c v Hv.
  split; [exact (Forall_lookup_1 _ _ _ _ Hrange Hv) | exact (Forall_lookup_1 _ _ _ _ Hp Hv)].
Qed.

Lemma wf_rows_range a :
  wf a -> Forall (Forall (in_range (dtype a))) (rows a).
Proof.
  intros Hwf. eapply Forall_impl; [exact Hwf |]. by intros row [_ H].
Qed.

Lemma clip_byte_keep q :
  0 <= q -> q <= 255 -> fclip (Fin 0) (Fin 255) (Fin q) = Fin q.
Proof.
  intros H0 H1. unfold fclip, fmax, fltb.
  rewrite (proj2 (Qltb_ge q 0)) by done. unfold fmin, fltb.
  by rewrite (proj2 (Qltb_ge 255 q)) by done.
Qed.

Lemma neutral_factor :
  pyfloat 0 = Ok (Fin 0)
  /\ pydiv (fmul (Fin 259) (fadd (Fin 0) (Fin 255)))
           (fmul (Fin 255) (fsub (Fin 259) (Fin 0))) = Ok (Fin 1).
Proof. split; vm_compute; reflexivity. Qed.

Lemma neutral_px invalid_cast dt v :
  in_range dt v -> (0 <= v <= 255)%Z ->
  to_int invalid_cast dt
    (fclip (Fin 0) (Fin 255)
       (fadd (fmul (Fin 1) (fsub (fadd (of_int v) (Fin 0)) (Fin 128))) (Fin 128)))
  = v.
Proof.
  intros Hr Hv. unfold of_int, fsub, fneg.
  change (fadd (Fin (inject_Z v)) (Fin 0)) with (fround (inject_Z v + 0)).
  destruct (fround_int_value (inject_Z v + 0) v) as (s & -> & Hs); [lia | ring |].
  change (fadd (Fin s) (Fin (Qopp 128))) with (fround (s + Qopp 128)).
  destruct (fround_int_value (s + Qopp 128) (v - 128)) as (t & -> & Ht); [lia | |].
  { rewrite Hs. unfold Z.sub. rewrite inject_Z_plus, inject_Z_opp. reflexivity. }
  change (fmul (Fin 1) (Fin t)) with (fround (1 * t)).
  destruct (fround_int_value (1 * t) (v - 128)) as (m & -> & Hm); [lia | |].
  { rewrite Ht. ring. }
  change (fadd (Fin m) (Fin 128)) with (fround (m + 128)).
  destruct (fround_int_value (m + 128) v) as (u & -> & Hu); [lia | |].
  { rewrite Hm. unfold Z.sub. rewrite inject_Z_plus, inject_Z_opp.
    change (inject_Z 128) with 128. ring. }
  assert (0 <= inject_Z v /\ inject_Z v <= 255) as [H0 H1].
  { change 0 with (inject_Z 0). change 255 with (inject_Z 255).
    rewrite <- !Zle_Qle. lia. }
  rewrite clip_byte_keep by (rewrite Hu; done).
  unfold to_int. rewrite (Qtrunc_eq_int u v Hu). by apply wrap_in_range.
Qed.

(** X9. With brightness 0 and contrast 0, [applyBrightnessAndContrast]
    returns an image whose samples all lie in 0..255 (every 8-bit unsigned
    image) as it is. *)
Theorem applyBrightnessAndContrast_neutral invalid_cast img :
  wf img -> Forall (Forall (fun v => (0 <= v <= 255)%Z)) (rows img) ->
  applyBrightnessAndContrast invalid_cast img 0 0 = Ok img.
Proof.
  intros Hwf Hbyte. destruct neutral_factor as [Hp Hf].
  unfold applyBrightnessAndContrast. rewrite Hp. cbn [mbind result_bind].
  rewrite Hf. cbn [mbind result_bind].
  destruct img as [dt nc l]. f_equal.
  unfold farray_astype, fmap2, to_float. cbn [rows ncols dtype f_rows f_ncols].
  f_equal. rewrite !map_map.
  rewrite <- (rows_map_id l) at 2.
  erewrite map_ext; [eapply rows_map_ext; [exact (wf_rows_and _ _ Hwf Hbyte) |] |].
  2: { intros row. rewrite !map_map. reflexivity. }
  intros v [Hr Hv]. simpl. by apply neutral_px.
Qed.

Lemma applyBrightnessAndContrast_neutral_witness :
  wf img4 /\ Forall (Forall (fun v => (0 <= v <= 255)%Z)) (rows img4)
  /\ applyBrightnessAndContrast x86_cast img4 0 0 = Ok img4.
Proof.
  assert (Forall (Forall (fun v => (0 <= v <= 255)%Z)) (rows img4)) as H.
  { simpl. repeat constructor; lia. }
  split; [exact img4_wf |]. split; [exact H |].
  exact (applyBrightnessAndContrast_neutral x86_cast img4 img4_wf H).
Defined.

(** ** Brightness alone *)

Lemma shift_px invalid_cast dt B b v :
  in_range dt v -> (-255 <= b <= 255)%Z -> B == inject_Z b ->
  to_int invalid_cast dt
    (fclip (Fin 0) (Fin 255)
       (fadd (fmul (Fin 1) (fsub (fadd (of_int v) (Fin B)) (Fin 128))) (Fin 128)))
  = wrap dt (Z.min (Z.max (v + b) 0) 255).
Proof.
  intros Hr Hb HB.
  assert (-2147483648 <= v <= 2147483647)%Z as Hv.
  { unfold in_range, iinfo_min, iinfo_max in Hr. destruct dt; simpl in Hr; lia. }
  unfold of_int, fsub, fneg.
  change (fadd (Fin (inject_Z v)) (Fin B)) with (fround (inject_Z v + B)).
  destruct (fround_int_value (inject_Z v + B) (v + b)) as (s & -> & Hs); [lia | |].
  { by rewrite HB, inject_Z_plus. }
  change (fadd (Fin s) (Fin (Qopp 128))) with (fround (s + Qopp 128)).
  destruct (fround_int_value (s + Qopp 128) (v + b - 128)) as (t & -> & Ht); [lia | |].
  { rewrite Hs. unfold Z.sub. rewrite !inject_Z_plus, inject_Z_opp. reflexivity. }
  change (fmul (Fin 1) (Fin t)) with (fround (1 * t)).
  destruct (fround_int_value (1 * t) (v + b - 128)) as (m & -> & Hm); [lia | |].
  { rewrite Ht. ring. }
  change (fadd (Fin m) (Fin 128)) with (fround (m + 128)).
  destruct (fround_int_value (m + 128) (v + b)) as (u & -> & Hu); [lia | |].
  { rewrite Hm. unfold Z.sub. rewrite !inject_Z_plus, inject_Z_opp.
    change (inject_Z 128) with 128. ring. }
  unfold fclip, fmax, fltb.
  destruct (Qltb u 0) eqn:H0.
  - apply Qltb_lt in H0. rewrite Hu in H0.
    change 0 with (inject_Z 0) in H0. rewrite <- Zlt_Qlt in H0.
    unfold fmin, fltb. change (Qltb 255 0) with false. cbv iota.
    unfold to_int. change (Qtrunc 0) with 0%Z. f_equal. lia.
  - apply Qltb_ge in H0. rewrite Hu in H0.
    change 0 with (inject_Z 0) in H0. rewrite <- Zle_Qle in H0.
    unfold fmin, fltb.
    destruct (Qltb 255 u) eqn:H1.
    + apply Qltb_lt in H1. rewrite Hu in H1.
      change 255 with (inject_Z 255) in H1. rewrite <- Zlt_Qlt in H1.
      unfold to_int. change (Qtrunc 255) with 255%Z. f_equal. lia.
    + apply Qltb_ge in H1. rewrite Hu in H1.
      change 255 with (inject_Z 255) in H1. rewrite <- Zle_Qle in H1.
      unfold to_int. rewrite (Qtrunc_eq_int u (v + b) Hu). f_equal. lia.
Qed.

(** X10. With contrast 0 and an integer brightness [b] in -255..255,
    [applyBrightnessAndContrast] adds [b] to every sample and clips the sum
    to 0..255 before storing it in the input's type. *)
Theorem applyBrightnessAndContrast_shift invalid_cast img b :
  wf img -> (-255 <= b <= 255)%Z ->
  applyBrightnessAndContrast invalid_cast img (inject_Z b) 0
  = Ok (mkArr (dtype img) (ncols img)
          (map (map (fun v => wrap (dtype img) (Z.min (Z.max (v + b) 0) 255)))
               (rows img))).
Proof.
  intros Hwf Hb. destruct neutral_factor as [Hp Hf].
  destruct (fround_int_value (inject_Z b) b) as (B & HB & HBb); [lia | reflexivity |].
  unfold applyBrightnessAndContrast. rewrite Hp. cbn [mbind result_bind].
  rewrite Hf. cbn [mbind result_bind].
  unfold pyfloat. rewrite HB. cbn [mbind result_bind].
  f_equal. unfold farray_astype, fmap2, to_float.
  cbn [rows ncols dtype f_rows f_ncols]. f_equal.
  rewrite !map_map.
  erewrite map_ext; [eapply rows_map_ext; [exact (wf_rows_range _ Hwf) |] |].
  2: { intros row. rewrite !map_map. reflexivity. }
  intros v Hv. simpl. by apply shift_px.
Qed.

Lemma applyBrightnessAndContrast_shift_witness :
  wf img4 /\ (-255 <= 200 <= 255)%Z
  /\ applyBrightnessAndContrast x86_cast img4 (inject_Z 200) 0
     = Ok (mkArr (dtype img4) (ncols img4)
             (map (map (fun v => wrap (dtype img4) (Z.min (Z.max (v + 200) 0) 255)))
                  (rows img4))).
Proof.
  assert (-255 <= 200 <= 255)%Z as H by lia.
  split; [exact img4_wf |]. split; [exact H |].
  exact (applyBrightnessAndContrast_shift x86_cast img4 200 img4_wf H).
Defined.

Example ex_shift :
  applyBrightnessAndContrast x86_cast img4 200 0
  = Ok (mkArr uint8 2 [[201; 202]; [230; 204]; [205; 255]; [207; 208]]%Z).
Proof. vm_compute. reflexivity. Qed.

Lemma gray_factor :
  pyfloat (-255) = Ok (Fin (-255))
  /\ pydiv (fmul (Fin 259) (fadd (Fin (-255)) (Fin 255)))
           (fmul (Fin 255) (fsub (Fin 259) (Fin (-255)))) = Ok (Fin 0).
Proof. split; vm_compute; reflexivity. Qed.

Lemma int32_bounds dt v :
  in_range dt v -> -2147483648 <= inject_Z v /\ inject_Z v <= 2147483647.
Proof.
  intros Hv.
  assert (-2147483648 <= v <= 2147483647)%Z as Hv'.
  { unfold in_range, iinfo_min, iinfo_max in Hv. destruct dt; simpl in Hv; lia. }
  change (-2147483648) with (inject_Z (-2147483648)).
  change 2147483647 with (inject_Z 2147483647). rewrite <- !Zle_Qle. lia.
Qed.

Lemma gray_px invalid_cast dt b v :
  in_range dt v -> -255 <= b -> b <= 255 ->
  to_int invalid_cast dt
    (fclip (Fin 0) (Fin 255)
       (fadd (fmul (Fin 0) (fsub (fadd (of_int v) (Fin b)) (Fin 128))) (Fin 128)))
  = wrap dt 128.
Proof.
  intros Hv Hb1 Hb2. destruct (int32_bounds dt v Hv) as [Hv1 Hv2].
  unfold fsub, fneg, of_int.
  change (fadd (Fin (inject_Z v)) (Fin b)) with (fround (inject_Z v + b)).
  destruct (fround_between (-2147483903) 2147483902 (inject_Z v + b))
    as (s & -> & _ & Hs1 & Hs2);
    [done | done | literal_bounds; lra | literal_bounds; lra |].
  change (fadd (Fin s) (Fin (Qopp 128))) with (fround (s + Qopp 128)).
  destruct (fround_between (-2147484031) 2147483774 (s + Qopp 128))
    as (t & -> & _ & _ & _);
    [done | done | literal_bounds; lra | literal_bounds; lra |].
  change (fmul (Fin 0) (Fin t)) with (fround (0 * t)).
  rewrite (fround_zero (0 * t)) by ring.
  reflexivity.
Qed.

(** X11. At contrast -255, the lower end of the documented range, the
    contrast factor is 0 and every sample of the result is 128 (stored in
    the input's type: -128 in a signed 8-bit image), whatever the image and
    the brightness within -255..255. *)
Theorem applyBrightnessAndContrast_gray invalid_cast img brightness :
  -255 <= brightness -> brightness <= 255 ->
  wf img ->
  applyBrightnessAndContrast invalid_cast img brightness (-255)
  = Ok (mkArr (dtype img) (ncols img)
          (map (map (fun _ => wrap (dtype img) 128)) (rows img))).
Proof.
  intros Hb1 Hb2 Hwf. destruct gray_factor as [Hp Hf].
  destruct (fround_between (-255) 255 brightness) as (b & Hb & _ & Hbl & Hbh);
    [done | done | exact Hb1 | exact Hb2 |].
  unfold applyBrightnessAndContrast. rewrite Hp. cbn [mbind result_bind].
  rewrite Hf. cbn [mbind result_bind].
  unfold pyfloat. rewrite Hb. cbn [mbind result_bind].
  f_equal. unfold farray_astype, fmap2, to_float.
  cbn [rows ncols dtype f_rows f_ncols]. f_equal.
  rewrite !map_map.
  erewrite map_ext; [eapply rows_map_ext; [exact (wf_rows_range _ Hwf) |] |].
  2: { intros row. rewrite !map_map. reflexivity. }
  intros v Hv. simpl. by apply gray_px.
Qed.

Lemma applyBrightnessAndContrast_gray_witness :
  -255 <= 40 /\ 40 <= 255 /\ wf img4
  /\ applyBrightnessAndContrast x86_cast img4 40 (-255)
     = Ok (mkArr (dtype img4) (ncols img4)
             (map (map (fun _ => wrap (dtype img4) 128)) (rows img4))).
Proof.
  assert (-255 <= 40) as H1 by discriminate.
  assert (40 <= 255) as H2 by discriminate.
  split; [exact H1 |]. split; [exact H2 |]. split; [exact img4_wf |].
  exact (applyBrightnessAndContrast_gray x86_cast img4 40 H1 H2 img4_wf).
Defined.

Example ex_gray :
  applyBrightnessAndContrast x86_cast img4 40 (-255)
  = Ok (mkArr uint8 2 [[128; 128]; [128; 128]; [128; 128]; [128; 128]]%Z).
Proof. vm_compute. reflexivity. Qed.

Lemma contrast_factor_bounds contrast :
  -255 <= contrast -> contrast <= 255 ->
  exists c f,
    pyfloat contrast = Ok (Fin c)
    /\ pydiv (fmul (Fin 259) (fadd (Fin c) (Fin 255)))
             (fmul (Fin 255) (fsub (Fin 259) (Fin c))) = Ok (Fin f)
    /\ 0 <= f /\ f <= 130.
Proof.
  intros Hc1 Hc2.
  destruct (fround_between (-255) 255 contrast) as (c & Hc & _ & Hcl & Hch);
    [done | done | exact Hc1 | exact Hc2 |].
  exists c. unfold pyfloat. rewrite Hc.
  unfold fsub, fneg, fadd, fmul.
  destruct (fround_between 0 510 (c + 255)) as (n1 & -> & _ & Hn1l & Hn1h);
    [done | done | literal_bounds; lra | literal_bounds; lra |].
  destruct (fround_between 0 132090 (259 * n1)) as (n2 & -> & _ & Hn2l & Hn2h);
    [done | done | literal_bounds; lra | literal_bounds; lra |].
  destruct (fround_between 4 514 (259 + - c)) as (d1 & -> & _ & Hd1l & Hd1h);
    [done | done | literal_bounds; lra | literal_bounds; lra |].
  destruct (fround_between 1020 131070 (255 * d1)) as (d2 & -> & _ & Hd2l & Hd2h);
    [done | done | literal_bounds; lra | literal_bounds; lra |].
  literal_bounds.
  unfold pydiv, is_zero, fdiv.
  rewrite Qeq_bool_false by lra.
  destruct (fround_between 0 130 (n2 / d2)) as (f & -> & _ & Hf1 & Hf2);
    [done | done | | |].
  - literal_bounds. apply Qle_shift_div_l; lra.
  - literal_bounds. apply Qle_shift_div_r; lra.
  - exists f. literal_bounds. done.
Qed.

Lemma fround_mono p q r s :
  p <= q -> fround p = Fin r -> fround q = Fin s -> r <= s.
Proof.
  intros Hpq Hr%fround_Fin Hs%fround_Fin. rewrite Hr, Hs. by apply round64_mono.
Qed.

Lemma Qtrunc_mono p q : 0 <= p -> p <= q -> (Qtrunc p <= Qtrunc q)%Z.
Proof.
  intros Hp Hpq.
  assert (forall x, 0 <= x -> Qtrunc x = Qfloor x) as Hfl.
  { intros [n d]. unfold Qle, Qtrunc, Qfloor. simpl. intros Hn.
    apply Z.quot_div_nonneg; lia. }
  rewrite !Hfl by lra. by apply Qfloor_resp_le.
Qed.

Lemma clip_byte_mono u u' :
  u <= u' ->
  exists q q',
    fclip (Fin 0) (Fin 255) (Fin u) = Fin q
    /\ fclip (Fin 0) (Fin 255) (Fin u') = Fin q'
    /\ 0 <= q /\ q <= q' /\ q' <= 255.
Proof.
  intros Hu. unfold fclip, fmax, fmin, fltb.
  destruct (Qltb u 0) eqn:H0, (Qltb u' 0) eqn:H0'.
  all: try apply Qltb_lt in H0; try apply Qltb_ge in H0.
  all: try apply Qltb_lt in H0'; try apply Qltb_ge in H0'.
  all: unfold fltb.
  - change (Qltb 255 0) with false. do 2 eexists. split; [done |]. split; [done |]. lra.
  - change (Qltb 255 0) with false.
    destruct (Qltb 255 u') eqn:H1';
      [apply Qltb_lt in H1' | apply Qltb_ge in H1'];
      do 2 eexists; (split; [done |]); (split; [done |]); lra.
  - lra.
  - destruct (Qltb 255 u) eqn:H1, (Qltb 255 u') eqn:H1'.
    all: try apply Qltb_lt in H1; try apply Qltb_ge in H1.
    all: try apply Qltb_lt in H1'; try apply Qltb_ge in H1'.
    all: try lra.
    all: do 2 eexists; (split; [done |]); (split; [done |]); lra.
Qed.

Lemma wrap_byte dt v : dt <> int8 -> (0 <= v <= 255)%Z -> wrap dt v = v.
Proof.
  intros Hdt Hv. apply wrap_in_range.
  unfold in_range, iinfo_min, iinfo_max. destruct dt; simpl; try lia. done.
Qed.

Lemma contrast_px_mono invalid_cast dt f b v v' :
  dt <> int8 -> in_range dt v -> in_range dt v' ->
  0 <= f -> f <= 130 -> -255 <= b -> b <= 255 -> (v <= v')%Z ->
  (to_int invalid_cast dt
     (fclip (Fin 0) (Fin 255)
        (fadd (fmul (Fin f) (fsub (fadd (of_int v) (Fin b)) (Fin 128))) (Fin 128)))
   <= to_int invalid_cast dt
        (fclip (Fin 0) (Fin 255)
           (fadd (fmul (Fin f) (fsub (fadd (of_int v') (Fin b)) (Fin 128)))
                 (Fin 128))))%Z.
Proof.
  intros Hdt Hv Hv' Hf0 Hf1 Hb1 Hb2 Hle.
  destruct (int32_bounds dt v Hv) as [Hv1 Hv2].
  destruct (int32_bounds dt v' Hv') as [Hv1' Hv2'].
  assert (inject_Z v <= inject_Z v') as Hq by (by rewrite <- Zle_Qle).
  unfold fsub, fneg, of_int.
  change (fadd (Fin (inject_Z ?x)) (Fin b)) with (fround (inject_Z x + b)).
  destruct (fround_between (-2147483903) 2147483902 (inject_Z v + b))
    as (s & Es & _ & Hs1 & Hs2);
    [done | done | literal_bounds; lra | literal_bounds; lra |].
  destruct (fround_between (-2147483903) 2147483902 (inject_Z v' + b))
    as (s' & Es' & _ & Hs1' & Hs2');
    [done | done | literal_bounds; lra | literal_bounds; lra |].
  assert (s <= s') as Hss by (eapply fround_mono; [| exact Es | exact Es']; lra).
  rewrite Es, Es'.
  change (fadd (Fin ?x) (Fin (Qopp 128))) with (fround (x + Qopp 128)).
  destruct (fround_between (-2147484031) 2147483774 (s + Qopp 128))
    as (t & Et & _ & Ht1 & Ht2);
    [done | done | literal_bounds; lra | literal_bounds; lra |].
  destruct (fround_between (-2147484031) 2147483774 (s' + Qopp 128))
    as (t' & Et' & _ & Ht1' & Ht2');
    [done | done | literal_bounds; lra | literal_bounds; lra |].
  assert (t <= t') as Htt by (eapply fround_mono; [| exact Et | exact Et']; lra).
  rewrite Et, Et'.
  change (fmul (Fin f) (Fin ?x)) with (fround (f * x)).
  literal_bounds.
  destruct (fround_between (-279172924030) 279172924030 (f * t))
    as (m & Em & _ & Hm1 & Hm2);
    [done | done | literal_bounds; nra | literal_bounds; nra |].
  destruct (fround_between (-279172924030) 279172924030 (f * t'))
    as (m' & Em' & _ & Hm1' & Hm2');
    [done | done | literal_bounds; nra | literal_bounds; nra |].
  assert (m <= m') as Hmm by (eapply fround_mono; [| exact Em | exact Em']; nra).
  rewrite Em, Em'.
  change (fadd (Fin ?x) (Fin 128)) with (fround (x + 128)).
  literal_bounds.
  destruct (fround_between (-279172923902) 279172924158 (m + 128))
    as (u & Eu & _ & _ & _);
    [done | done | literal_bounds; lra | literal_bounds; lra |].
  destruct (fround_between (-279172923902) 279172924158 (m' + 128))
    as (u' & Eu' & _ & _ & _);
    [done | done | literal_bounds; lra | literal_bounds; lra |].
  assert (u <= u') as Huu by (eapply fround_mono; [| exact Eu | exact Eu']; lra).
  rewrite Eu, Eu'.
  destruct (clip_byte_mono u u' Huu) as (q & q' & -> & -> & Hq0 & Hqq & Hq1).
  unfold to_int.
  assert (q <= inject_Z 255 /\ 0 <= q' /\ q' <= inject_Z 255) as (Hq255 & Hq0' & Hq255').
  { change (inject_Z 255) with 255. lra. }
  pose proof (Qtrunc_bounds q 255 Hq0 Hq255) as Hb.
  pose proof (Qtrunc_bounds q' 255 Hq0' Hq255') as Hb'.
  rewrite !wrap_byte by done.
  by apply Qtrunc_mono.
Qed.

Lemma px_farray_astype invalid_cast dt a r c :
  px (farray_astype invalid_cast dt a) r c = to_int invalid_cast dt <$> fpx a r c.
Proof.
  unfold px, fpx, farray_astype. simpl. rewrite list_lookup_fmap.
  destruct (f_rows a !! r) as [row|]; simpl; [| done].
  apply list_lookup_fmap.
Qed.

(** X12. For brightness and contrast within the documented range -255..255
    and a storage type other than signed 8-bit,
    [applyBrightnessAndContrast] keeps the order of samples: of two samples
    of the input, the greater one never comes out smaller. *)
Theorem applyBrightnessAndContrast_monotone invalid_cast img brightness contrast :
  wf img -> dtype img <> int8 ->
  -255 <= brightness -> brightness <= 255 ->
  -255 <= contrast -> contrast <= 255 ->
  exists out,
    applyBrightnessAndContrast invalid_cast img brightness contrast = Ok out
    /\ forall r c r' c' v v',
         px img r c = Some v -> px img r' c' = Some v' -> (v <= v')%Z ->
         exists o o',
           px out r c = Some o /\ px out r' c' = Some o' /\ (o <= o')%Z.
Proof.
  intros Hwf Hdt Hb1 Hb2 Hc1 Hc2.
  destruct (contrast_factor_bounds contrast Hc1 Hc2) as (c0 & f & Hc & Hf & Hf0 & Hf1).
  destruct (fround_between (-255) 255 brightness) as (b & Hb & _ & Hbl & Hbh);
    [done | done | exact Hb1 | exact Hb2 |].
  unfold applyBrightnessAndContrast. rewrite Hc. cbn [mbind result_bind].
  rewrite Hf. cbn [mbind result_bind].
  unfold pyfloat. rewrite Hb. cbn [mbind result_bind].
  eexists. split; [done |].
  intros r c r' c' v v' Hv Hv' Hle.
  rewrite !px_farray_astype, !fpx_fmap2, !fpx_to_float, Hv, Hv'. simpl.
  do 2 eexists. split; [done |]. split; [done |].
  literal_bounds.
  apply contrast_px_mono; try done.
  - apply (px_row_ok _ (ncols img) (rows img) r c); [exact Hwf | exact Hv].
  - apply (px_row_ok _ (ncols img) (rows img) r' c'); [exact Hwf | exact Hv'].
Qed.

Lemma applyBrightnessAndContrast_monotone_witness :
  wf img4 /\ dtype img4 <> int8
  /\ -255 <= 20 /\ 20 <= 255 /\ -255 <= 100 /\ 100 <= 255
  /\ exists out,
       applyBrightnessAndContrast x86_cast img4 20 100 = Ok out
       /\ forall r c r' c' v v',
            px img4 r c = Some v -> px img4 r' c' = Some v' -> (v <= v')%Z ->
            exists o o',
              px out r c = Some o /\ px out r' c' = Some o' /\ (o <= o')%Z.
Proof.
  assert (dtype img4 <> int8) as Hd by discriminate.
  assert (-255 <= 20) as H1 by discriminate.
  assert (20 <= 255) as H2 by discriminate.
  assert (-255 <= 100) as H3 by discriminate.
  assert (100 <= 255) as H4 by discriminate.
  split; [exact img4_wf |]. split; [exact Hd |].
  split; [exact H1 |]. split; [exact H2 |]. split; [exact H3 |]. split; [exact H4 |].
  exact (applyBrightnessAndContrast_monotone x86_cast img4 20 100
           img4_wf Hd H1 H2 H3 H4).
Defined.

(** ** Brightness and contrast on 8-bit unsigned images *)




(** ** Further properties of [adjustLevels] *)

Lemma finite_float_pow2 n : (0 <= n <= 1023)%Z -> finite_float (2 ^ n).
Proof.
  intros Hn. pose proof (pow2_pos n) as Hpos. unfold pow2 in Hpos.
  split; [| split].
  - exists 1%Z, n. split; [| split; [done | lia]].
    unfold pow2. change (inject_Z 1) with 1. ring.
  - assert (0 < huge) by reflexivity. lra.
  - unfold huge. rewrite <- pow2_Z by done. apply pow2_lt. lia.
Qed.

(** The top level [2**nbits - 1.0] is a float other than zero. *)
Lemma max_lvl_nonzero nbits :
  (1 <= nbits <= 1023)%Z ->
  exists top,
    pyfloat (2 ^ nbits) = Ok (Fin top)
    /\ is_zero (fsub (Fin top) (Fin 1)) = false.
Proof.
  intros Hn.
  destruct (pyfloat_finite (2 ^ nbits)) as [Hp Hv]; [apply finite_float_pow2; lia |].
  eexists. split; [exact Hp |].
  change (fsub (Fin ?t) (Fin 1)) with (fround (t + - (1))).
  pose proof (pow2_le 1 nbits ltac:(lia)) as Hle.
  change (pow2 1) with 2 in Hle. unfold pow2 in Hle.
  assert (pow2 (-1074) <= 1) as Hsmall.
  { change 1 with (pow2 0). apply pow2_le. lia. }
  destruct (fround_positive_gap (Qred (round64 (2 ^ nbits)) + - (1)))
    as [-> | (r & -> & Hr)]; [rewrite Hv; lra | done |].
  unfold is_zero. apply Qeq_bool_false. lra.
Qed.

Lemma number_finite q : finite_float q -> number (Some q) = Ok (as_float q).
Proof. intros Hq. unfold number. by destruct (pyfloat_finite q Hq). Qed.

(** X14. When some but not all of the three levels are [None],
    [adjustLevels] raises [TypeError] (for a bit depth from 1 to 1023 and
    float values of the levels that are given). *)
Theorem adjustLevels_missing_level invalid_cast libm_pow img minv gamma maxv nbits :
  (1 <= nbits <= 1023)%Z ->
  (forall q, minv = Some q \/ gamma = Some q \/ maxv = Some q -> finite_float q) ->
  minv = None \/ gamma = None \/ maxv = None ->
  ~ (minv = None /\ gamma = None /\ maxv = None) ->
  adjustLevels invalid_cast libm_pow img minv gamma maxv nbits = Raise TypeError.
Proof.
  intros Hn Hfin Hsome Hall.
  destruct (max_lvl_nonzero nbits Hn) as (top & Htop & Hnz).
  unfold adjustLevels. rewrite Htop. cbn [mbind result_bind].
  destruct minv as [a|]; [| by destruct gamma, maxv; try done; exfalso; apply Hall].
  rewrite (number_finite a) by (apply Hfin; by left).
  cbn [mbind result_bind]. rewrite pydiv_nonzero by done. cbn [mbind result_bind].
  destruct maxv as [b|]; [| by destruct gamma].
  rewrite (number_finite b) by (apply Hfin; by right; right).
  cbn [mbind result_bind]. rewrite pydiv_nonzero by done. cbn [mbind result_bind].
  destruct gamma as [g|]; [| done].
  by destruct Hsome as [? | [? | ?]].
Qed.

Lemma adjustLevels_missing_level_witness :
  (1 <= 8 <= 1023)%Z
  /\ (forall q, Some 100 = Some q \/ None = Some q \/ Some 240 = Some q ->
        finite_float q)
  /\ (Some 100 = @None Q \/ @None Q = None \/ Some 240 = @None Q)
  /\ ~ (Some 100 = @None Q /\ @None Q = None /\ Some 240 = @None Q)
  /\ adjustLevels x86_cast no_pow img4 (Some 100) None (Some 240) 8
     = Raise TypeError.
Proof.
  assert (1 <= 8 <= 1023)%Z as H1 by lia.
  assert (forall q, Some 100 = Some q \/ None = Some q \/ Some 240 = Some q ->
            finite_float q) as H2.
  { intros q [[= <-] | [[=] | [= <-]]].
    - apply (finite_float_int 100). done.
    - apply (finite_float_int 240). done. }
  assert (Some 100 = @None Q \/ @None Q = None \/ Some 240 = @None Q) as H3
    by (right; left; reflexivity).
  assert (~ (Some 100 = @None Q /\ @None Q = None /\ Some 240 = @None Q)) as H4
    by (intros [[=] _]).
  split; [exact H1 |]. split; [exact H2 |]. split; [exact H3 |]. split; [exact H4 |].
  exact (adjustLevels_missing_level x86_cast no_pow img4
           (Some 100) None (Some 240) 8 H1 H2 H3 H4).
Defined.

(** X15. With the three levels given as floats and a bit depth from 1 to
    1023, [adjustLevels] raises [ZeroDivisionError] when gamma is 0 and
    otherwise returns an 8-bit unsigned image of the input's shape,
    whatever the storage type of the input and also when [maxv = minv]. *)
Theorem adjustLevels_defined invalid_cast libm_pow img minv gamma maxv nbits :
  (1 <= nbits <= 1023)%Z ->
  finite_float minv -> finite_float gamma -> finite_float maxv ->
  (gamma == 0 ->
     adjustLevels invalid_cast libm_pow img (Some minv) (Some gamma) (Some maxv) nbits
     = Raise ZeroDivisionError)
  /\ (~ gamma == 0 ->
        exists out,
          adjustLevels invalid_cast libm_pow img (Some minv) (Some gamma) (Some maxv)
                       nbits = Ok out
          /\ dtype out = uint8 /\ shape out = shape img).
Proof.
  intros Hn Ha Hg Hb.
  destruct (max_lvl_nonzero nbits Hn) as (top & Htop & Hnz).
  destruct (pyfloat_finite gamma Hg) as [_ Hvg].
  unfold adjustLevels. rewrite Htop. cbn [mbind result_bind].
  rewrite (number_finite minv) by done. cbn [mbind result_bind].
  rewrite (pydiv_nonzero (as_float minv)) by done. cbn [mbind result_bind].
  rewrite (number_finite maxv) by done. cbn [mbind result_bind].
  rewrite (pydiv_nonzero (as_float maxv)) by done. cbn [mbind result_bind].
  rewrite (number_finite gamma) by done. cbn [mbind result_bind].
  split.
  - intros Hz. unfold pydiv, as_float, is_zero.
    rewrite (proj2 (Qeq_bool_iff _ 0)) by (rewrite Hvg; done). done.
  - intros Hz. rewrite pydiv_nonzero.
    2: { unfold as_float, is_zero. apply Qeq_bool_false. by rewrite Hvg. }
    cbn [mbind result_bind].
    eexists. split; [done |]. split; [done |].
    unfold shape, nrows, farray_astype, fmap2, to_float.
    cbn [rows ncols f_rows f_ncols]. by rewrite !length_map.
Qed.

Lemma adjustLevels_defined_witness :
  (1 <= 8 <= 1023)%Z
  /\ finite_float 100 /\ finite_float 0 /\ finite_float 240
  /\ (0 == 0 ->
        adjustLevels x86_cast no_pow img4 (Some 100) (Some 0) (Some 240) 8
        = Raise ZeroDivisionError)
  /\ (~ 0 == 0 ->
        exists out,
          adjustLevels x86_cast no_pow img4 (Some 100) (Some 0) (Some 240) 8 = Ok out
          /\ dtype out = uint8 /\ shape out = shape img4).
Proof.
  assert (1 <= 8 <= 1023)%Z as H1 by lia.
  assert (finite_float 100) as H2 by (apply (finite_float_int 100); done).
  assert (finite_float 0) as H3 by (apply (finite_float_int 0); done).
  assert (finite_float 240) as H4 by (apply (finite_float_int 240); done).
  split; [exact H1 |]. split; [exact H2 |]. split; [exact H3 |]. split; [exact H4 |].
  exact (adjustLevels_defined x86_cast no_pow img4 100 0 240 8 H1 H2 H3 H4).
Defined.

Lemma levels_identity_all invalid_cast libm_pow :
  forallb
    (fun z =>
       Z.eqb (to_int invalid_cast uint8
                (fclip (Fin 0) (Fin 255)
                   (fmul (fpow libm_pow
                            (fdiv (fsub (fdiv (of_int z) (Fin 255)) (Fin 0)) (Fin 1))
                            (Fin 1))
                         (Fin 255))))
             z)
    (map Z.of_nat (seq 0 256)) = true.
Proof. vm_compute. reflexivity. Qed.

Lemma levels_identity_scalars :
  pyfloat (2 ^ 8) = Ok (Fin 256)
  /\ fsub (Fin 256) (Fin 1) = Fin 255
  /\ (m ← number (Some 0); pydiv m (Fin 255)) = Ok (Fin 0)
  /\ (m ← number (Some 255); pydiv m (Fin 255)) = Ok (Fin 1)
  /\ fsub (Fin 1) (Fin 0) = Fin 1
  /\ (g ← number (Some 1); pydiv (Fin 1) g) = Ok (Fin 1).
Proof. repeat split; vm_compute; reflexivity. Qed.

(** X16. On an 8-bit unsigned image, the levels [minv = 0], [gamma = 1],
    [maxv = 255] at the default bit depth 8 return the image as it is: the
    division by 255 and the multiplication by 255 cancel for every sample
    value, rounding included. *)
Theorem adjustLevels_identity invalid_cast libm_pow img :
  wf img -> dtype img = uint8 ->
  adjustLevels invalid_cast libm_pow img (Some 0) (Some 1) (Some 255) 8 = Ok img.
Proof.
  intros Hwf Hdt.
  destruct levels_identity_scalars as (E1 & E2 & E3 & E4 & E5 & E6).
  unfold adjustLevels. rewrite E1. cbn [mbind result_bind].
  rewrite E2, E3. cbn [mbind result_bind]. rewrite E4. cbn [mbind result_bind].
  rewrite E5, E6. cbn [mbind result_bind].
  pose proof (wf_rows_range _ Hwf) as Hrange.
  destruct img as [dt nc l]. simpl in Hdt, Hrange. subst dt. f_equal.
  unfold farray_astype, fmap2, to_float. cbn [rows ncols dtype f_rows f_ncols].
  f_equal. rewrite !map_map.
  rewrite <- (rows_map_id l) at 2.
  erewrite map_ext; [eapply rows_map_ext; [exact Hrange |] |].
  2: { intros row. rewrite !map_map. reflexivity. }
  intros v Hv. simpl.
  pose proof (levels_identity_all invalid_cast libm_pow) as Hall.
  rewrite forallb_forall in Hall.
  apply Z.eqb_eq, Hall.
  unfold in_range, iinfo_min, iinfo_max in Hv. simpl in Hv.
  replace v with (Z.of_nat (Z.to_nat v)) by lia.
  apply List.in_map, List.in_seq. lia.
Qed.

Lemma adjustLevels_identity_witness :
  wf img4 /\ dtype img4 = uint8
  /\ adjustLevels x86_cast no_pow img4 (Some 0) (Some 1) (Some 255) 8 = Ok img4.
Proof.
  split; [exact img4_wf |]. split; [reflexivity |].
  exact (adjustLevels_identity x86_cast no_pow img4 img4_wf eq_refl).
Defined.

(** ** The two ends of the levels at gamma 1 *)


Lemma fround_le z q :
  (Z.abs z <= 2 ^ 53)%Z -> q <= inject_Z z ->
  fround q = NInf \/ exists r, fround q = Fin r /\ r <= inject_Z z.
Proof.
  intros Hz Hq. pose proof (round64_mono _ _ Hq) as H.
  rewrite round64_int in H by done.
  pose proof (Qred_correct (round64 q)) as Hred.
  pose proof huge_big. destruct (int53_bound z Hz) as [_ Hhi].
  unfold fround. cbv zeta.
  rewrite Qle_bool_false by (rewrite Hred; lra).
  destruct (Qle_bool _ _); [by left |]. right.
  eexists. split; [done |]. by rewrite Hred.
Qed.

(** Two numbers of [0, 1] that are 2^-32 apart round to floats that are
    at least 2^-34 apart. *)
Lemma round64_margin p q :
  0 <= p -> q <= 1 -> p + pow2 (-32) <= q ->
  round64 p + pow2 (-34) <= round64 q.
Proof.
  intros Hp Hq Hpq.
  set (k := Qfloor (p * pow2 34)).
  assert (inject_Z k <= p * pow2 34 /\ p * pow2 34 < inject_Z (k + 1)) as [Hk1 Hk2].
  { split; [apply Qfloor_le | apply Qlt_floor]. }
  pose proof (pow2_pos 34) as H34. pose proof (pow2_pos (-34)) as H34'.
  assert (pow2 34 * pow2 (-34) == 1) as Hinv.
  { rewrite <- pow2_add. reflexivity. }
  assert (pow2 (-32) == 4 * pow2 (-34)) as H32.
  { change 4 with (pow2 2). rewrite <- pow2_add. reflexivity. }
  assert (0 <= k)%Z as Hk0.
  { unfold k. change 0%Z with (Qfloor 0). apply Qfloor_resp_le. nra. }
  assert (k <= 2 ^ 34)%Z as Hk34.
  { assert (p * pow2 34 <= inject_Z (2 ^ 34)) as Hle.
    { rewrite <- pow2_Z by lia. nra. }
    apply Qfloor_resp_le in Hle. by rewrite Qfloor_Z in Hle. }
  rewrite inject_Z_plus in Hk2. change (inject_Z 1) with 1 in Hk2.
  set (t1 := inject_Z (k + 1) * pow2 (-34)).
  set (t2 := inject_Z (k + 2) * pow2 (-34)).
  assert (representable t1) as R1.
  { exists (k + 1)%Z, (-34)%Z. split; [reflexivity |]. split; lia. }
  assert (representable t2) as R2.
  { exists (k + 2)%Z, (-34)%Z. split; [reflexivity |]. split; lia. }
  assert (p <= t1) as H1.
  { unfold t1. rewrite inject_Z_plus. change (inject_Z 1) with 1.
    assert (p == p * pow2 34 * pow2 (-34)) as -> by (rewrite <- Qmult_assoc, Hinv; ring).
    nra. }
  assert (t1 + pow2 (-34) == t2) as H12.
  { unfold t1, t2. rewrite !inject_Z_plus.
    change (inject_Z 1) with 1. change (inject_Z 2) with 2. ring. }
  assert (t2 <= q) as H2.
  { apply (Qle_trans _ (p + pow2 (-32))); [| done].
    unfold t2. rewrite inject_Z_plus. change (inject_Z 2) with 2.
    assert (p == p * pow2 34 * pow2 (-34)) as Heq
      by (rewrite <- Qmult_assoc, Hinv; ring).
    rewrite H32. rewrite Heq at 1. nra. }
  pose proof (round64_mono _ _ H1) as M1. rewrite (round64_exact t1 R1) in M1.
  pose proof (round64_mono _ _ H2) as M2. rewrite (round64_exact t2 R2) in M2.
  lra.
Qed.

Lemma round64_separates p q :
  0 <= p -> q <= 1 -> p + pow2 (-32) <= q -> round64 p < round64 q.
Proof.
  intros Hp Hq Hpq. pose proof (round64_margin p q Hp Hq Hpq).
  pose proof (pow2_pos (-34)). lra.
Qed.









Example ex_levels_stretch :
  adjustLevels x86_cast no_pow img4 (Some 5) (Some 1) (Some 30) 8
  = Ok (mkArr uint8 2 [[0; 0]; [255; 0]; [0; 255]; [20; 30]]%Z).
Proof. vm_compute. reflexivity. Qed.

(** ** Samples below the minimum level under a gamma above 1 *)







(** ** Further properties of the flat field *)





Lemma to_float_int_sample img :
  wf img -> Forall (Forall (Z.le 0)) (rows img) ->
  Forall (Forall int_sample) (f_rows (to_float img)).
Proof.
  intros Hwf Hpos. unfold to_float. simpl.
  apply Forall_fmap, Forall_lookup. intros r row Hrow. simpl.
  apply Forall_fmap, Forall_lookup. intros c v Hv. simpl.
  pose proof (Forall_lookup_1 _ _ _ _ Hpos Hrow) as Hp.
  pose proof (Forall_lookup_1 _ _ _ _ Hp Hv) as Hv0.
  destruct (Forall_lookup_1 _ _ _ _ Hwf Hrow) as [_ Hr].
  pose proof (Forall_lookup_1 _ _ _ _ Hr Hv) as [_ Hmax].
  exists v. split; [done |]. split; [done |].
  unfold iinfo_max in Hmax. destruct (dtype img); simpl in Hmax; lia.
Qed.

Lemma half_exact k :
  (Z.abs k <= 2 ^ 52)%Z -> finite_float (inject_Z k / 2).
Proof.
  intros Hk. split.
  - exists k, (-1)%Z. split; [| split; [lia | lia]].
    change (pow2 (-1)) with (/ 2). reflexivity.
  - pose proof huge_big. destruct (int53_bound k ltac:(lia)) as [H1 H2].
    split.
    + apply Qlt_shift_div_l; [reflexivity |]. lra.
    + apply Qlt_shift_div_r; [reflexivity |]. lra.
Qed.

Lemma quarter_exact k :
  (Z.abs k <= 2 ^ 52)%Z -> finite_float (inject_Z k / 2 / 2).
Proof.
  intros Hk. split.
  - exists k, (-2)%Z. split; [| split; [lia | lia]].
    change (pow2 (-2)) with (/ 4). field.
  - pose proof huge_big. destruct (int53_bound k ltac:(lia)) as [H1 H2].
    split.
    + apply Qlt_shift_div_l; [reflexivity |].
      apply Qlt_shift_div_l; [reflexivity |]. lra.
    + apply Qlt_shift_div_r; [reflexivity |].
      apply Qlt_shift_div_r; [reflexivity |]. lra.
Qed.

Lemma int_sample_half_int x : int_sample x -> half_int x.
Proof.
  intros (v & -> & Hv). exists (inject_Z v), (2 * v)%Z.
  split; [done |]. split; [| lia].
  rewrite inject_Z_mult. change (inject_Z 2) with 2. field.
Qed.

Lemma mean_half_int x y :
  int_sample x -> int_sample y -> half_int (fdiv (fadd x y) (Fin 2)).
Proof.
  intros (a & -> & Ha) (b & -> & Hb). unfold of_int.
  change (fadd (Fin ?p) (Fin ?q)) with (fround (p + q)).
  destruct (fround_int_value (inject_Z a + inject_Z b) (a + b)) as (s & -> & Hs);
    [lia | by rewrite inject_Z_plus |].
  unfold fdiv. change (Qeq_bool 2 0) with false. cbv iota.
  destruct (fround_exact (s / 2)) as (m & -> & Hm).
  { destruct (half_exact (a + b) ltac:(lia)) as (Hrep & Hlo & Hhi).
    split; [| rewrite Hs; done].
    apply (representable_proper (inject_Z (a + b) / 2)); [by rewrite Hs | done]. }
  exists m, (a + b)%Z. split; [done |]. split; [by rewrite Hm, Hs | lia].
Qed.

Lemma np_median_half_int a :
  Forall (Forall int_sample) (f_rows a) ->
  np_median a = NaN \/ half_int (np_median a).
Proof.
  intros Ha. unfold np_median.
  set (s := sort_samples (concat (f_rows a))).
  assert (Forall int_sample s) as Hs.
  { apply sort_samples_Forall, Forall_concat, Ha. }
  assert (forall k, (k < length s)%nat -> int_sample (nth k s NaN)) as Hnth.
  { intros k Hk. destruct (lookup_lt_is_Some_2 s k Hk) as [x Hx].
    rewrite (nth_lookup_Some _ _ _ _ Hx). exact (Forall_lookup_1 _ _ _ _ Hs Hx). }
  destruct (Nat.eqb_spec (length s) 0) as [Hz | Hnz]; cbn [orb]; [by left |].
  destruct (existsb is_nan s); [by left |]. right.
  assert (length s / 2 < length s)%nat as Hhalf by (apply Nat.div_lt; lia).
  destruct (Nat.even (length s)) eqn:Hev.
  - apply mean_half_int; apply Hnth; lia.
  - apply int_sample_half_int, Hnth; lia.
Qed.

Lemma positive_divisor_not_nan a x e :
  0 < e -> is_nan (fdiv (fmul (Fin a) (of_int x)) (Fin e)) = false.
Proof.
  intros He. unfold of_int.
  change (fmul (Fin a) (Fin ?q)) with (fround (a * q)).
  pose proof (fround_not_nan (a * inject_Z x)) as Hn.
  destruct (fround (a * inject_Z x)) as [p| | |]; try done.
  - unfold fdiv. rewrite Qeq_bool_false by lra. apply fround_not_nan.
  - unfold fdiv. by destruct (Qle_bool 0 e).
  - unfold fdiv. by destruct (Qltb e 0).
Qed.

Lemma loadFlat_px img r c :
  fpx (flat_img (loadFlat img)) r c =
    (fun v => if fltb (of_int v) (fdiv (flat_avg (loadFlat img)) (Fin 2))
              then flat_avg (loadFlat img)
              else of_int v) <$> px img r c.
Proof.
  unfold loadFlat. simpl. rewrite fpx_fmap2, fpx_to_float.
  by destruct (px img r c).
Qed.

Lemma loadFlat_fwf img : wf img -> fwf (flat_img (loadFlat img)).
Proof.
  intros Hwf. unfold fwf, loadFlat, fmap2, to_float. simpl.
  apply Forall_fmap, Forall_fmap, Forall_lookup. intros r row Hrow. simpl.
  rewrite !length_map. by destruct (Forall_lookup_1 _ _ _ _ Hwf Hrow).
Qed.

Lemma loadFlat_fshape img : fshape (flat_img (loadFlat img)) = shape img.
Proof. unfold loadFlat, fshape, shape, nrows. simpl. by rewrite !length_map. Qed.

(** A positive median makes every stored divisor positive. *)
Lemma loadFlat_positive img :
  wf img -> Forall (Forall (Z.le 0)) (rows img) ->
  fltb (Fin 0) (flat_avg (loadFlat img)) = true ->
  (exists a, flat_avg (loadFlat img) = Fin a /\ 0 < a)
  /\ forall r c f, fpx (flat_img (loadFlat img)) r c = Some f ->
       exists e, f = Fin e /\ 0 < e.
Proof.
  intros Hwf Hpos Hmed.
  assert (exists a h, flat_avg (loadFlat img) = Fin a /\ 0 < a
                      /\ fdiv (Fin a) (Fin 2) = Fin h /\ 0 < h)
    as (a & h & Ha & Ha0 & Hh & Hh0).
  { change (flat_avg (loadFlat img)) with (np_median (to_float img)) in *.
    destruct (np_median_half_int (to_float img) (to_float_int_sample img Hwf Hpos))
      as [Hnan | (q & k & Hq & Hk & Hkr)].
    - by rewrite Hnan in Hmed.
    - rewrite Hq in Hmed. unfold fltb in Hmed. apply Qltb_lt in Hmed.
      unfold fdiv. change (Qeq_bool 2 0) with false. cbv iota.
      destruct (fround_exact (q / 2)) as (h & Hh & Hhq).
      { destruct (quarter_exact k ltac:(lia)) as (Hrep & Hlo & Hhi).
        split; [| rewrite Hk; done].
        apply (representable_proper (inject_Z k / 2 / 2)); [by rewrite Hk | done]. }
      exists q, h. rewrite Hq. repeat split; try done.
      rewrite Hhq. apply Qlt_shift_div_l; [reflexivity | lra]. }
  split; [by exists a |].
  intros r c f. rewrite loadFlat_px, Ha, Hh.
  destruct (px img r c) as [v|]; [| done].
  cbn [fmap option_fmap option_map]. intros [= <-].
  destruct (Qltb (inject_Z v) h) eqn:Hlt; [by exists a |].
  exists (inject_Z v). split; [done |].
  apply Qltb_ge in Hlt. lra.
Qed.

(** X20. A flat whose median is positive is safe to divide by: every
    sample of the flat image [loadFlat] stores is positive, and on any
    well-formed target of the same shape [applyFlat] returns a well-formed
    image of the target's type and shape on every platform (no NaN and no
    wrap-around arise). *)
Theorem applyFlat_loaded_positive invalid_cast ref img :
  wf ref -> Forall (Forall (Z.le 0)) (rows ref) ->
  fltb (Fin 0) (flat_avg (loadFlat ref)) = true ->
  wf img -> shape img = shape ref ->
  (forall r c f, fpx (flat_img (loadFlat ref)) r c = Some f ->
     fltb (Fin 0) f = true)
  /\ exists out,
       applyFlat invalid_cast img (loadFlat ref) = (Ok out, loadFlat ref)
       /\ wf out /\ dtype out = dtype img /\ shape out = shape img.
Proof.
  intros Hwf Hpos Hmed Hwfi Hs.
  destruct (loadFlat_positive ref Hwf Hpos Hmed) as ((a & Ha & Ha0) & Hdiv).
  split.
  { intros r c f Hf. destruct (Hdiv r c f Hf) as (e & -> & He).
    unfold fltb. by apply Qltb_lt. }
  destruct (applyFlat_px invalid_cast img (loadFlat ref))
    as (out & Hout & Hdt & Hshape & Hrect & Hpx).
  { by rewrite loadFlat_fshape. }
  exists out. split; [done |]. split; [| done].
  specialize (Hrect (row_ok_length _ _ _ Hwfi) (loadFlat_fwf ref Hwf)).
  assert (ncols out = ncols img) as Hnc by (unfold shape in Hshape; congruence).
  apply Forall_lookup. intros r row Hrow. split.
  { rewrite Hnc. exact (Forall_lookup_1 _ _ _ _ Hrect Hrow). }
  apply Forall_lookup. intros c v Hv.
  specialize (Hpx r c). unfold px in Hpx at 1. rewrite Hrow in Hpx.
  cbn [mbind option_bind] in Hpx. rewrite Hv in Hpx.
  destruct (px img r c) as [x|]; [| done]. cbn [mbind option_bind] in Hpx.
  destruct (fpx (flat_img (loadFlat ref)) r c) as [f|] eqn:Hf; [| done].
  cbn [mbind option_bind] in Hpx. injection Hpx as ->.
  destruct (Hdiv r c f Hf) as (e & -> & He).
  change (flat_avg (loadFlat ref)) with (np_median (to_float ref)) in Ha.
  rewrite Ha, Hdt.
  destruct (applyFlat_clip_in_range invalid_cast (dtype img)
              (fdiv (fmul (Fin a) (of_int x)) (Fin e)))
    as (q & -> & -> & Hq); [by apply positive_divisor_not_nan | done].
Qed.

Lemma applyFlat_loaded_positive_witness :
  wf flat_ref /\ Forall (Forall (Z.le 0)) (rows flat_ref)
  /\ fltb (Fin 0) (flat_avg (loadFlat flat_ref)) = true
  /\ wf frame50 /\ shape frame50 = shape flat_ref
  /\ (forall r c f, fpx (flat_img (loadFlat flat_ref)) r c = Some f ->
        fltb (Fin 0) f = true)
  /\ exists out,
       applyFlat x86_cast frame50 (loadFlat flat_ref) = (Ok out, loadFlat flat_ref)
       /\ wf out /\ dtype out = dtype frame50 /\ shape out = shape frame50.
Proof.
  assert (Forall (Forall (Z.le 0)) (rows flat_ref)) as H1.
  { simpl. repeat constructor; lia. }
  assert (fltb (Fin 0) (flat_avg (loadFlat flat_ref)) = true) as H2
    by (vm_compute; reflexivity).
  split; [exact flat_ref_wf |]. split; [exact H1 |]. split; [exact H2 |].
  split; [exact frame50_wf |]. split; [reflexivity |].
  exact (applyFlat_loaded_positive x86_cast flat_ref frame50
           flat_ref_wf H1 H2 frame50_wf eq_refl).
Defined.

(** ** Dark samples under the flat *)

(** X21. With a flat of positive median, [applyFlat] maps every zero
    sample of a target of the flat's shape to zero. *)
Theorem applyFlat_zero invalid_cast ref img :
  wf ref -> Forall (Forall (Z.le 0)) (rows ref) ->
  fltb (Fin 0) (flat_avg (loadFlat ref)) = true ->
  wf img -> shape img = shape ref ->
  exists out,
    applyFlat invalid_cast img (loadFlat ref) = (Ok out, loadFlat ref)
    /\ forall r c, px img r c = Some 0%Z -> px out r c = Some 0%Z.
Proof.
  intros Hwf Hpos Hmed Hwfi Hs.
  destruct (loadFlat_positive ref Hwf Hpos Hmed) as ((a & Ha & Ha0) & Hdiv).
  destruct (applyFlat_px invalid_cast img (loadFlat ref))
    as (out & Hout & Hdt & Hshape & _ & Hpx).
  { by rewrite loadFlat_fshape. }
  exists out. split; [done |].
  intros r c Hz. rewrite Hpx, Hz. cbn [mbind option_bind].
  assert (exists v, px ref r c = Some v) as [v Hv].
  { unfold px in Hz. destruct (rows img !! r) as [row|] eqn:Hrow; [| done].
    simpl in Hz. unfold shape in Hs. injection Hs as Hs1 Hs2.
    apply px_defined; [done | |].
    - rewrite <- Hs1. unfold nrows. by eapply lookup_lt_Some.
    - rewrite <- Hs2. destruct (Forall_lookup_1 _ _ _ _ Hwfi Hrow) as [Hl _].
      rewrite <- Hl. by eapply lookup_lt_Some. }
  destruct (fpx (flat_img (loadFlat ref)) r c) as [f|] eqn:Hf.
  2: { rewrite loadFlat_px, Hv in Hf. done. }
  destruct (Hdiv r c f Hf) as (e & -> & He).
  cbn [mbind option_bind]. f_equal.
  change (flat_avg (loadFlat ref)) with (np_median (to_float ref)) in *.
  rewrite Ha.
  change (fmul (Fin a) (of_int 0)) with (fround (a * 0)).
  rewrite (fround_zero (a * 0)) by ring.
  unfold fdiv. rewrite Qeq_bool_false by lra.
  rewrite (fround_zero (0 / e)) by (field; lra).
  rewrite (fclip_in_range (dtype img) 0 0); [by destruct (dtype img) | reflexivity |].
  unfold in_range, iinfo_min, iinfo_max. destruct (dtype img); simpl; lia.
Qed.

Lemma applyFlat_zero_witness :
  wf flat_ref /\ Forall (Forall (Z.le 0)) (rows flat_ref)
  /\ fltb (Fin 0) (flat_avg (loadFlat flat_ref)) = true
  /\ wf frame50 /\ shape frame50 = shape flat_ref
  /\ exists out,
       applyFlat x86_cast frame50 (loadFlat flat_ref) = (Ok out, loadFlat flat_ref)
       /\ forall r c, px frame50 r c = Some 0%Z -> px out r c = Some 0%Z.
Proof.
  assert (Forall (Forall (Z.le 0)) (rows flat_ref)) as H1.
  { simpl. repeat constructor; lia. }
  assert (fltb (Fin 0) (flat_avg (loadFlat flat_ref)) = true) as H2
    by (vm_compute; reflexivity).
  split; [exact flat_ref_wf |]. split; [exact H1 |]. split; [exact H2 |].
  split; [exact frame50_wf |]. split; [reflexivity |].
  exact (applyFlat_zero x86_cast flat_ref frame50
           flat_ref_wf H1 H2 frame50_wf eq_refl).
Defined.

Lemma existsb_uniform (x : float64) (l : list float64) :
  is_nan x = false -> Forall (eq x) l -> existsb is_nan l = false.
Proof.
  intros Hx Hl. induction Hl as [|y l <- _ IH]; simpl; [done |].
  by rewrite Hx, IH.
Qed.

Lemma px_uniform a c r k v :
  Forall (Forall (eq c)) (rows a) -> px a r k = Some v -> v = c.
Proof.
  intros Hu Hv. unfold px in Hv.
  destruct (rows a !! r) as [row|] eqn:Hrow; [| done]. simpl in Hv.
  pose proof (Forall_lookup_1 _ _ _ _ Hu Hrow) as Hr.
  symmetry. exact (Forall_lookup_1 _ _ _ _ Hr Hv).
Qed.

(** The median of a reference whose samples all equal [c]. *)
Lemma np_median_uniform ref c :
  wf ref -> (0 < nrows ref)%nat -> (0 < ncols ref)%nat ->
  (0 <= c <= 2 ^ 32)%Z -> Forall (Forall (eq c)) (rows ref) ->
  exists a, np_median (to_float ref) = Fin a /\ a == inject_Z c.
Proof.
  intros Hwf Hn Hm Hc Hu. unfold np_median.
  set (s := sort_samples (concat (f_rows (to_float ref)))).
  assert (Forall (eq (of_int c)) s) as Hs.
  { apply sort_samples_Forall, Forall_concat. unfold to_float. simpl.
    apply Forall_fmap. eapply Forall_impl; [exact Hu |].
    intros row Hrow. simpl. apply Forall_fmap.
    eapply Forall_impl; [exact Hrow |]. by intros v <-. }
  assert (0 < length s)%nat as Hlen.
  { unfold s. rewrite length_sort_samples. unfold to_float, nrows in *. simpl.
    destruct (rows ref) as [|row rest] eqn:Hrows; [simpl in Hn; lia |].
    destruct (Forall_lookup_1 _ _ 0%nat row Hwf) as [Hl _]; [by rewrite Hrows |].
    simpl. rewrite length_app, length_map. lia. }
  assert (forall k, (k < length s)%nat -> nth k s NaN = of_int c) as Hnth.
  { intros k Hk. destruct (lookup_lt_is_Some_2 s k Hk) as [x Hx].
    rewrite (nth_lookup_Some _ _ _ _ Hx).
    symmetry. exact (Forall_lookup_1 _ _ _ _ Hs Hx). }
  destruct (Nat.eqb_spec (length s) 0) as [Hz | _]; [lia |]. cbn [orb].
  rewrite (existsb_uniform (of_int c)) by done.
  assert (length s / 2 < length s)%nat as Hhalf by (apply Nat.div_lt; lia).
  destruct (Nat.even (length s)).
  - rewrite !Hnth by lia. unfold of_int.
    change (fadd (Fin ?p) (Fin ?q)) with (fround (p + q)).
    destruct (fround_int_value (inject_Z c + inject_Z c) (c + c)) as (t & -> & Ht);
      [lia | by rewrite inject_Z_plus |].
    unfold fdiv. change (Qeq_bool 2 0) with false. cbv iota.
    destruct (fround_int_value (t / 2) c) as (m & -> & Hm'); [lia | |].
    { rewrite Ht, inject_Z_plus. field. }
    by exists m.
  - rewrite Hnth by lia. by exists (inject_Z c).
Qed.

(** X22. A flat loaded from a reference whose samples all have one value
    from 1 to 65535 leaves every well-formed target of the reference's
    shape unchanged. *)
Theorem applyFlat_uniform_reference invalid_cast ref img c :
  wf ref -> (0 < nrows ref)%nat -> (0 < ncols ref)%nat ->
  (1 <= c <= 65535)%Z -> Forall (Forall (eq c)) (rows ref) ->
  wf img -> shape img = shape ref ->
  applyFlat invalid_cast img (loadFlat ref) = (Ok img, loadFlat ref).
Proof.
  intros Hwf Hn Hm Hc Hu Hwfi Hs.
  destruct (np_median_uniform ref c Hwf Hn Hm ltac:(lia) Hu) as (a & Ha & Hac).
  destruct (applyFlat_px invalid_cast img (loadFlat ref))
    as (out & Hout & Hdt & Hshape & Hrect & Hpx).
  { by rewrite loadFlat_fshape. }
  rewrite Hout. f_equal. f_equal.
  specialize (Hrect (row_ok_length _ _ _ Hwfi) (loadFlat_fwf ref Hwf)).
  destruct out as [dt nc rs], img as [dti nci rsi].
  unfold shape, nrows in Hshape. simpl in *. injection Hshape as Hr Hcn. subst.
  f_equal. apply (rows_eq_px nci); [done | done | exact (row_ok_length _ _ _ Hwfi) |].
  intros r k. specialize (Hpx r k). unfold px in Hpx. simpl in Hpx.
  rewrite Hpx. clear Hpx.
  destruct (rsi !! r) as [row|] eqn:Hrow; [| done]. simpl.
  destruct (row !! k) as [x|] eqn:Hx; [| done]. simpl.
  assert (in_range dti x) as Hxr.
  { destruct (Forall_lookup_1 _ _ _ _ Hwfi Hrow) as [_ Hrange].
    exact (Forall_lookup_1 _ _ _ _ Hrange Hx). }
  assert (exists v, px ref r k = Some v) as [v Hv].
  { apply px_defined; [done | |].
    - unfold shape, nrows in Hs. simpl in Hs. injection Hs as Hs1 Hs2.
      unfold nrows. rewrite <- Hs1. by eapply lookup_lt_Some.
    - unfold shape in Hs. simpl in Hs. injection Hs as Hs1 Hs2.
      rewrite <- Hs2.
      destruct (Forall_lookup_1 _ _ _ _ Hwfi Hrow) as [Hl _]. simpl in Hl.
      rewrite <- Hl. by eapply lookup_lt_Some. }
  rewrite fpx_fmap2, fpx_to_float, Hv.
  cbn [fmap option_fmap option_map mbind option_bind].
  f_equal. rewrite Ha.
  apply (px_uniform ref c) in Hv; [| done]. subst v.
  change (fmul (Fin a) (of_int x)) with (fround (a * inject_Z x)).
  assert (Z.abs x <= 2 ^ 31)%Z as Hx31.
  { unfold in_range, iinfo_min, iinfo_max in Hxr. destruct dti; simpl in Hxr; lia. }
  destruct (fround_int_value (a * inject_Z x) (c * x)) as (p & -> & Hp);
    [nia | by rewrite Hac, inject_Z_mult |].
  assert (~ a == 0) as Ha0.
  { rewrite Hac. change 0 with (inject_Z 0). rewrite inject_Z_injective. lia. }
  apply (uniform_flat_px _ _ a); [done | | done |].
  - destruct (fltb (of_int c) (fdiv (Fin a) (Fin 2))); simpl; [reflexivity |].
    by symmetry.
  - by rewrite Hp, Hac, inject_Z_mult.
Qed.

Lemma applyFlat_uniform_reference_witness :
  wf frame50 /\ (0 < nrows frame50)%nat /\ (0 < ncols frame50)%nat
  /\ (1 <= 50 <= 65535)%Z /\ Forall (Forall (eq 50%Z)) (rows frame50)
  /\ wf flat_ref /\ shape flat_ref = shape frame50
  /\ applyFlat x86_cast flat_ref (loadFlat frame50) = (Ok flat_ref, loadFlat frame50).
Proof.
  assert (0 < nrows frame50)%nat as H1 by (unfold nrows; simpl; lia).
  assert (0 < ncols frame50)%nat as H2 by (simpl; lia).
  assert (1 <= 50 <= 65535)%Z as H3 by lia.
  assert (Forall (Forall (eq 50%Z)) (rows frame50)) as H4
    by (simpl; repeat constructor).
  split; [exact frame50_wf |]. split; [exact H1 |]. split; [exact H2 |].
  split; [exact H3 |]. split; [exact H4 |]. split; [exact flat_ref_wf |].
  split; [reflexivity |].
  exact (applyFlat_uniform_reference x86_cast frame50 flat_ref 50
           frame50_wf H1 H2 H3 H4 flat_ref_wf eq_refl).
Defined.

(** ** The stored average is a median *)

Lemma fleb_refl x : fleb x x = true.
Proof. destruct x; simpl; try done. apply Qle_bool_iff. lra. Qed.

Lemma fleb_trans x y z : fleb x y = true -> fleb y z = true -> fleb x z = true.
Proof.
  destruct x as [a| | |], y as [b| | |], z as [c| | |]; simpl; try done.
  rewrite !Qle_bool_iff. lra.
Qed.

Lemma sorted_lookup s i j x y :
  Sorted fle s -> (i <= j)%nat -> s !! i = Some x -> s !! j = Some y ->
  fleb x y = true.
Proof.
  intros Hs. apply Sorted_StronglySorted in Hs.
  2: { intros a b c. apply fleb_trans. }
  revert i j. induction Hs as [|h t Ht IH Hall]; intros i j Hij Hx Hy; [done |].
  destruct i as [|i], j as [|j]; simpl in *; try lia.
  - simplify_eq. apply fleb_refl.
  - simplify_eq. exact (Forall_lookup_1 _ _ _ _ Hall Hy).
  - apply (IH i j); [lia | done | done].
Qed.

Lemma count_perm {A} (p : A -> bool) (l l' : list A) :
  l ≡ₚ l' -> length (List.filter p l) = length (List.filter p l').
Proof.
  induction 1 as [|x l l' _ IH|x y l|l l' l'' _ IH1 _ IH2]; simpl.
  - done.
  - destruct (p x); simpl; congruence.
  - by destruct (p x), (p y).
  - congruence.
Qed.

Lemma count_map {A B} (f : A -> B) (p : B -> bool) (l : list A) :
  length (List.filter p (map f l)) = length (List.filter (fun x => p (f x)) l).
Proof.
  induction l as [|x l IH]; simpl; [done |]. destruct (p (f x)); simpl; congruence.
Qed.

Lemma count_prefix {A} (p : A -> bool) (s : list A) k :
  (forall i x, (i < k)%nat -> s !! i = Some x -> p x = true) ->
  (k <= length s)%nat -> (k <= length (List.filter p s))%nat.
Proof.
  revert k. induction s as [|h t IH]; intros k Hp Hk; simpl in *; [lia |].
  destruct k as [|k]; [lia |].
  rewrite (Hp 0%nat h) by (done || lia). simpl.
  apply le_n_S, IH; [| lia]. intros i x Hi Hx. apply (Hp (S i)); [lia | done].
Qed.

Lemma count_suffix {A} (p : A -> bool) (s : list A) k :
  (forall i x, (k <= i)%nat -> s !! i = Some x -> p x = true) ->
  (length s - k <= length (List.filter p s))%nat.
Proof.
  revert k. induction s as [|h t IH]; intros k Hp; simpl; [lia |].
  destruct k as [|k].
  - rewrite (Hp 0%nat h) by (done || lia). simpl.
    specialize (IH 0%nat). rewrite Nat.sub_0_r in IH.
    apply le_n_S, IH. intros i x _ Hx. apply (Hp (S i)); [lia | done].
  - specialize (IH k). etrans; [apply IH |].
    + intros i x Hi Hx. apply (Hp (S i)); [lia | done].
    + destruct (p h); simpl; lia.
Qed.

Lemma mean_exact u w :
  (0 <= u <= 2 ^ 32)%Z -> (0 <= w <= 2 ^ 32)%Z ->
  exists m, fdiv (fadd (of_int u) (of_int w)) (Fin 2) = Fin m
            /\ m == (inject_Z u + inject_Z w) / 2.
Proof.
  intros Hu Hw. unfold of_int.
  change (fadd (Fin ?p) (Fin ?q)) with (fround (p + q)).
  destruct (fround_int_value (inject_Z u + inject_Z w) (u + w)) as (t & -> & Ht);
    [lia | by rewrite inject_Z_plus |].
  unfold fdiv. change (Qeq_bool 2 0) with false. cbv iota.
  destruct (fround_exact (t / 2)) as (m & -> & Hm).
  { destruct (half_exact (u + w) ltac:(lia)) as (Hrep & Hlo & Hhi).
    split; [| rewrite Ht; done].
    apply (representable_proper (inject_Z (u + w) / 2)); [by rewrite Ht | done]. }
  exists m. split; [done |]. by rewrite Hm, Ht, inject_Z_plus.
Qed.

Lemma existsb_int_sample s : Forall int_sample s -> existsb is_nan s = false.
Proof.
  induction 1 as [|x s (v & -> & _) _ IH]; simpl; [done | exact IH].
Qed.

(** X23. For a non-empty well-formed reference image of non-negative
    samples, the [flat_avg] that [loadFlat] stores is a median of the
    samples: at least half of them are at most [flat_avg] and at least half
    of them are at least [flat_avg]. *)
Theorem loadFlat_median ref :
  wf ref -> Forall (Forall (Z.le 0)) (rows ref) ->
  (0 < nrows ref)%nat -> (0 < ncols ref)%nat ->
  exists a,
    flat_avg (loadFlat ref) = Fin a
    /\ (length (concat (rows ref))
        <= 2 * length (List.filter (fun v => Qle_bool (inject_Z v) a)
                                   (concat (rows ref))))%nat
    /\ (length (concat (rows ref))
        <= 2 * length (List.filter (fun v => Qle_bool a (inject_Z v))
                                   (concat (rows ref))))%nat.
Proof.
  intros Hwf Hpos Hn Hm.
  change (flat_avg (loadFlat ref)) with (np_median (to_float ref)).
  unfold np_median.
  assert (concat (f_rows (to_float ref)) = map of_int (concat (rows ref))) as Hlf.
  { unfold to_float. simpl. symmetry. apply concat_map. }
  set (s := sort_samples (concat (f_rows (to_float ref)))).
  assert (s ≡ₚ map of_int (concat (rows ref))) as Hperm.
  { unfold s. rewrite sort_samples_perm. by rewrite Hlf. }
  assert (Sorted fle s) as Hsorted by apply sort_samples_sorted.
  assert (Forall int_sample s) as Hs.
  { apply sort_samples_Forall, Forall_concat, to_float_int_sample; done. }
  assert (length s = length (concat (rows ref))) as Hlen.
  { rewrite (Permutation_length Hperm). apply length_map. }
  assert (0 < length s)%nat as Hlen0.
  { unfold s. rewrite length_sort_samples. unfold to_float, nrows in *. simpl.
    destruct (rows ref) as [|row rest] eqn:Hrows; [simpl in Hn; lia |].
    destruct (Forall_lookup_1 _ _ 0%nat row Hwf) as [Hl _]; [by rewrite Hrows |].
    simpl. rewrite length_app, length_map. lia. }
  assert (forall (p : float64 -> bool),
            length (List.filter p s)
            = length (List.filter (fun v => p (of_int v)) (concat (rows ref))))
    as Hcount.
  { intros p. rewrite (count_perm p _ _ Hperm). apply count_map. }
  destruct (Nat.eqb_spec (length s) 0) as [? | _]; [lia |]. cbn [orb].
  rewrite existsb_int_sample by done.
  rewrite <- Hlen.
  assert (length s / 2 < length s)%nat as Hhalf by (apply Nat.div_lt; lia).
  pose proof (Nat.div_mod_eq (length s) 2) as Hdm.
  destruct (Nat.even (length s)) eqn:Hev.
  - assert (length s mod 2 = 0)%nat as Hmod.
    { apply Nat.even_spec in Hev as [k Hk]. rewrite Hk.
      rewrite Nat.mul_comm. apply Nat.Div0.mod_mul. }
    set (k := (length s / 2)%nat) in *.
    destruct (lookup_lt_is_Some_2 s (k - 1)) as [x Hx]; [lia |].
    destruct (lookup_lt_is_Some_2 s k) as [y Hy]; [lia |].
    rewrite (nth_lookup_Some _ _ _ _ Hx), (nth_lookup_Some _ _ _ _ Hy).
    destruct (Forall_lookup_1 _ _ _ _ Hs Hx) as (u & -> & Hu).
    destruct (Forall_lookup_1 _ _ _ _ Hs Hy) as (w & -> & Hw).
    pose proof (sorted_lookup s (k - 1) k _ _ Hsorted ltac:(lia) Hx Hy) as Huw.
    simpl in Huw. apply Qle_bool_iff in Huw.
    destruct (mean_exact u w Hu Hw) as (m & -> & Hmq).
    assert (inject_Z u <= m /\ m <= inject_Z w) as [Hum Hmw].
    { rewrite Hmq. split.
      - apply Qle_shift_div_l; [reflexivity | lra].
      - apply Qle_shift_div_r; [reflexivity | lra]. }
    exists m. split; [done |].
    assert (length (List.filter (fun v => Qle_bool (inject_Z v) m) (concat (rows ref)))
            = length (List.filter (fun x => fleb x (Fin m)) s)) as ->
      by (symmetry; apply (Hcount (fun x => fleb x (Fin m)))).
    assert (length (List.filter (fun v => Qle_bool m (inject_Z v)) (concat (rows ref)))
            = length (List.filter (fleb (Fin m)) s)) as ->
      by (symmetry; apply (Hcount (fleb (Fin m)))).
    split.
    + pose proof (count_prefix (fun x => fleb x (Fin m)) s k) as Hc.
      etrans; [| apply Nat.mul_le_mono_l, Hc; [| lia]]; [lia |].
      intros i z Hi Hz.
      pose proof (sorted_lookup s i (k - 1) _ _ Hsorted ltac:(lia) Hz Hx) as H1.
      apply (fleb_trans _ _ _ H1). simpl. by apply Qle_bool_iff.
    + pose proof (count_suffix (fleb (Fin m)) s k) as Hc.
      etrans; [| apply Nat.mul_le_mono_l, Hc]; [lia |].
      intros i z Hi Hz.
      pose proof (sorted_lookup s k i _ _ Hsorted ltac:(lia) Hy Hz) as H1.
      apply (fleb_trans _ (of_int w)); [| done]. simpl. by apply Qle_bool_iff.
  - assert (length s mod 2 = 1)%nat as Hmod.
    { rewrite <- Nat.negb_odd in Hev. apply negb_false_iff, Nat.odd_spec in Hev.
      destruct Hev as [k Hk]. rewrite Hk.
      rewrite Nat.add_comm, Nat.mul_comm, Nat.Div0.mod_add. done. }
    set (k := (length s / 2)%nat) in *.
    destruct (lookup_lt_is_Some_2 s k) as [y Hy]; [lia |].
    rewrite (nth_lookup_Some _ _ _ _ Hy).
    destruct (Forall_lookup_1 _ _ _ _ Hs Hy) as (w & -> & Hw).
    exists (inject_Z w). split; [done |].
    assert (length (List.filter (fun v => Qle_bool (inject_Z v) (inject_Z w))
                                (concat (rows ref)))
            = length (List.filter (fun x => fleb x (of_int w)) s)) as ->
      by (symmetry; apply (Hcount (fun x => fleb x (of_int w)))).
    assert (length (List.filter (fun v => Qle_bool (inject_Z w) (inject_Z v))
                                (concat (rows ref)))
            = length (List.filter (fleb (of_int w)) s)) as ->
      by (symmetry; apply (Hcount (fleb (of_int w)))).
    split.
    + pose proof (count_prefix (fun x => fleb x (of_int w)) s (S k)) as Hc.
      etrans; [| apply Nat.mul_le_mono_l, Hc; [| lia]]; [lia |].
      intros i z Hi Hz.
      exact (sorted_lookup s i k _ _ Hsorted ltac:(lia) Hz Hy).
    + pose proof (count_suffix (fleb (of_int w)) s k) as Hc.
      etrans; [| apply Nat.mul_le_mono_l, Hc]; [lia |].
      intros i z Hi Hz.
      exact (sorted_lookup s k i _ _ Hsorted ltac:(lia) Hy Hz).
Qed.

Lemma loadFlat_median_witness :
  wf flat_ref /\ Forall (Forall (Z.le 0)) (rows flat_ref)
  /\ (0 < nrows flat_ref)%nat /\ (0 < ncols flat_ref)%nat
  /\ exists a,
       flat_avg (loadFlat flat_ref) = Fin a
       /\ (length (concat (rows flat_ref))
           <= 2 * length (List.filter (fun v => Qle_bool (inject_Z v) a)
                                      (concat (rows flat_ref))))%nat
       /\ (length (concat (rows flat_ref))
           <= 2 * length (List.filter (fun v => Qle_bool a (inject_Z v))
                                      (concat (rows flat_ref))))%nat.
Proof.
  assert (Forall (Forall (Z.le 0)) (rows flat_ref)) as H1.
  { simpl. repeat constructor; lia. }
  assert (0 < nrows flat_ref)%nat as H2 by (unfold nrows; simpl; lia).
  assert (0 < ncols flat_ref)%nat as H3 by (simpl; lia).
  split; [exact flat_ref_wf |]. split; [exact H1 |]. split; [exact H2 |].
  split; [exact H3 |].
  exact (loadFlat_median flat_ref flat_ref_wf H1 H2 H3).
Defined.

(** ** Further properties of the gamma correction *)

(** X24. When the white point equals the black point, [gammaCorrection]
    raises [ZeroDivisionError], whatever the intensity and gamma. *)
Theorem gammaCorrection_equal_points libm_pow i g bp wp :
  finite_float i -> finite_float bp -> finite_float wp -> wp == bp ->
  gammaCorrection libm_pow i g bp wp = Raise ZeroDivisionError.
Proof.
  intros Hi Hbp Hwp Heq.
  destruct (pyfloat_finite _ (finite_float_clamp0 i Hi)) as [Hpi _].
  destruct (pyfloat_finite bp Hbp) as [Hpb Hvb].
  destruct (pyfloat_finite wp Hwp) as [Hpw Hvw].
  unfold gammaCorrection. fold (clamp0 i).
  rewrite Hpi, Hpb, Hpw. cbn [mbind result_bind].
  unfold pydiv.
  assert (is_zero (fsub (as_float wp) (as_float bp)) = true) as ->; [| done].
  unfold as_float.
  change (fsub (Fin ?p) (Fin ?q)) with (fround (p + - q)).
  rewrite (fround_zero (Qred (round64 wp) + - Qred (round64 bp)))
    by (rewrite Hvb, Hvw, Heq; ring).
  done.
Qed.

Lemma gammaCorrection_equal_points_witness :
  finite_float 10 /\ finite_float 255 /\ finite_float 255 /\ 255 == 255
  /\ gammaCorrection no_pow 10 1 255 255 = Raise ZeroDivisionError.
Proof.
  assert (finite_float 10) as H1 by (apply (finite_float_int 10); done).
  assert (finite_float 255) as H2 by (apply (finite_float_int 255); done).
  assert (255 == 255) as H3 by reflexivity.
  split; [exact H1 |]. split; [exact H2 |]. split; [exact H2 |]. split; [exact H3 |].
  exact (gammaCorrection_equal_points no_pow 10 1 255 255 H1 H2 H2 H3).
Defined.

(** [1.0 ** y] is 1.0 for every exponent. *)
Lemma pypow_one libm_pow r e :
  r == 1 -> is_nan e = false ->
  exists p, pypow libm_pow (Fin r) e = Ok (Fin p) /\ p == 1.
Proof.
  intros Hr He.
  assert (Qeq_bool r 1 = true) as Hr1 by (by apply Qeq_bool_iff).
  assert (Qltb 0 r = true) as Hr0 by (apply Qltb_lt; rewrite Hr; reflexivity).
  destruct e as [y| | |]; try done.
  - unfold pypow, fpow, pow_pos. rewrite Hr0, Hr1.
    destruct (Qeq_bool y 0); [by exists 1 |].
    destruct (Qeq_bool y 1); [by exists r | by exists 1].
  - unfold pypow, fpow. rewrite Hr1. by exists 1.
  - unfold pypow, fpow. rewrite Hr1. by exists 1.
Qed.

(** X25. For integer black and white points [0 <= bp < wp] and every gamma
    other than 0, [gammaCorrection] maps the white point to itself. *)
Theorem gammaCorrection_white_point libm_pow g bp wp :
  finite_float g -> ~ g == 0 -> (0 <= bp < wp)%Z -> (wp <= 2 ^ 52)%Z ->
  exists q,
    gammaCorrection libm_pow (inject_Z wp) g (inject_Z bp) (inject_Z wp) = Ok (Fin q)
    /\ q == inject_Z wp.
Proof.
  intros Hg Hg0 Hbw Hw.
  assert (finite_float (inject_Z wp)) as Hfw by (apply finite_float_int; lia).
  assert (finite_float (inject_Z bp)) as Hfb by (apply finite_float_int; lia).
  destruct (pyfloat_finite _ Hfw) as [Hpw Hvw].
  destruct (pyfloat_finite _ Hfb) as [Hpb Hvb].
  destruct (pyfloat_finite g Hg) as [Hpg Hvg].
  unfold gammaCorrection.
  rewrite (proj2 (Qltb_ge (inject_Z wp) 0))
    by (change 0 with (inject_Z 0); rewrite <- Zle_Qle; lia).
  rewrite Hpw, Hpb. cbn [mbind result_bind].
  unfold as_float at 1 2 3 4 5 6 7.
  change (fsub (Fin ?p) (Fin ?q)) with (fround (p + - q)).
  destruct (fround_int_value
              (Qred (round64 (inject_Z wp)) + - Qred (round64 (inject_Z bp)))
              (wp - bp)) as (d & -> & Hd); [lia | |].
  { rewrite Hvw, Hvb. unfold Z.sub. by rewrite inject_Z_plus, inject_Z_opp. }
  assert (0 < d) as Hd0.
  { rewrite Hd. change 0 with (inject_Z 0). rewrite <- Zlt_Qlt. lia. }
  rewrite pydiv_nonzero by (unfold is_zero; apply Qeq_bool_false; lra).
  cbn [mbind result_bind].
  destruct (fround_int_value (d / d) 1) as (x & Hfx & Hx); [done | |].
  { change (inject_Z 1) with 1. field. lra. }
  assert (fdiv (Fin d) (Fin d) = Fin x) as ->.
  { unfold fdiv. by rewrite Qeq_bool_false by lra. }
  change (inject_Z 1) with 1 in Hx.
  unfold fltb. rewrite (proj2 (Qltb_lt 0 x)) by (rewrite Hx; reflexivity).
  rewrite Hpg. cbn [mbind result_bind].
  rewrite pydiv_nonzero.
  2: { unfold as_float, is_zero. apply Qeq_bool_false. by rewrite Hvg. }
  cbn [mbind result_bind].
  destruct (pypow_one libm_pow x (fdiv (Fin 1) (as_float g)) Hx) as (p & -> & Hp).
  { unfold as_float, fdiv.
    rewrite Qeq_bool_false by (by rewrite Hvg). apply fround_not_nan. }
  cbn [mbind result_bind].
  change (fmul (Fin d) (Fin p)) with (fround (d * p)).
  destruct (fround_int_value (d * p) (wp - bp)) as (m & -> & Hm); [lia | |].
  { rewrite Hp, Hd. ring. }
  change (fadd (Fin ?a) (Fin m)) with (fround (a + m)).
  destruct (fround_int_value (Qred (round64 (inject_Z bp)) + m) wp)
    as (q & -> & Hq); [lia | |].
  { rewrite Hvb, Hm. unfold Z.sub. rewrite inject_Z_plus, inject_Z_opp. ring. }
  by exists q.
Qed.

Lemma gammaCorrection_white_point_witness :
  finite_float 2 /\ ~ 2 == 0
  /\ (0 <= 0 < 255)%Z /\ (255 <= 2 ^ 52)%Z
  /\ exists q,
       gammaCorrection no_pow (inject_Z 255) 2 (inject_Z 0)
                       (inject_Z 255) = Ok (Fin q)
       /\ q == inject_Z 255.
Proof.
  assert (finite_float 2) as H1
    by (apply (finite_float_int 2); done).
  assert (~ 2 == 0) as H2 by (intros H; discriminate H).
  assert (0 <= 0 < 255)%Z as H3 by lia.
  assert (255 <= 2 ^ 52)%Z as H4 by lia.
  split; [exact H1 |]. split; [exact H2 |]. split; [exact H3 |]. split; [exact H4 |].
  exact (gammaCorrection_white_point no_pow 2 0 255 H1 H2 H3 H4).
Defined.
